(** * The client-side OAuth2 / PKCE authentication core of [src/hooks/use-auth.ts]

    A shallow embedding of the hook's helper functions ([generateRandomString],
    [extractJwtId]), of the module-level token store ([memoryTokens],
    [storage]) and of the [auth] state machine ([validateAndSetUser],
    [exchangeCodeForToken], [refreshToken], [initialize], [logout] and the
    mount effect), followed by the properties proved about them. *)

From Stdlib Require Import ZArith NArith List Ascii String Bool Lia.
From stdpp Require Import base option list gmap.

Set Default Proof Using "Type".
Set Warnings "-register-all".

(** ** JavaScript strings

    A JavaScript string is a sequence of UTF-16 code units.  [js] embeds an
    ASCII literal of the source. *)

Abbreviation jsstring := (list N).

Definition js (s : string) : jsstring :=
  map N_of_ascii (list_ascii_of_string s).

Definition jsstring_eqb (a b : jsstring) : bool := bool_decide (a = b).

(** Truthiness of a string: only the empty string is falsy. *)
Definition str_truthy (s : jsstring) : bool :=
  match s with [] => false | _ :: _ => true end.

(** ** Exceptions and results of synchronous code *)

Inductive exn :=
| Error (msg : jsstring)              (* new Error(msg) *)
| HttpError (what : jsstring) (status : Z) (body : jsstring)
                                      (* new Error(`${what}: ${status} - ${body}`) *)
| TypeError                           (* property access on null / undefined *)
| SyntaxError                         (* JSON.parse, response.json() *)
| InvalidCharacterError               (* atob *)
| FetchFailed.                        (* fetch() rejected *)

Inductive result (A : Type) :=
| Ok (a : A)
| Throw (e : exn).
Arguments Ok {A} a.
Arguments Throw {A} e.

(** ** CryptoUtils *)

Module CryptoUtils.

(** *** Math.random() and generateRandomString

    [Math.random()] returns a double in [0, 1).  Every such double is
    [d_m / 2 ^ d_e] with [0 <= d_m < 2^53] and [53 <= d_e <= 1074] (normal or
    subnormal, or zero), and every such pair is one. *)

Record double01 := { d_m : Z; d_e : Z }.

Definition valid_double01 (d : double01) : Prop :=
  (0 <= d_m d < 2 ^ 53)%Z /\ (53 <= d_e d <= 1074)%Z.

(** Rounding of a positive integer numerator to 53 significant bits, to
    nearest, ties to even: the rounding of IEEE-754 double multiplication.
    (The products below stay in the normal range, or are exact.) *)
Definition round53 (x : Z) : Z :=
  if (x <? 2 ^ 53)%Z then x
  else
    let s := (Z.log2 x - 52)%Z in
    let q := Z.shiftr x s in
    let r := (x mod 2 ^ s)%Z in
    let half := (2 ^ (s - 1))%Z in
    let q' := if (half <? r)%Z || ((r =? half)%Z && Z.odd q) then (q + 1)%Z else q in
    Z.shiftl q' s.

(** [Math.floor(r * n)] for [r] a double in [0, 1) and [n] a small positive
    integer: the double product is [round53 (n * d_m) / 2 ^ d_e]. *)
Definition floor_mul (r : double01) (n : Z) : Z :=
  (round53 (n * d_m r) / 2 ^ d_e r)%Z.

(** [String.prototype.charAt]: the empty string out of range. *)
Definition charAt (s : jsstring) (i : Z) : jsstring :=
  if (i <? 0)%Z then []
  else match s !! Z.to_nat i with
       | Some c => [c]
       | None => []
       end.

Definition charset : jsstring := js "abcdefghijklmnopqrstuvwxyz0123456789".

(** [random k] is the value of the [k]-th call of [Math.random()].
    [Array.from({ length }, f)] calls [f] for the indices [0 .. length-1] in
    order, and [join("")] concatenates the results. *)
Definition generateRandomString (random : nat -> double01) (length : nat) : jsstring :=
  concat (map (fun k => charAt charset (floor_mul (random k) (Z.of_nat (List.length charset))))
              (seq 0 length)).

(** The 36-symbol alphabet: lowercase letters and digits. *)
Definition is_lowercase_or_digit (c : N) : bool :=
  (((97 <=? c) && (c <=? 122)) || ((48 <=? c) && (c <=? 57)))%N.

Definition lowercase_or_digit (c : N) : Prop :=
  (97 <= c <= 122)%N \/ (48 <= c <= 57)%N.

(** *** atob: the forgiving-base64 decode of the HTML standard *)

Definition is_ascii_whitespace (c : N) : bool :=
  ((c =? 9) || (c =? 10) || (c =? 12) || (c =? 13) || (c =? 32))%N.

Definition b64_value (c : N) : option N :=
  if ((65 <=? c) && (c <=? 90))%N then Some (c - 65)%N
  else if ((97 <=? c) && (c <=? 122))%N then Some (c - 71)%N
  else if ((48 <=? c) && (c <=? 57))%N then Some (c + 4)%N
  else if (c =? 43)%N then Some 62%N
  else if (c =? 47)%N then Some 63%N
  else None.

Fixpoint b64_values (s : jsstring) : option (list N) :=
  match s with
  | [] => Some []
  | c :: r =>
      match b64_value c, b64_values r with
      | Some v, Some vs => Some (v :: vs)
      | _, _ => None
      end
  end.

Fixpoint b64_decode (vs : list N) : jsstring :=
  match vs with
  | a :: b :: c :: d :: rest =>
      (a * 4 + b / 16)%N :: ((b mod 16) * 16 + c / 4)%N :: ((c mod 4) * 64 + d)%N
      :: b64_decode rest
  | [a; b; c] => [(a * 4 + b / 16)%N; ((b mod 16) * 16 + c / 4)%N]
  | [a; b] => [(a * 4 + b / 16)%N]
  | _ => []
  end.

Definition strip_padding (d : jsstring) : jsstring :=
  match rev d with
  | 61%N :: 61%N :: r => rev r
  | 61%N :: r => rev r
  | _ => d
  end.

(** [None] is the [InvalidCharacterError] exception. *)
Definition atob (data : jsstring) : option jsstring :=
  let d := List.filter (fun c => negb (is_ascii_whitespace c)) data in
  let d := if (List.length d mod 4 =? 0)%nat then strip_padding d else d in
  if (List.length d mod 4 =? 1)%nat then None
  else match b64_values d with
       | Some vs => Some (b64_decode vs)
       | None => None
       end.

End CryptoUtils.

(** ** JSON values and JSON.parse *)

Module Json.

(** A number literal is kept exactly: [JNum neg m e] is [(-1)^neg * m * 10^e]. *)
Inductive json :=
| JNull
| JBool (b : bool)
| JNum (neg : bool) (m : N) (e : Z)
| JStr (s : jsstring)
| JArr (l : list json)
| JObj (members : list (jsstring * json)).

(** The double nearest to [m * 10^e] is zero exactly when [m = 0] or
    [m * 10^e <= 2^-1075] (half of the least subnormal; the tie goes to even). *)
Definition num_is_zero (m : N) (e : Z) : bool :=
  (m =? 0)%N
  || ((e <? 0)%Z && (Z.of_N m * 2 ^ 1075 <=? 10 ^ (- e))%Z).

(** ToBoolean. *)
Definition truthy (j : json) : bool :=
  match j with
  | JNull => false
  | JBool b => b
  | JNum _ m e => negb (num_is_zero m e)
  | JStr s => str_truthy s
  | JArr _ | JObj _ => true
  end.

(** Own property lookup in a parsed object: the last duplicate wins. *)
Fixpoint lookup_member (k : jsstring) (members : list (jsstring * json)) : option json :=
  match members with
  | [] => None
  | (k', v) :: r =>
      match lookup_member k r with
      | Some v' => Some v'
      | None => if jsstring_eqb k' k then Some v else None
      end
  end.

(** *** The parser *)

Definition is_json_ws (c : N) : bool :=
  ((c =? 9) || (c =? 10) || (c =? 13) || (c =? 32))%N.

Fixpoint skip_ws (s : jsstring) : jsstring :=
  match s with
  | c :: r => if is_json_ws c then skip_ws r else s
  | [] => []
  end.

Definition is_digit (c : N) : bool := ((48 <=? c) && (c <=? 57))%N.

Definition hex_value (c : N) : option N :=
  if is_digit c then Some (c - 48)%N
  else if ((97 <=? c) && (c <=? 102))%N then Some (c - 87)%N
  else if ((65 <=? c) && (c <=? 70))%N then Some (c - 55)%N
  else None.

Definition hex4 (a b c d : N) : option N :=
  match hex_value a, hex_value b, hex_value c, hex_value d with
  | Some x, Some y, Some z, Some w => Some (((x * 16 + y) * 16 + z) * 16 + w)%N
  | _, _, _, _ => None
  end.

(** The character denoted by a single-character escape. *)
Definition unescape (c : N) : option N :=
  if (c =? 34)%N then Some 34%N            (* quotation mark *)
  else if (c =? 92)%N then Some 92%N       (* reverse solidus *)
  else if (c =? 47)%N then Some 47%N       (* solidus *)
  else if (c =? 98)%N then Some 8%N        (* b: backspace *)
  else if (c =? 102)%N then Some 12%N      (* f: form feed *)
  else if (c =? 110)%N then Some 10%N      (* n: line feed *)
  else if (c =? 114)%N then Some 13%N      (* r: carriage return *)
  else if (c =? 116)%N then Some 9%N       (* t: tab *)
  else None.

(** The rest of a string literal, after its opening quote. *)
Fixpoint parse_string (s : jsstring) : option (jsstring * jsstring) :=
  match s with
  | [] => None
  | c :: r =>
      if (c =? 34)%N then Some ([], r)
      else if (c =? 92)%N then
        match r with
        | [] => None
        | e :: r1 =>
            if (e =? 117)%N then
              match r1 with
              | h1 :: h2 :: h3 :: h4 :: r2 =>
                  match hex4 h1 h2 h3 h4, parse_string r2 with
                  | Some u, Some (str, rest) => Some (u :: str, rest)
                  | _, _ => None
                  end
              | _ => None
              end
            else
              match unescape e, parse_string r1 with
              | Some u, Some (str, rest) => Some (u :: str, rest)
              | _, _ => None
              end
        end
      else if (c <? 32)%N then None
      else
        match parse_string r with
        | Some (str, rest) => Some (c :: str, rest)
        | None => None
        end
  end.

(** A maximal run of decimal digits: its value, its length, and the rest. *)
Fixpoint take_digits (acc : N) (n : nat) (s : jsstring) : N * nat * jsstring :=
  match s with
  | c :: r => if is_digit c then take_digits (acc * 10 + (c - 48))%N (S n) r
              else (acc, n, s)
  | [] => (acc, n, [])
  end.

(** The integer part: a single 0, or a nonzero digit followed by digits. *)
Definition parse_int (s : jsstring) : option (N * jsstring) :=
  match s with
  | c :: r =>
      if (c =? 48)%N then Some (0%N, r)
      else if is_digit c then
        let '(v, _, rest) := take_digits (c - 48)%N 1 r in Some (v, rest)
      else None
  | [] => None
  end.

(** An optional fraction, accumulated onto the digits [m]. *)
Definition parse_frac (m : N) (s : jsstring) : option (N * Z * jsstring) :=
  match s with
  | 46%N :: r =>
      let '(v, n, rest) := take_digits m 0 r in
      match n with
      | O => None
      | S _ => Some (v, (- Z.of_nat n)%Z, rest)
      end
  | _ => Some (m, 0%Z, s)
  end.

Definition parse_exp (s : jsstring) : option (Z * jsstring) :=
  match s with
  | c :: r =>
      if ((c =? 101) || (c =? 69))%N then
        let '(sign, r1) :=
          match r with
          | 43%N :: r' => (1%Z, r')
          | 45%N :: r' => ((-1)%Z, r')
          | _ => (1%Z, r)
          end in
        let '(v, n, rest) := take_digits 0 0 r1 in
        match n with
        | O => None
        | S _ => Some ((sign * Z.of_N v)%Z, rest)
        end
      else Some (0%Z, s)
  | [] => Some (0%Z, [])
  end.

Definition parse_number (s : jsstring) : option (json * jsstring) :=
  let '(neg, s1) := match s with 45%N :: r => (true, r) | _ => (false, s) end in
  match parse_int s1 with
  | None => None
  | Some (i, s2) =>
      match parse_frac i s2 with
      | None => None
      | Some (m, shift, s3) =>
          match parse_exp s3 with
          | None => None
          | Some (e, s4) => Some (JNum neg m (e + shift)%Z, s4)
          end
      end
  end.

(** [strip_prefix p s]: the rest of [s] after the literal [p]. *)
Fixpoint strip_prefix (p s : jsstring) : option jsstring :=
  match p, s with
  | [], _ => Some s
  | a :: p', b :: s' => if (a =? b)%N then strip_prefix p' s' else None
  | _ :: _, [] => None
  end.

(** [parse_value depth s] parses one JSON value at the head of [s] (after
    optional white space) and returns it with the unread rest.  [depth]
    bounds the nesting of arrays and objects; the element loops are bounded
    by the length of the unread input, each element reading at least one
    character. *)
Fixpoint parse_value (depth : nat) (s : jsstring) : option (json * jsstring) :=
  match depth with
  | O => None
  | S depth' =>
      match skip_ws s with
      | [] => None
      | c :: r =>
          if (c =? 34)%N then
            match parse_string r with
            | Some (str, rest) => Some (JStr str, rest)
            | None => None
            end
          else if (c =? 91)%N then          (* [ *)
            match skip_ws r with
            | 93%N :: rest => Some (JArr [], rest)
            | r0 =>
                (fix elements (n : nat) (r : jsstring) (acc : list json) :=
                   match n with
                   | O => None
                   | S n' =>
                       match parse_value depth' r with
                       | None => None
                       | Some (v, r1) =>
                           match skip_ws r1 with
                           | 44%N :: r2 => elements n' r2 (v :: acc)
                           | 93%N :: r2 => Some (JArr (rev (v :: acc)), r2)
                           | _ => None
                           end
                       end
                   end) (S (List.length r0)) r0 []
            end
          else if (c =? 123)%N then         (* { *)
            match skip_ws r with
            | 125%N :: rest => Some (JObj [], rest)
            | r0 =>
                (fix members (n : nat) (r : jsstring) (acc : list (jsstring * json)) :=
                   match n with
                   | O => None
                   | S n' =>
                       match skip_ws r with
                       | 34%N :: r1 =>
                           match parse_string r1 with
                           | None => None
                           | Some (k, r2) =>
                               match skip_ws r2 with
                               | 58%N :: r3 =>
                                   match parse_value depth' r3 with
                                   | None => None
                                   | Some (v, r4) =>
                                       match skip_ws r4 with
                                       | 44%N :: r5 => members n' r5 ((k, v) :: acc)
                                       | 125%N :: r5 => Some (JObj (rev ((k, v) :: acc)), r5)
                                       | _ => None
                                       end
                                   end
                               | _ => None
                               end
                           end
                       | _ => None
                       end
                   end) (S (List.length r0)) r0 []
            end
          else if (c =? 116)%N then
            match strip_prefix (js "rue") r with
            | Some rest => Some (JBool true, rest) | None => None end
          else if (c =? 102)%N then
            match strip_prefix (js "alse") r with
            | Some rest => Some (JBool false, rest) | None => None end
          else if (c =? 110)%N then
            match strip_prefix (js "ull") r with
            | Some rest => Some (JNull, rest) | None => None end
          else parse_number (c :: r)
      end
  end.

(** [JSON.parse]: [None] is the [SyntaxError] exception.  A text cannot nest
    deeper than it is long. *)
Definition JSON_parse (text : jsstring) : option json :=
  match parse_value (S (List.length text)) text with
  | Some (v, rest) =>
      match skip_ws rest with
      | [] => Some v
      | _ :: _ => None
      end
  | None => None
  end.

End Json.
Export Json.

Open Scope string_scope.

(** ** Access tokens as the code passes them around

    The access token is a string; the store initialises and clears it to
    [null].  A token response hands its [access_token] member to
    [storage.setAccessToken] as it is: [undefined] when the response has no
    such member, [null] when the member is the JSON [null]. *)

Inductive jstoken :=
| TokNull
| TokUndefined
| TokStr (s : jsstring).

Definition tok_truthy (t : jstoken) : bool :=
  match t with
  | TokStr s => str_truthy s
  | TokNull | TokUndefined => false
  end.

(** Strict equality [===]. *)
Definition tok_strict_eqb (a b : jstoken) : bool :=
  match a, b with
  | TokNull, TokNull => true
  | TokUndefined, TokUndefined => true
  | TokStr x, TokStr y => jsstring_eqb x y
  | _, _ => false
  end.

(** ** extractJwtId *)

(** [String.prototype.split] with a one-character separator. *)
Fixpoint split (sep : N) (s : jsstring) : list jsstring :=
  match s with
  | [] => [[]]
  | c :: r =>
      if (c =? sep)%N then [] :: split sep r
      else match split sep r with
           | h :: t => (c :: h) :: t
           | [] => [[c]]
           end
  end.

Definition dot : N := 46.

(** The body of the [try] block. *)
Definition extractJwtId_try (token : jstoken) : result (option json) :=
  match token with
  | TokNull | TokUndefined => Throw TypeError        (* token.split *)
  | TokStr s =>
      match split dot s !! 1%nat with
      | None => Ok None                              (* payloadBase64 is undefined *)
      | Some payloadBase64 =>
          if negb (str_truthy payloadBase64) then Ok None
          else
            match CryptoUtils.atob payloadBase64 with
            | None => Throw InvalidCharacterError
            | Some text =>
                match JSON_parse text with
                | None => Throw SyntaxError
                | Some JNull => Throw TypeError      (* payload.jti on null *)
                | Some (JObj members) =>
                    match lookup_member (js "jti") members with
                    | Some jti => if truthy jti then Ok (Some jti) else Ok None
                    | None => Ok None
                    end
                | Some _ => Ok None                  (* no such property *)
                end
            end
      end
  end.

(** [None] is the [null] result. *)
Definition extractJwtId (token : jstoken) : result (option json) :=
  match extractJwtId_try token with
  | Ok r => Ok r
  | Throw _ => Ok None
  end.

(** ** The data of the hook *)

Record UserDetails := {
  active : bool;
  client_id : jsstring;
  sub : jsstring;
  email : jsstring
}.

(** A member that the code tests before use ([!tokens.access_token],
    [tokens.expires_in || 3600], [tokens.status === ...]) may be absent.
    [access_token] is also stored and passed on, where [null] and absent
    differ: it is kept as the value that the code reads.  For the other
    members [null] and absent behave alike.  [expires_in] counts whole
    seconds. *)
Record TokenResponse := {
  access_token : jstoken;
  token_type : option jsstring;
  expires_in : option Z;
  status : option jsstring;
  message : option jsstring
}.

Definition opt_truthy (o : option jsstring) : bool :=
  match o with Some s => str_truthy s | None => false end.

(** [tokens.expires_in || 3600] *)
Definition expires_or_default (o : option Z) : Z :=
  match o with
  | Some n => if (n =? 0)%Z then 3600%Z else n
  | None => 3600%Z
  end.

(** What [response.json()] gives, up to the members the code reads. *)
Inductive Body :=
| BodyInvalid                      (* not JSON: json() rejects *)
| BodyNull                         (* the JSON value null *)
| BodyTokens (t : TokenResponse)
| BodyUser (u : UserDetails).

Record Response := {
  resp_status : Z;
  resp_text : jsstring;      (* what response.text() gives *)
  resp_json : Body           (* what response.json() gives *)
}.

(** [response.ok]: the status is in the range 200-299. *)
Definition resp_ok (r : Response) : bool :=
  ((200 <=? resp_status r) && (resp_status r <=? 299))%Z.

(** What a [fetch] settles with: its promise rejects (the request failed) or
    resolves with a response.  A request that stays pending is not a
    behaviour of the embedding; what is said of the requests is said of
    requests that settle. *)
Inductive FetchResult :=
| Rejected
| Resolved (r : Response).

Inductive IntrospectKey :=
| KeyJti (jti : json)
| KeyToken (t : jstoken).

Inductive Request :=
| PostToken (params : list (jsstring * jsstring))   (* <baseUrl>/api/auth/token *)
| PostIntrospect (token : IntrospectKey)            (* .../innerApp/oauth2/introspect *)
| PostLogout.                                       (* <baseUrl>/api/auth/logout *)

(** The world outside the hook: what the [n]-th [fetch] of the page answers,
    and what [Date.now()] reads after [n] fetches. *)
Record Env := {
  respond : nat -> Request -> FetchResult;
  clock : nat -> Z
}.

Record MemoryTokens := {
  accessToken : jstoken;
  expiry : option Z
}.

(** The [useState] cells of the hook. *)
Record AuthView := {
  isLoggedIn : bool;
  userDetails : option UserDetails;
  authLoading : bool
}.

Record Location := {
  pathname : jsstring;
  search : list (jsstring * jsstring);   (* the parsed query parameters *)
  fragment : jsstring
}.

Record World := {
  memoryTokens : MemoryTokens;                (* module-level store *)
  localStorage : gmap jsstring jsstring;
  view : AuthView;
  isInitializing : bool;                      (* the useRef latch *)
  location : Location;
  history_length : nat;
  requests : list Request                     (* the fetches issued so far *)
}.

Definition STORAGE_KEYS_CODE_VERIFIER : jsstring := js "solar_oauth_code_verifier".

Definition initial_memoryTokens : MemoryTokens :=
  {| accessToken := TokNull; expiry := None |}.

Definition initial_view : AuthView :=
  {| isLoggedIn := false; userDetails := None; authLoading := true |}.

Definition with_memoryTokens (m : MemoryTokens) (w : World) : World :=
  {| memoryTokens := m; localStorage := localStorage w; view := view w;
     isInitializing := isInitializing w; location := location w;
     history_length := history_length w; requests := requests w |}.

Definition with_localStorage (l : gmap jsstring jsstring) (w : World) : World :=
  {| memoryTokens := memoryTokens w; localStorage := l; view := view w;
     isInitializing := isInitializing w; location := location w;
     history_length := history_length w; requests := requests w |}.

Definition with_view (v : AuthView) (w : World) : World :=
  {| memoryTokens := memoryTokens w; localStorage := localStorage w; view := v;
     isInitializing := isInitializing w; location := location w;
     history_length := history_length w; requests := requests w |}.

Definition with_isInitializing (b : bool) (w : World) : World :=
  {| memoryTokens := memoryTokens w; localStorage := localStorage w; view := view w;
     isInitializing := b; location := location w;
     history_length := history_length w; requests := requests w |}.

Definition with_location (l : Location) (w : World) : World :=
  {| memoryTokens := memoryTokens w; localStorage := localStorage w; view := view w;
     isInitializing := isInitializing w; location := l;
     history_length := history_length w; requests := requests w |}.

Definition with_requests (r : list Request) (w : World) : World :=
  {| memoryTokens := memoryTokens w; localStorage := localStorage w; view := view w;
     isInitializing := isInitializing w; location := location w;
     history_length := history_length w; requests := r |}.

(** ** Asynchronous code

    An [async] function is a world transformer that returns normally or
    throws (its promise fulfils or rejects).  [None] means that the
    recursion budget of the embedding was used up before it settled. *)

Definition M (A : Type) : Type := World -> option (result A * World).

Definition ret {A} (a : A) : M A := fun w => Some (Ok a, w).

Definition throw {A} (e : exn) : M A := fun w => Some (Throw e, w).

Definition bind {A B} (c : M A) (k : A -> M B) : M B := fun w =>
  match c w with
  | Some (Ok a, w') => k a w'
  | Some (Throw e, w') => Some (Throw e, w')
  | None => None
  end.

Definition try_catch {A} (c : M A) (handler : exn -> M A) : M A := fun w =>
  match c w with
  | Some (Ok a, w') => Some (Ok a, w')
  | Some (Throw e, w') => handler e w'
  | None => None
  end.

Definition lift {A} (r : result A) : M A := fun w => Some (r, w).

(** [try { c } finally { f }], and [promise.finally(f)]. *)
Definition finally {A} (c : M A) (f : M unit) : M A := fun w =>
  match c w with
  | Some (r, w') =>
      match f w' with
      | Some (Ok _, w'') => Some (r, w'')
      | Some (Throw e, w'') => Some (Throw e, w'')
      | None => None
      end
  | None => None
  end.

Definition modify (f : World -> World) : M unit := fun w => Some (Ok tt, f w).

Definition out_of_fuel {A} : M A := fun _ => None.

Declare Scope async_scope.
Delimit Scope async_scope with async.
Notation "x <- c1 ;; c2" := (bind c1 (fun x => c2))
  (at level 100, c1 at next level, right associativity) : async_scope.
Notation "c1 ;; c2" := (bind c1 (fun _ => c2))
  (at level 100, right associativity) : async_scope.
Open Scope async_scope.

(** ** The hook *)

Module UseAuth.
Section Hook.

Variable env : Env.
Variable clientId : jsstring.

Definition now (w : World) : Z := clock env (List.length (requests w)).

(** *** storage *)

Definition storage_get (key : jsstring) : M (option jsstring) := fun w =>
  Some (Ok (localStorage w !! key), w).

Definition storage_set (key value : jsstring) : M unit :=
  modify (fun w => with_localStorage (<[key := value]> (localStorage w)) w).

Definition storage_remove (key : jsstring) : M unit :=
  modify (fun w => with_localStorage (delete key (localStorage w)) w).

Definition getAccessToken : M jstoken := fun w =>
  Some (Ok (accessToken (memoryTokens w)), w).

Definition getTokenExpiry : M (option Z) := fun w =>
  Some (Ok (expiry (memoryTokens w)), w).

Definition setAccessToken (token : jstoken) (expiresIn : Z) : M unit :=
  modify (fun w =>
    with_memoryTokens
      {| accessToken := token; expiry := Some (now w + expiresIn * 1000)%Z |} w).

Definition clearAuth : M unit :=
  modify (with_memoryTokens {| accessToken := TokNull; expiry := None |}).

(** *** the state setters *)

Definition setIsLoggedIn (b : bool) : M unit :=
  modify (fun w =>
    with_view {| isLoggedIn := b; userDetails := userDetails (view w);
                 authLoading := authLoading (view w) |} w).

Definition setUserDetails (u : option UserDetails) : M unit :=
  modify (fun w =>
    with_view {| isLoggedIn := isLoggedIn (view w); userDetails := u;
                 authLoading := authLoading (view w) |} w).

Definition setAuthLoading (b : bool) : M unit :=
  modify (fun w =>
    with_view {| isLoggedIn := isLoggedIn (view w); userDetails := userDetails (view w);
                 authLoading := b |} w).

(** *** api *)

Definition fetch (req : Request) : M Response := fun w =>
  let w' := with_requests (requests w ++ [req]) w in
  match respond env (List.length (requests w)) req with
  | Rejected => Some (Throw FetchFailed, w')
  | Resolved r => Some (Ok r, w')
  end.

Definition validateToken (tokenId : IntrospectKey) : M Body :=
  response <- fetch (PostIntrospect tokenId) ;;
  if negb (resp_ok response) then
    throw (HttpError (js "Token validation failed") (resp_status response) (resp_text response))
  else
    match resp_json response with
    | BodyInvalid => throw SyntaxError
    | data => ret data
    end.

Definition exchangeToken (params : list (jsstring * jsstring)) : M TokenResponse :=
  response <- fetch (PostToken params) ;;
  if negb (resp_ok response) then
    throw (HttpError (js "Token operation failed") (resp_status response) (resp_text response))
  else
    match resp_json response with
    | BodyInvalid => throw SyntaxError
    | BodyNull => throw TypeError                      (* tokens.access_token on null *)
    | BodyTokens tokens =>
        if negb (tok_truthy (access_token tokens)) && negb (opt_truthy (status tokens)) then
          throw (Error (js "Received incomplete token data from server"))
        else ret tokens
    | BodyUser _ =>                                    (* neither member is there *)
        throw (Error (js "Received incomplete token data from server"))
    end.

(** [data && data.active] *)
Definition active_user (data : Body) : option UserDetails :=
  match data with
  | BodyUser u => if active u then Some u else None
  | _ => None
  end.

(** *** auth

    [auth.validateAndSetUser] and [auth.refreshToken] call each other; each is
    written over the other one, and the knot is tied below.
    [closure_isLoggedIn] is the value of [isLoggedIn] of the render that
    created the [auth] object. *)

Definition introspect (refreshToken : M unit) (key : IntrospectKey) : M unit :=
  data <- validateToken key ;;
  match active_user data with
  | Some u => setUserDetails (Some u) ;; setIsLoggedIn true
  | None => refreshToken
  end.

Definition validateAndSetUser_try (refreshToken : M unit) (closure_isLoggedIn : bool)
    (accessToken : jstoken) : M unit :=
  stored <- getAccessToken ;;
  if closure_isLoggedIn && tok_strict_eqb stored accessToken then ret tt
  else
    tokenId <- lift (extractJwtId accessToken) ;;
    match tokenId with
    | None => introspect refreshToken (KeyToken accessToken)
    | Some jti => introspect refreshToken (KeyJti jti)
    end.

(** The innermost handler: clear, settle, rethrow. *)
Definition clear_and_rethrow (refreshErr : exn) : M unit :=
  clearAuth ;; setIsLoggedIn false ;; setUserDetails None ;; throw refreshErr.

Definition validateAndSetUser_catch (refreshToken : M unit) (err : exn) : M unit :=
  try_catch refreshToken clear_and_rethrow.

Definition validateAndSetUser_with (refreshToken : M unit) (closure_isLoggedIn : bool)
    (accessToken : jstoken) : M unit :=
  try_catch (validateAndSetUser_try refreshToken closure_isLoggedIn accessToken)
            (validateAndSetUser_catch refreshToken).

(** [!tokens] is never true: [api.exchangeToken] has thrown on a [null]
    body, and anything else it returns is an object. *)
Definition refreshToken_try (validateAndSetUser : jstoken -> M unit) : M unit :=
  tokens <- exchangeToken [(js "client_id", clientId); (js "grant_type", js "refresh_token")] ;;
  if bool_decide (status tokens = Some (js "auth_required")) then
    setIsLoggedIn false ;; setUserDetails None
  else
    setAccessToken (access_token tokens) (expires_or_default (expires_in tokens)) ;;
    validateAndSetUser (access_token tokens).

Definition refreshToken_with (validateAndSetUser : jstoken -> M unit) : M unit :=
  try_catch (refreshToken_try validateAndSetUser)
    (fun err => clearAuth ;; setIsLoggedIn false ;; setUserDetails None).

Definition exchangeCodeForToken_with (validateAndSetUser : jstoken -> M unit)
    (code : jsstring) : M unit :=
  codeVerifier <- storage_get STORAGE_KEYS_CODE_VERIFIER ;;
  match codeVerifier with
  | Some verifier =>
      if negb (str_truthy verifier) then throw (Error (js "Missing code verifier"))
      else
        try_catch
          (tokens <- exchangeToken [(js "client_id", clientId);
                                    (js "grant_type", js "authorization_code");
                                    (js "code", code);
                                    (js "code_verifier", verifier)] ;;
           setAccessToken (access_token tokens)
                          (expires_or_default (expires_in tokens)) ;;
           validateAndSetUser (access_token tokens))
          (fun _ => ret tt)
  | None => throw (Error (js "Missing code verifier"))
  end.

(** [new URLSearchParams(window.location.search).get(name)] *)
Fixpoint searchParams_get (name : jsstring) (params : list (jsstring * jsstring))
  : option jsstring :=
  match params with
  | [] => None
  | (k, v) :: r => if jsstring_eqb k name then Some v else searchParams_get name r
  end.

(** [window.history.replaceState({}, document.title, window.location.pathname)]:
    the current entry's URL becomes the bare path; no entry is added and the
    document is not reloaded. *)
Definition replaceState_pathname : M unit :=
  modify (fun w =>
    with_location {| pathname := pathname (location w); search := []; fragment := [] |} w).

Definition expiry_in_future (tokenExpiry : option Z) (w : World) : bool :=
  match tokenExpiry with
  | Some t => negb (t =? 0)%Z && (now w <? t)%Z
  | None => false
  end.

Definition initialize_try (validateAndSetUser : jstoken -> M unit)
    (exchangeCodeForToken : jsstring -> M unit) (refreshToken : M unit) : M unit :=
  accessToken <- getAccessToken ;;
  tokenExpiry <- getTokenExpiry ;;
  fun w =>
    if tok_truthy accessToken && expiry_in_future tokenExpiry w then
      validateAndSetUser accessToken w
    else
      match searchParams_get (js "code") (search (location w)) with
      | Some (c :: code) =>
          (exchangeCodeForToken (c :: code) ;; replaceState_pathname) w
      | _ =>
          try_catch refreshToken
            (fun err => setIsLoggedIn false ;; setUserDetails None) w
      end.

Definition initialize_with (validateAndSetUser : jstoken -> M unit)
    (exchangeCodeForToken : jsstring -> M unit) (refreshToken : M unit) : M unit :=
  try_catch (initialize_try validateAndSetUser exchangeCodeForToken refreshToken)
    (fun err => setIsLoggedIn false ;; setUserDetails None).

(** Tying the knot.  [fuel] bounds how many times [refreshToken] may
    re-enter itself through [validateAndSetUser]. *)
Fixpoint refreshToken (fuel : nat) (closure_isLoggedIn : bool) : M unit :=
  match fuel with
  | O => out_of_fuel
  | S fuel' =>
      refreshToken_with
        (validateAndSetUser_with (refreshToken fuel' closure_isLoggedIn) closure_isLoggedIn)
  end.

Definition validateAndSetUser (fuel : nat) (closure_isLoggedIn : bool)
    (accessToken : jstoken) : M unit :=
  validateAndSetUser_with (refreshToken fuel closure_isLoggedIn) closure_isLoggedIn accessToken.

Definition exchangeCodeForToken (fuel : nat) (closure_isLoggedIn : bool)
    (code : jsstring) : M unit :=
  exchangeCodeForToken_with (validateAndSetUser fuel closure_isLoggedIn) code.

Definition initialize (fuel : nat) (closure_isLoggedIn : bool) : M unit :=
  initialize_with (validateAndSetUser fuel closure_isLoggedIn)
                  (exchangeCodeForToken fuel closure_isLoggedIn)
                  (refreshToken fuel closure_isLoggedIn).

(** *** logout *)

Definition logout : M unit :=
  finally
    (try_catch (fetch PostLogout ;; ret tt) (fun _ => ret tt))
    (clearAuth ;; setIsLoggedIn false ;; setUserDetails None).

(** *** the initialisation effect

    The effect runs with the [auth] object of the render that scheduled it. *)
Definition initialization_effect (fuel : nat) : M unit := fun w =>
  if isInitializing w then Some (Ok tt, w)
  else
    let closure_isLoggedIn := isLoggedIn (view w) in
    (modify (with_isInitializing true) ;;
     setAuthLoading true ;;
     finally (initialize fuel closure_isLoggedIn)
             (setAuthLoading false ;; modify (with_isInitializing false))) w.

(** Mounting the hook: fresh [useState] cells and a fresh latch. *)
Definition mount (fuel : nat) : M unit := fun w =>
  initialization_effect fuel (with_isInitializing false (with_view initial_view w)).

End Hook.
End UseAuth.


(** ** Vocabulary of the properties *)

(** The promise of [c], started in [w], rejects. *)
Definition throws {A} (c : M A) (w : World) : Prop :=
  exists e w', c w = Some (Throw e, w').

(** Whenever [c] settles, [c'] settles the same way. *)
Definition extends {A} (c c' : M A) : Prop :=
  forall w r, c w = Some r -> c' w = Some r.

(** The session is settled as Unauthenticated. *)
Definition unauthenticated (w : World) : Prop :=
  isLoggedIn (view w) = false /\ userDetails (view w) = None.

(** The world after [setIsLoggedIn(false); setUserDetails(null)]. *)
Definition settle_unauth (w : World) : World :=
  with_view {| isLoggedIn := false; userDetails := None;
               authLoading := authLoading (view w) |} w.

(** The world after [storage.clearAuth(); setIsLoggedIn(false);
    setUserDetails(null)]. *)
Definition settle_cleared (w : World) : World :=
  settle_unauth (with_memoryTokens initial_memoryTokens w).

(** The world when the initialisation effect has started ([isInitializing]
    latched, [authLoading] set), and when its [finally] callback has run. *)
Definition start_loading (w : World) : World :=
  with_view {| isLoggedIn := isLoggedIn (view w); userDetails := userDetails (view w);
               authLoading := true |} (with_isInitializing true w).

Definition stop_loading (w : World) : World :=
  with_isInitializing false
    (with_view {| isLoggedIn := isLoggedIn (view w); userDetails := userDetails (view w);
                  authLoading := false |} w).

(** The world after one more [fetch]. *)
Definition sent (req : Request) (w : World) : World :=
  with_requests (requests w ++ [req]) w.

(** The two bodies that [api.exchangeToken] is called with. *)
Definition refresh_params (clientId : jsstring) : list (jsstring * jsstring) :=
  [(js "client_id", clientId); (js "grant_type", js "refresh_token")].

Definition code_params (clientId code verifier : jsstring) : list (jsstring * jsstring) :=
  [(js "client_id", clientId); (js "grant_type", js "authorization_code");
   (js "code", code); (js "code_verifier", verifier)].

(** The world after [storage.setAccessToken(token, expiresIn)]. *)
Definition stored (env : Env) (token : jstoken) (expiresIn : Z) (w : World) : World :=
  with_memoryTokens
    {| accessToken := token;
       expiry := Some (UseAuth.now env w + expiresIn * 1000)%Z |} w.

(** The world after [setUserDetails(data); setIsLoggedIn(true)]. *)
Definition settle_auth (u : UserDetails) (w : World) : World :=
  with_view {| isLoggedIn := true; userDetails := Some u;
               authLoading := authLoading (view w) |} w.

(** The key that [validateAndSetUser] introspects with. *)
Definition introspection_key (accessToken : jstoken) : IntrospectKey :=
  match extractJwtId accessToken with
  | Ok (Some jti) => KeyJti jti
  | _ => KeyToken accessToken
  end.

(** The number of dots of a token. *)
Definition count_dots (s : jsstring) : nat :=
  List.length (List.filter (N.eqb dot) s).

(** *** The token record and its writers *)

(** Token and expiry are both null or both non-null. *)
Definition paired (m : MemoryTokens) : Prop :=
  accessToken m <> TokNull <-> expiry m <> None.

(** A null expiry goes with a null token: whatever is in the record as the
    token, a string above all, has an expiry. *)
Definition token_has_expiry (m : MemoryTokens) : Prop :=
  expiry m = None -> accessToken m = TokNull.

(** Both members are null, or the token is a string and the expiry is set. *)
Definition both_null_or_both_set (m : MemoryTokens) : Prop :=
  (accessToken m = TokNull /\ expiry m = None)
  \/ ((exists s, accessToken m = TokStr s) /\ expiry m <> None).

(** One write to the record: both members are assigned (the token being one
    that [P] admits), or both are cleared. *)
Inductive store_write_of (P : jstoken -> Prop) : MemoryTokens -> MemoryTokens -> Prop :=
| write_both m token instant :
    P token ->
    store_write_of P m {| accessToken := token; expiry := Some instant |}
| clear_both m :
    store_write_of P m {| accessToken := TokNull; expiry := None |}.

(** [storage.setAccessToken] assigns whatever it is given. *)
Definition store_write : MemoryTokens -> MemoryTokens -> Prop :=
  store_write_of (fun _ => True).

Definition is_string (t : jstoken) : Prop := exists s, t = TokStr s.

(** Whatever [c] does to the record, it does by such writes. *)
Definition writes_by (P : jstoken -> Prop) {A} (c : M A) : Prop :=
  forall w r w',
    c w = Some (r, w') -> rtc (store_write_of P) (memoryTokens w) (memoryTokens w').

(** The operations of the auth core, as a caller may invoke them.  The
    argument of [storage.setAccessToken] is a string, as its signature says. *)
Inductive Op :=
| OpSetAccessToken (token : jsstring) (expiresIn : Z)
| OpClearAuth
| OpStorageSet (key value : jsstring)
| OpStorageRemove (key : jsstring)
| OpValidateAndSetUser (fuel : nat) (closure_isLoggedIn : bool) (accessToken : jstoken)
| OpExchangeCodeForToken (fuel : nat) (closure_isLoggedIn : bool) (code : jsstring)
| OpRefreshToken (fuel : nat) (closure_isLoggedIn : bool)
| OpInitialize (fuel : nat) (closure_isLoggedIn : bool)
| OpLogout
| OpMount (fuel : nat).

Definition run_op (env : Env) (clientId : jsstring) (op : Op) : M unit :=
  match op with
  | OpSetAccessToken token expiresIn => UseAuth.setAccessToken env (TokStr token) expiresIn
  | OpClearAuth => UseAuth.clearAuth
  | OpStorageSet key value => UseAuth.storage_set key value
  | OpStorageRemove key => UseAuth.storage_remove key
  | OpValidateAndSetUser fuel captured tok => UseAuth.validateAndSetUser env clientId fuel captured tok
  | OpExchangeCodeForToken fuel captured code => UseAuth.exchangeCodeForToken env clientId fuel captured code
  | OpRefreshToken fuel captured => UseAuth.refreshToken env clientId fuel captured
  | OpInitialize fuel captured => UseAuth.initialize env clientId fuel captured
  | OpLogout => UseAuth.logout env
  | OpMount fuel => UseAuth.mount env clientId fuel
  end.

(** The states a page can be in: the module has just been loaded (the record
    holds its initial value; storage, location and view are arbitrary), or an
    operation has settled in a reachable state. *)
Inductive reachable (env : Env) (clientId : jsstring) : World -> Prop :=
| reachable_loaded w :
    memoryTokens w = initial_memoryTokens -> reachable env clientId w
| reachable_step w op r w' :
    reachable env clientId w ->
    run_op env clientId op w = Some (r, w') ->
    reachable env clientId w'.

(** Every token response that the code stores carries a string
    [access_token]: every answer to a code exchange, and every answer to a
    refresh that is not [auth_required]. *)
Definition stores_strings (env : Env) (clientId : jsstring) : Prop :=
  (forall w tokens w1,
      UseAuth.exchangeToken env (refresh_params clientId) w = Some (Ok tokens, w1) ->
      status tokens <> Some (js "auth_required") ->
      is_string (access_token tokens))
  /\ (forall code verifier w tokens w1,
        UseAuth.exchangeToken env (code_params clientId code verifier) w
        = Some (Ok tokens, w1) ->
        is_string (access_token tokens)).

(** ** Scenarios *)

Module Scenario.

Definition fresh_page : World :=
  {| memoryTokens := initial_memoryTokens;
     localStorage := ∅;
     view := initial_view;
     isInitializing := false;
     location := {| pathname := js "/"; search := []; fragment := [] |};
     history_length := 1;
     requests := [] |}.

Definition http (status : Z) (json : Body) : FetchResult :=
  Resolved {| resp_status := status; resp_text := []; resp_json := json |}.

(** Every endpoint answers 401. *)
Definition env_401 : Env :=
  {| respond := fun _ _ => http 401 BodyInvalid;
     clock := fun _ => 1700000000000%Z |}.

Definition tokens_tok1 : TokenResponse :=
  {| access_token := TokStr (js "tok1"); token_type := Some (js "Bearer");
     expires_in := Some 3600%Z; status := None; message := None |}.

Definition user_ab : UserDetails :=
  {| active := true; client_id := js "c1"; sub := js "u1"; email := js "a@b.com" |}.

(** The token endpoint issues [tok1]; introspection reports it active. *)
Definition env_login : Env :=
  {| respond := fun _ req =>
       match req with
       | PostToken _ => http 200 (BodyTokens tokens_tok1)
       | PostIntrospect _ => http 200 (BodyUser user_ab)
       | PostLogout => http 200 BodyNull
       end;
     clock := fun _ => 1700000000000%Z |}.

Definition tokens_auth_required : TokenResponse :=
  {| access_token := TokUndefined; token_type := None; expires_in := None;
     status := Some (js "auth_required"); message := None |}.

Definition user_inactive : UserDetails :=
  {| active := false; client_id := []; sub := []; email := [] |}.

(** No session to refresh, and introspection reports every token inactive. *)
Definition env_auth_required : Env :=
  {| respond := fun _ req =>
       match req with
       | PostToken _ => http 200 (BodyTokens tokens_auth_required)
       | PostIntrospect _ => http 200 (BodyUser user_inactive)
       | PostLogout => http 200 BodyNull
       end;
     clock := fun _ => 1700000000000%Z |}.

(** A token response with a status and a [null] token. *)
Definition tokens_null : TokenResponse :=
  {| access_token := TokNull; token_type := None; expires_in := Some 3600%Z;
     status := Some (js "ok"); message := None |}.

(** The token endpoint answers with it; introspection reports an active user. *)
Definition env_null_token : Env :=
  {| respond := fun _ req =>
       match req with
       | PostToken _ => http 200 (BodyTokens tokens_null)
       | PostIntrospect _ => http 200 (BodyUser user_ab)
       | PostLogout => http 200 BodyNull
       end;
     clock := fun _ => 1700000000000%Z |}.

(** The token endpoint always issues [tok1]; introspection always reports
    it inactive. *)
Definition env_churn : Env :=
  {| respond := fun _ req =>
       match req with
       | PostToken _ => http 200 (BodyTokens tokens_tok1)
       | PostIntrospect _ => http 200 (BodyUser user_inactive)
       | PostLogout => http 200 BodyNull
       end;
     clock := fun _ => 1700000000000%Z |}.

(** A [refreshToken] that throws, for the statements made over an arbitrary one. *)
Definition failing_refresh : M unit := throw (Error (js "refresh failed")).

(** Back from the identity provider: [?code=abc123], verifier [xyz] stored. *)
Definition page_with_code : World :=
  with_location {| pathname := js "/"; search := [(js "code", js "abc123")]; fragment := [] |}
    (with_localStorage {[ STORAGE_KEYS_CODE_VERIFIER := js "xyz" ]} fresh_page).

(** A stored, unexpired token, and the hook not yet mounted. *)
Definition page_with_token : World :=
  with_memoryTokens {| accessToken := TokStr (js "tok0");
                       expiry := Some 1700000001000%Z |} fresh_page.

(** Same URL, but nothing stored. *)
Definition page_with_code_no_verifier : World :=
  with_location {| pathname := js "/"; search := [(js "code", js "abc123")]; fragment := [] |}
    fresh_page.

Definition client : jsstring := js "client-1".

(** The page of [page_with_code] once the hook has been mounted on it. *)
Definition after_login : World :=
  match UseAuth.mount env_login (js "client-1") 0 page_with_code with
  | Some (_, w) => w
  | None => page_with_code
  end.

(** Signed in with [tok1] in the store. *)
Definition signed_in_page : World :=
  with_view {| isLoggedIn := true; userDetails := Some user_ab; authLoading := false |}
    (with_memoryTokens {| accessToken := TokStr (js "tok1");
                          expiry := Some 1700003600000%Z |} fresh_page).

(** Some values of [Math.random()]: multiples of [2^-53]. *)
Definition sample_random (k : nat) : CryptoUtils.double01 :=
  {| CryptoUtils.d_m := ((Z.of_nat k + 1) * 1234567890123457) mod 2 ^ 53;
     CryptoUtils.d_e := 53 |}.

(** A token with a single dot whose second segment is the base64 text of an
    object with a [jti] member, and one with three dots. *)
Definition one_dot_token : jsstring := js "h.eyJqdGkiOiJhYmMifQ".
Definition three_dot_token : jsstring := js "h.eyJqdGkiOiJhYmMifQ.s.x".

End Scenario.

(** ** createCodeChallenge

    [createCodeChallenge] encodes the verifier as UTF-8 ([TextEncoder]),
    hashes it with SHA-256 ([crypto.subtle.digest]), writes the hash in
    base64 ([btoa]) and makes that URL-safe. *)

Module Pkce.

(** *** TextEncoder.encode: UTF-16 code units to UTF-8 bytes

    A surrogate pair is one code point; a lone surrogate is encoded as the
    replacement character U+FFFD. *)

Definition is_high_surrogate (c : N) : bool := ((55296 <=? c) && (c <=? 56319))%N.
Definition is_low_surrogate (c : N) : bool := ((56320 <=? c) && (c <=? 57343))%N.

Definition replacement_utf8 : list N := [239; 191; 189]%N.

Definition utf8_of_supplementary (cp : N) : list N :=
  [240 + cp / 262144; 128 + (cp / 4096) mod 64; 128 + (cp / 64) mod 64; 128 + cp mod 64]%N.

Fixpoint utf8_encode (s : jsstring) : list N :=
  match s with
  | [] => []
  | c :: r =>
      if (c <? 128)%N then c :: utf8_encode r
      else if (c <? 2048)%N then
        (192 + c / 64)%N :: (128 + c mod 64)%N :: utf8_encode r
      else if is_high_surrogate c then
        match r with
        | d :: r' =>
            if is_low_surrogate d then
              (utf8_of_supplementary (65536 + (c - 55296) * 1024 + (d - 56320))
               ++ utf8_encode r')%list
            else (replacement_utf8 ++ utf8_encode r)%list
        | [] => replacement_utf8
        end
      else if is_low_surrogate c then (replacement_utf8 ++ utf8_encode r)%list
      else
        (224 + c / 4096)%N :: (128 + (c / 64) mod 64)%N :: (128 + c mod 64)%N
        :: utf8_encode r
  end.

(** *** SHA-256 (FIPS 180-4), on 32-bit words kept in [N] *)

Definition mask32 : N := 4294967295.

Definition add32 (a b : N) : N := ((a + b) mod 4294967296)%N.

Definition rotr (n x : N) : N :=
  N.lor (N.shiftr x n) (N.land (N.shiftl x (32 - n)) mask32).

Definition not32 (x : N) : N := N.lxor x mask32.

Definition Ch (x y z : N) : N := N.lxor (N.land x y) (N.land (not32 x) z).

Definition Maj (x y z : N) : N :=
  N.lxor (N.lxor (N.land x y) (N.land x z)) (N.land y z).

Definition bsig0 (x : N) : N := N.lxor (N.lxor (rotr 2 x) (rotr 13 x)) (rotr 22 x).
Definition bsig1 (x : N) : N := N.lxor (N.lxor (rotr 6 x) (rotr 11 x)) (rotr 25 x).
Definition ssig0 (x : N) : N := N.lxor (N.lxor (rotr 7 x) (rotr 18 x)) (N.shiftr x 3).
Definition ssig1 (x : N) : N := N.lxor (N.lxor (rotr 17 x) (rotr 19 x)) (N.shiftr x 10).

(** The constants: the first 32 bits of the fractional parts of the cube
    roots of the first 64 primes, and (for the initial hash value) of the
    square roots of the first 8. *)
Definition is_prime (n : nat) : bool :=
  forallb (fun d => negb (Nat.eqb (n mod d) 0)) (seq 2 (n - 2)).

Definition primes (count : nat) : list N :=
  map N.of_nat (firstn count (List.filter is_prime (seq 2 310))).

(** The integer cube root, bit by bit from the top. *)
Fixpoint cube_root_bits (k : nat) (n r : N) : N :=
  match k with
  | O => r
  | S k' =>
      let r' := N.lor r (N.shiftl 1 (N.of_nat k')) in
      cube_root_bits k' n (if (r' * r' * r' <=? n)%N then r' else r)
  end.

Definition cube_root_fraction (p : N) : N :=
  (cube_root_bits 40 (p * 2 ^ 96) 0 mod 2 ^ 32)%N.

Definition square_root_fraction (p : N) : N :=
  (N.sqrt (p * 2 ^ 64) mod 2 ^ 32)%N.

Definition K256 : list N :=
  Eval vm_compute in map cube_root_fraction (primes 64).

Record hash_state := {
  ha : N; hb : N; hc : N; hd : N; he : N; hf : N; hg : N; hh : N
}.

Definition H256 : hash_state :=
  Eval vm_compute in
    let h := fun i => nth i (map square_root_fraction (primes 8)) 0%N in
    {| ha := h 0%nat; hb := h 1%nat; hc := h 2%nat; hd := h 3%nat;
       he := h 4%nat; hf := h 5%nat; hg := h 6%nat; hh := h 7%nat |}.

(** Big-endian words of a block. *)
Fixpoint words_of_bytes (bs : list N) : list N :=
  match bs with
  | a :: b :: c :: d :: r => (((a * 256 + b) * 256 + c) * 256 + d)%N :: words_of_bytes r
  | _ => []
  end.

(** The message schedule, latest word first. *)
Fixpoint schedule (n : nat) (recent : list N) : list N :=
  match n with
  | O => recent
  | S n' =>
      let w := add32 (add32 (ssig1 (nth 1 recent 0%N)) (nth 6 recent 0%N))
                     (add32 (ssig0 (nth 14 recent 0%N)) (nth 15 recent 0%N)) in
      schedule n' (w :: recent)
  end.

Definition round (st : hash_state) (kw : N * N) : hash_state :=
  let t1 := add32 (add32 (add32 (hh st) (bsig1 (he st))) (Ch (he st) (hf st) (hg st)))
                  (add32 (fst kw) (snd kw)) in
  let t2 := add32 (bsig0 (ha st)) (Maj (ha st) (hb st) (hc st)) in
  {| ha := add32 t1 t2; hb := ha st; hc := hb st; hd := hc st;
     he := add32 (hd st) t1; hf := he st; hg := hf st; hh := hg st |}.

Definition compress (st : hash_state) (block : list N) : hash_state :=
  let w := rev (schedule 48 (rev (words_of_bytes block))) in
  let st' := fold_left round (combine K256 w) st in
  {| ha := add32 (ha st) (ha st'); hb := add32 (hb st) (hb st');
     hc := add32 (hc st) (hc st'); hd := add32 (hd st) (hd st');
     he := add32 (he st) (he st'); hf := add32 (hf st) (hf st');
     hg := add32 (hg st) (hg st'); hh := add32 (hh st) (hh st') |}.

Definition be_bytes (n : nat) (x : N) : list N :=
  map (fun i => (N.shiftr x (8 * N.of_nat i) mod 256)%N) (rev (seq 0 n)).

(** The message, a 1 bit, zeros up to 56 modulo 64, and the bit length. *)
Definition pad (msg : list N) : list N :=
  let len := List.length msg in
  (msg ++ [128%N] ++ repeat 0%N ((119 - len mod 64) mod 64)
       ++ be_bytes 8 (8 * N.of_nat len))%list.

Fixpoint blocks (n : nat) (l : list N) : list (list N) :=
  match n with
  | O => []
  | S n' =>
      match l with
      | [] => []
      | _ :: _ => firstn 64 l :: blocks n' (skipn 64 l)
      end
  end.

Definition digest_bytes (st : hash_state) : list N :=
  (be_bytes 4 (ha st) ++ be_bytes 4 (hb st) ++ be_bytes 4 (hc st) ++ be_bytes 4 (hd st)
   ++ be_bytes 4 (he st) ++ be_bytes 4 (hf st) ++ be_bytes 4 (hg st) ++ be_bytes 4 (hh st))%list.

Definition sha256 (msg : list N) : list N :=
  let padded := pad msg in
  digest_bytes (fold_left compress (blocks (List.length padded) padded) H256).

(** *** btoa *)

Definition b64_char (v : N) : N :=
  if (v <? 26)%N then (65 + v)%N
  else if (v <? 52)%N then (71 + v)%N
  else if (v <? 62)%N then (v - 4)%N
  else if (v =? 62)%N then 43%N
  else 47%N.

Fixpoint b64_sextets (bs : list N) : list N :=
  match bs with
  | a :: b :: c :: r =>
      (a / 4)%N :: ((a mod 4) * 16 + b / 16)%N :: ((b mod 16) * 4 + c / 64)%N
      :: (c mod 64)%N :: b64_sextets r
  | [a; b] => [(a / 4)%N; ((a mod 4) * 16 + b / 16)%N; ((b mod 16) * 4)%N]
  | [a] => [(a / 4)%N; ((a mod 4) * 16)%N]
  | [] => []
  end.

Definition b64_padding (n : nat) : nat :=
  match (n mod 3)%nat with
  | 1%nat => 2%nat
  | 2%nat => 1%nat
  | _ => 0%nat
  end.

(** [None] is the [InvalidCharacterError] exception: a code unit above 255. *)
Definition btoa (s : jsstring) : option jsstring :=
  if forallb (fun c => (c <? 256)%N) s then
    Some (map b64_char (b64_sextets s) ++ repeat 61%N (b64_padding (List.length s)))%list
  else None.

(** *** the three [replace] calls *)

(** [.replace(/x/g, y)] for single characters. *)
Definition replace_all (x y : N) (s : jsstring) : jsstring :=
  map (fun c => if (c =? x)%N then y else c) s.

Fixpoint drop_equals (l : jsstring) : jsstring :=
  match l with
  | 61%N :: r => drop_equals r
  | _ => l
  end.

(** [.replace(/=+$/, "")] *)
Definition strip_trailing_equals (s : jsstring) : jsstring :=
  rev (drop_equals (rev s)).

(** [subtle] tells whether [window.crypto.subtle] is there (it is not
    outside a secure context, and [.digest] then throws a [TypeError]).
    [String.fromCharCode(...bytes)] is the string of the bytes. *)
Definition createCodeChallenge (subtle : bool) (codeVerifier : jsstring) : result jsstring :=
  let data := utf8_encode codeVerifier in
  if negb subtle then Throw TypeError
  else
    let hash := sha256 data in
    match btoa hash with
    | None => Throw InvalidCharacterError
    | Some b64 =>
        Ok (strip_trailing_equals (replace_all 47 95 (replace_all 43 45 b64)))
    end.

(** The alphabet of base64url: letters, digits, [-] and [_]. *)
Definition is_base64url (c : N) : bool :=
  (((65 <=? c) && (c <=? 90)) || ((97 <=? c) && (c <=? 122))
   || ((48 <=? c) && (c <=? 57)) || (c =? 45) || (c =? 95))%N.

(** A byte, and a character other than the equals sign. *)
Definition byte (c : N) : Prop := (c < 256)%N.

Definition not_equals_sign (c : N) : Prop := c <> 61%N.

(** The character that a sextet ends as in the challenge. *)
Definition url_char (v : N) : N :=
  (fun c => if (c =? 47)%N then 95%N else c)
    ((fun c => if (c =? 43)%N then 45%N else c) (b64_char v)).

(** The way back from base64url to base64. *)
Definition from_base64url (s : jsstring) : jsstring :=
  replace_all 95 47 (replace_all 45 43 s).

End Pkce.

(** ** login *)

Module Login.
Import UseAuth.

(** A URL as [new URL(...)] holds it: everything before the query, and the
    query parameters in order.  [searchParams.append] adds at the end. *)
Record Url := {
  url_base : jsstring;
  url_params : list (jsstring * jsstring)
}.

Definition searchParams_append (k v : jsstring) (u : Url) : Url :=
  {| url_base := url_base u; url_params := (url_params u ++ [(k, v)])%list |}.

(** What [login] reads from the browser: the values of [Math.random()],
    [window.location.href], [document.title], and whether
    [window.crypto.subtle] is there. *)
Record Browser := {
  random : nat -> CryptoUtils.double01;
  href : jsstring;
  title : jsstring;
  subtle : bool
}.

(** [document.title || "Solar Client App"] *)
Definition appName (b : Browser) : jsstring :=
  if str_truthy (title b) then title b else js "Solar Client App".

(** The body of the [try] block.  [loginRedirectUrl] is what
    [new URL(loginRedirectUrl)] gives, [None] when it throws (the string is
    not an absolute URL).  The result is the URL that
    [window.location.href] is set to. *)
Definition login_try (b : Browser) (clientId : jsstring) (loginRedirectUrl : option Url)
  : M Url :=
  let codeVerifier := CryptoUtils.generateRandomString (random b) 43 in
  codeChallenge <- lift (Pkce.createCodeChallenge (subtle b) codeVerifier) ;;
  storage_set STORAGE_KEYS_CODE_VERIFIER codeVerifier ;;
  match loginRedirectUrl with
  | None => throw TypeError
  | Some authUrl =>
      ret (searchParams_append (js "appName") (appName b)
            (searchParams_append (js "redirect_uri") (href b)
              (searchParams_append (js "code_challenge_method") (js "S256")
                (searchParams_append (js "code_challenge") codeChallenge
                  (searchParams_append (js "client_id") clientId authUrl)))))
  end.

(** [None]: no navigation. *)
Definition login (b : Browser) (clientId : jsstring) (loginRedirectUrl : option Url)
  : M (option Url) :=
  try_catch (target <- login_try b clientId loginRedirectUrl ;; ret (Some target))
            (fun _ => ret None).

(** The page that the browser loads when it comes back from the identity
    provider, at [loc] and with [entries] entries in its history: the
    module is loaded afresh, [localStorage] is what it was. *)
Definition reloaded (loc : Location) (entries : nat) (w : World) : World :=
  {| memoryTokens := initial_memoryTokens;
     localStorage := localStorage w;
     view := initial_view;
     isInitializing := false;
     location := loc;
     history_length := entries;
     requests := [] |}.

(** A browser on a page without title, and the default redirect URL. *)
Definition sample_browser : Browser :=
  {| random := Scenario.sample_random;
     href := js "https://app.example/";
     title := [];
     subtle := true |}.

Definition sample_redirect : Url :=
  {| url_base := js "http://localhost:4000/external-login"; url_params := [] |}.

Definition sample_return : Location :=
  {| pathname := js "/"; search := [(js "code", js "abc123")]; fragment := [] |}.

End Login.

(** ** AuthProvider *)

#[global] Instance jstoken_eq_dec : EqDecision jstoken.
Proof. solve_decision. Defined.

Module AuthProvider.

(** What [useAuth] returns to the provider (the two callbacks apart). *)
Record AuthState := {
  as_isLoggedIn : bool;
  as_userDetails : option UserDetails;
  as_authLoading : bool;
  as_token : jstoken
}.

Definition useAuth_returns (w : World) : AuthState :=
  {| as_isLoggedIn := isLoggedIn (view w);
     as_userDetails := userDetails (view w);
     as_authLoading := authLoading (view w);
     as_token := accessToken (memoryTokens w) |}.

Record AuthContextType := {
  ctx_isLoggedIn : bool;
  ctx_userDetails : option UserDetails;
  ctx_authLoading : bool;
  ctx_token : jstoken;
  ctx_clientReady : bool
}.

Inductive Rendered :=
| Nothing        (* null *)
| Spinner        (* "Authenticating..." *)
| Children.

Definition SignedIn (c : AuthContextType) : Rendered :=
  if negb (ctx_clientReady c) || negb (ctx_isLoggedIn c) || negb (tok_truthy (ctx_token c))
  then Nothing
  else Children.

Definition SignedOut (c : AuthContextType) : Rendered :=
  if negb (ctx_clientReady c) then Spinner
  else if ctx_isLoggedIn c then Nothing
  else Children.

(** [!authLoading && (isLoggedIn ? !!token : true)] *)
Definition clientReady (a : AuthState) : bool :=
  negb (as_authLoading a) && (if as_isLoggedIn a then tok_truthy (as_token a) else true).

(** The provider's own state: the [authToken] cell, and the dependencies
    [isLoggedIn, token] that its effect last ran with ([None] before the
    first commit; the [client] is the same throughout). *)
Record ProviderState := {
  authToken : jstoken;
  last_deps : option (bool * jstoken)
}.

Definition mounted : ProviderState :=
  {| authToken := TokNull; last_deps := None |}.

(** The value handed to the context by a render. *)
Definition context_value (s : ProviderState) (a : AuthState) : AuthContextType :=
  {| ctx_isLoggedIn := as_isLoggedIn a;
     ctx_userDetails := as_userDetails a;
     ctx_authLoading := as_authLoading a;
     ctx_token := authToken s;
     ctx_clientReady := clientReady a |}.

(** After a render with the hook values [a], the effect runs when a
    dependency has changed, and then [setAuthToken(token)] if
    [isLoggedIn && token]. *)
Definition commit (a : AuthState) (s : ProviderState) : ProviderState :=
  let deps := (as_isLoggedIn a, as_token a) in
  if bool_decide (last_deps s = Some deps) then s
  else
    {| authToken := if as_isLoggedIn a && tok_truthy (as_token a) then as_token a
                    else authToken s;
       last_deps := Some deps |}.

(** The provider after a sequence of renders. *)
Definition commits (renders : list AuthState) (s : ProviderState) : ProviderState :=
  fold_left (fun s a => commit a s) renders s.

(** The [authToken] cell follows the token of the render that the effect
    last ran for, when that render was signed in. *)
Definition synced (s : ProviderState) : Prop :=
  forall token,
    last_deps s = Some (true, token) -> tok_truthy token = true -> authToken s = token.

(** What the hook returns when signed in with [tok1], and after [logout]. *)
Definition signed_in_render : AuthState :=
  {| as_isLoggedIn := true; as_userDetails := Some Scenario.user_ab;
     as_authLoading := false; as_token := TokStr (js "tok1") |}.

Definition signed_out_render : AuthState :=
  {| as_isLoggedIn := false; as_userDetails := None;
     as_authLoading := false; as_token := TokNull |}.

End AuthProvider.
(** ** Invariants of the hook *)

(** [c] keeps [Inv]: when it starts in a state with [Inv] and settles,
    fulfilled or rejected, the state it leaves has [Inv]. *)
Definition preserves {A} (Inv : World -> Prop) (c : M A) : Prop :=
  forall w r w', Inv w -> c w = Some (r, w') -> Inv w'.

(** The hook reports [isLoggedIn] exactly when it holds user details, and
    these are the details of an active user. *)
Definition consistent (w : World) : Prop :=
  match userDetails (view w) with
  | Some u => isLoggedIn (view w) = true /\ active u = true
  | None => isLoggedIn (view w) = false
  end.

(** The operations that write [localStorage]. *)
Definition storage_op (op : Op) : bool :=
  match op with
  | OpStorageSet _ _ | OpStorageRemove _ => true
  | _ => false
  end.

Definition mount_op (op : Op) : bool :=
  match op with
  | OpMount _ => true
  | _ => false
  end.

(** The world after [window.history.replaceState] to the bare path. *)
Definition replaced (w : World) : World :=
  with_location {| pathname := pathname (location w); search := []; fragment := [] |} w.

(** The token endpoint never renews a session: whatever it answers to a
    refresh, [api.exchangeToken] throws or returns [auth_required]. *)
Definition refresh_refused (env : Env) (clientId : jsstring) : Prop :=
  forall w tokens w1,
    UseAuth.exchangeToken env (refresh_params clientId) w = Some (Ok tokens, w1) ->
    status tokens = Some (js "auth_required").

(** The promise of [c], started in [w], settles. *)
Definition settles {A} (c : M A) (w : World) : Prop :=
  exists r w', c w = Some (r, w').

(** A stored token that [initialize] takes as valid. *)
Definition holds_valid_token (env : Env) (w : World) : bool :=
  tok_truthy (accessToken (memoryTokens w))
  && UseAuth.expiry_in_future env (expiry (memoryTokens w)) w.

(** The [code] that [initialize] finds in the URL. *)
Definition url_code (w : World) : option jsstring :=
  match UseAuth.searchParams_get (js "code") (search (location w)) with
  | Some (c :: code) => Some (c :: code)
  | _ => None
  end.

(** At most [k] requests were sent between [w] and [w']. *)
Definition sends_at_most (k : nat) (w w' : World) : Prop :=
  (List.length (requests w') <= List.length (requests w) + k)%nat.

(** ** More sample values *)

(** The JSON text of an object whose only member is [jti], the string [abc]. *)
Definition jti_payload : jsstring :=
  [123; 34; 106; 116; 105; 34; 58; 34; 97; 98; 99; 34; 125]%N.

(** * Properties *)

(** ** generateRandomString *)

Module CryptoUtilsFacts.
Import CryptoUtils.

Local Open Scope Z_scope.

Lemma round53_nonneg x : 0 <= x -> 0 <= round53 x.
Proof.
  intros Hx. unfold round53.
  destruct (x <? 2 ^ 53) eqn:E; [lia|].
  apply Z.ltb_ge in E.
  assert (Hl : 53 <= Z.log2 x) by (apply Z.log2_le_pow2; lia).
  rewrite Z.shiftl_mul_pow2 by lia.
  rewrite Z.shiftr_div_pow2 by lia.
  assert (0 < 2 ^ (Z.log2 x - 52)) by (apply Z.pow_pos_nonneg; lia).
  assert (0 <= x / 2 ^ (Z.log2 x - 52)) by (apply Z.div_pos; lia).
  destruct (_ || _); nia.
Qed.

(** Rounding a numerator below [2^59] moves it up by at most 32. *)
Lemma round53_upper x : 0 <= x < 2 ^ 59 -> round53 x <= x + 32.
Proof.
  intros [Hx Hlt]. unfold round53.
  destruct (x <? 2 ^ 53) eqn:E; [lia|].
  apply Z.ltb_ge in E.
  assert (Hl : 53 <= Z.log2 x) by (apply Z.log2_le_pow2; lia).
  assert (Hu : Z.log2 x < 59) by (apply Z.log2_lt_pow2; lia).
  rewrite Z.shiftl_mul_pow2 by lia.
  rewrite Z.shiftr_div_pow2 by lia.
  remember (Z.log2 x - 52) as s eqn:Es.
  assert (Hs : s = 1 \/ s = 2 \/ s = 3 \/ s = 4 \/ s = 5 \/ s = 6) by lia.
  clear Es Hl Hu.
  destruct Hs as [-> | [-> | [-> | [-> | [-> | ->]]]]];
    cbn [Z.sub Z.add Z.opp Z.pos_sub Pos.pred_double];
    change (2 ^ 1) with 2 in *; change (2 ^ 2) with 4 in *;
    change (2 ^ 3) with 8 in *; change (2 ^ 4) with 16 in *;
    change (2 ^ 5) with 32 in *; change (2 ^ 6) with 64 in *;
    change (2 ^ 0) with 1 in *.
  all: match goal with
    | |- context [if ?b then _ else _] => destruct b eqn:Hb
    end.
  all: try (apply orb_true_iff in Hb as [Hb | Hb];
         [apply Z.ltb_lt in Hb
         | apply andb_true_iff in Hb as [Hb _]; apply Z.eqb_eq in Hb]).
  all: clear Hlt E.
  all: change (2 ^ (1 - 1)) with 1 in *; change (2 ^ (2 - 1)) with 2 in *;
       change (2 ^ (3 - 1)) with 4 in *; change (2 ^ (4 - 1)) with 8 in *;
       change (2 ^ (5 - 1)) with 16 in *; change (2 ^ (6 - 1)) with 32 in *.
  all: Z.to_euclidean_division_equations; lia.
Qed.

Lemma floor_mul_36_range d :
  valid_double01 d -> 0 <= floor_mul d 36 < 36.
Proof.
  intros [[Hm0 Hm] [He _]]. unfold floor_mul.
  assert (Hp : 2 ^ 53 <= 2 ^ d_e d) by (apply Z.pow_le_mono_r; lia).
  assert (H59 : 36 * 2 ^ 53 < 2 ^ 59) by (vm_compute; reflexivity).
  assert (Hr := round53_upper (36 * d_m d) ltac:(lia)).
  assert (Hn := round53_nonneg (36 * d_m d) ltac:(lia)).
  split.
  - apply Z.div_pos; lia.
  - apply Z.div_lt_upper_bound; lia.
Qed.

Lemma is_lowercase_or_digit_spec c :
  is_lowercase_or_digit c = true -> lowercase_or_digit c.
Proof.
  unfold is_lowercase_or_digit, lowercase_or_digit.
  rewrite orb_true_iff, !andb_true_iff, !N.leb_le. tauto.
Qed.

Lemma charset_length : List.length charset = 36%nat.
Proof. reflexivity. Qed.

Lemma charset_symbols : Forall lowercase_or_digit charset.
Proof.
  apply Forall_forall. intros c Hc.
  apply is_lowercase_or_digit_spec.
  assert (H : forallb is_lowercase_or_digit charset = true) by reflexivity.
  rewrite forallb_forall in H. apply H, list_elem_of_In, Hc.
Qed.

Lemma charAt_charset i :
  0 <= i < 36 ->
  exists c, charAt charset i = [c] /\ c ∈ charset /\ lowercase_or_digit c.
Proof.
  intros Hi. unfold charAt.
  destruct (i <? 0) eqn:E; [lia|].
  destruct (charset !! Z.to_nat i) as [c|] eqn:L.
  - exists c. split; [reflexivity|]. split.
    + eapply list_elem_of_lookup_2, L.
    + eapply Forall_lookup_1; [apply charset_symbols | exact L].
  - apply lookup_ge_None in L. rewrite charset_length in L. lia.
Qed.

Lemma generateRandomString_from random (start n : nat) :
  (forall k, valid_double01 (random k)) ->
  let out := concat (map (fun k => charAt charset
                        (floor_mul (random k) (Z.of_nat (List.length charset))))
                      (seq start n)) in
  List.length out = n /\ Forall (fun c => c ∈ charset /\ lowercase_or_digit c) out.
Proof.
  intros Hv. rewrite charset_length. change (Z.of_nat 36) with 36.
  revert start. induction n as [|n IH]; intros start.
  - split; constructor.
  - destruct (IH (S start)) as [Hl Hf].
    destruct (charAt_charset (floor_mul (random start) 36)) as (c & Hc & Hin & Hlow).
    { apply floor_mul_36_range, Hv. }
    rewrite <- cons_seq, map_cons, concat_cons, Hc.
    split.
    + rewrite length_app, Hl. reflexivity.
    + apply Forall_app. split; [|exact Hf].
      apply Forall_cons. split; [split; assumption | apply Forall_nil_2].
Qed.

Lemma sample_random_valid k : valid_double01 (Scenario.sample_random k).
Proof.
  unfold valid_double01, Scenario.sample_random. cbn [d_m d_e].
  split; [apply Z.mod_pos_bound; reflexivity | lia].
Qed.

(** C9.  For every length [n] and every sequence of values of
    [Math.random()] (doubles in [0, 1)), [generateRandomString n] has exactly
    [n] characters, each one a symbol of the 36-symbol charset, that is, a
    lowercase letter or a digit. *)
Theorem generateRandomString_length_and_alphabet (random : nat -> double01) (n : nat) :
  (forall k, valid_double01 (random k)) ->
  List.length (generateRandomString random n) = n
  /\ Forall (fun c => c ∈ charset /\ lowercase_or_digit c) (generateRandomString random n).
Proof.
  intros Hv. exact (generateRandomString_from random 0 n Hv).
Qed.

Lemma generateRandomString_witness :
  List.length (generateRandomString Scenario.sample_random 43) = 43%nat
  /\ Forall (fun c => c ∈ charset /\ lowercase_or_digit c)
            (generateRandomString Scenario.sample_random 43).
Proof.
  apply (generateRandomString_length_and_alphabet Scenario.sample_random 43).
  exact sample_random_valid.
Defined.

End CryptoUtilsFacts.

(** ** extractJwtId *)

Module ExtractJwtIdFacts.
Import CryptoUtils.

Lemma extractJwtId_returns token : exists r, extractJwtId token = Ok r.
Proof.
  unfold extractJwtId. destruct (extractJwtId_try token) as [r | e]; eauto.
Qed.

Lemma split_length sep s : List.length (split sep s) = S (List.length (List.filter (N.eqb sep) s)).
Proof.
  induction s as [|c r IH]; [reflexivity|].
  cbn [split List.filter]. rewrite (N.eqb_sym sep c).
  destruct (c =? sep)%N.
  - cbn [List.length]. rewrite IH. reflexivity.
  - destruct (split sep r) as [|h t] eqn:E; [discriminate IH|].
    cbn [List.length] in *. exact IH.
Qed.

Lemma no_dot_no_second_segment s : count_dots s = 0%nat -> split dot s !! 1%nat = None.
Proof.
  intros H. apply lookup_ge_None. rewrite split_length. unfold count_dots in H. lia.
Qed.

Lemma extractJwtId_no_dot s : count_dots s = 0%nat -> extractJwtId (TokStr s) = Ok None.
Proof.
  intros H. unfold extractJwtId, extractJwtId_try.
  rewrite (no_dot_no_second_segment s H). reflexivity.
Qed.

(** Only the second segment is looked at. *)
Lemma extractJwtId_second_segment s s' :
  split dot s !! 1%nat = split dot s' !! 1%nat ->
  extractJwtId (TokStr s) = extractJwtId (TokStr s').
Proof.
  intros H. unfold extractJwtId, extractJwtId_try. rewrite H. reflexivity.
Qed.

Lemma extractJwtId_undecodable s payloadBase64 :
  split dot s !! 1%nat = Some payloadBase64 ->
  payloadBase64 = []
  \/ atob payloadBase64 = None
  \/ (exists text, atob payloadBase64 = Some text /\ JSON_parse text = None) ->
  extractJwtId (TokStr s) = Ok None.
Proof.
  intros Hseg H. unfold extractJwtId, extractJwtId_try. rewrite Hseg.
  destruct H as [-> | [Ha | (text & Ha & Hp)]].
  - reflexivity.
  - rewrite Ha. destruct (negb _); reflexivity.
  - rewrite Ha, Hp. destruct (negb _); reflexivity.
Qed.

(** Exactly when the result is not [null]. *)
Lemma extractJwtId_some s jti :
  extractJwtId (TokStr s) = Ok (Some jti) <->
  exists payloadBase64 text members,
    split dot s !! 1%nat = Some payloadBase64
    /\ atob payloadBase64 = Some text
    /\ JSON_parse text = Some (JObj members)
    /\ lookup_member (js "jti") members = Some jti
    /\ truthy jti = true.
Proof.
  unfold extractJwtId, extractJwtId_try. split.
  - destruct (split dot s !! 1%nat) as [p |] eqn:Hs; [|discriminate].
    destruct (negb (str_truthy p)); [discriminate|].
    destruct (atob p) as [text |] eqn:Ha; [|discriminate].
    destruct (JSON_parse text) as [[| b | neg m e | str | l | members] |] eqn:Hp;
      try discriminate.
    destruct (lookup_member (js "jti") members) as [j |] eqn:Hl; [|discriminate].
    destruct (truthy j) eqn:T; [|discriminate].
    intros H. inversion H; subst. exists p, text, members. repeat split; assumption.
  - intros (p & text & members & Hs & Ha & Hp & Hl & Ht). rewrite Hs.
    destruct p as [| c p].
    + cbv in Ha. inversion Ha; subst. discriminate Hp.
    + cbn [str_truthy negb]. rewrite Ha, Hp, Hl, Ht. reflexivity.
Qed.

(** C8, as the code has it.  [extractJwtId] never throws.  It returns [null]
    when the token has no dot, and when its second dot-separated segment is
    empty or does not decode (base64, then JSON) to well-formed JSON.  The
    number of dots is not otherwise looked at: the result is a [jti] exactly
    when the second segment decodes to an object whose [jti] member is
    truthy.  ["not.a.jwt.token"] and ["plainstring"] both give [null]. *)
Theorem extractJwtId_null_cases (s : jsstring) :
  (exists r, extractJwtId (TokStr s) = Ok r)
  /\ (count_dots s = 0%nat -> extractJwtId (TokStr s) = Ok None)
  /\ (forall payloadBase64,
        split dot s !! 1%nat = Some payloadBase64 ->
        payloadBase64 = []
        \/ atob payloadBase64 = None
        \/ (exists text, atob payloadBase64 = Some text /\ JSON_parse text = None) ->
        extractJwtId (TokStr s) = Ok None)
  /\ (forall jti,
        extractJwtId (TokStr s) = Ok (Some jti) <->
        exists payloadBase64 text members,
          split dot s !! 1%nat = Some payloadBase64
          /\ atob payloadBase64 = Some text
          /\ JSON_parse text = Some (JObj members)
          /\ lookup_member (js "jti") members = Some jti
          /\ truthy jti = true)
  /\ extractJwtId (TokStr (js "not.a.jwt.token")) = Ok None
  /\ extractJwtId (TokStr (js "plainstring")) = Ok None.
Proof.
  split; [apply extractJwtId_returns|].
  split; [apply extractJwtId_no_dot|].
  split; [apply extractJwtId_undecodable|].
  split; [apply extractJwtId_some|].
  split; vm_compute; reflexivity.
Qed.

(** C8 as stated fails: a token with one dot (and one with three) whose
    second segment is the base64 text of an object with a [jti] member gives
    that [jti], not [null]. *)
Lemma extractJwtId_ignores_dot_count :
  count_dots Scenario.one_dot_token = 1%nat
  /\ extractJwtId (TokStr Scenario.one_dot_token) = Ok (Some (JStr (js "abc")))
  /\ count_dots Scenario.three_dot_token = 3%nat
  /\ extractJwtId (TokStr Scenario.three_dot_token) = Ok (Some (JStr (js "abc"))).
Proof. repeat split; vm_compute; reflexivity. Qed.

End ExtractJwtIdFacts.

(** ** The auth state machine *)

Module UseAuthFacts.
Import UseAuth.

(** Throughout, [captured] is the value of [isLoggedIn] that the [auth]
    object closes over: the one of the render that created it. *)

Section Facts.

Variable env : Env.
Variable clientId : jsstring.

(** *** What the handlers do *)

Lemma clear_and_rethrow_run e w :
  clear_and_rethrow e w = Some (Throw e, settle_cleared w).
Proof. reflexivity. Qed.

Lemma settle_unauth_run w :
  (setIsLoggedIn false ;; setUserDetails None) w = Some (Ok tt, settle_unauth w).
Proof. reflexivity. Qed.

Lemma settle_cleared_run w :
  (clearAuth ;; setIsLoggedIn false ;; setUserDetails None) w
  = Some (Ok tt, settle_cleared w).
Proof. reflexivity. Qed.

Lemma settle_unauth_unauthenticated w : unauthenticated (settle_unauth w).
Proof. split; reflexivity. Qed.

Lemma settle_cleared_unauthenticated w :
  unauthenticated (settle_cleared w)
  /\ memoryTokens (settle_cleared w) = initial_memoryTokens.
Proof. repeat split. Qed.

Lemma try_catch_run {A} (c : M A) handler w :
  try_catch c handler w =
  match c w with
  | Some (Ok a, w') => Some (Ok a, w')
  | Some (Throw e, w') => handler e w'
  | None => None
  end.
Proof. reflexivity. Qed.

(** *** Nothing escapes refreshToken *)

Lemma refreshToken_with_run validate w :
  refreshToken_with env clientId validate w =
  match refreshToken_try env clientId validate w with
  | Some (Ok a, w') => Some (Ok a, w')
  | Some (Throw _, w') => Some (Ok tt, settle_cleared w')
  | None => None
  end.
Proof. reflexivity. Qed.

Lemma refreshToken_with_never_throws validate w :
  ~ throws (refreshToken_with env clientId validate) w.
Proof.
  intros (e & w' & H). rewrite refreshToken_with_run in H.
  destruct (refreshToken_try env clientId validate w) as [[[a | e0] w0] |];
    discriminate H.
Qed.

Lemma refreshToken_never_throws fuel captured w :
  ~ throws (refreshToken env clientId fuel captured) w.
Proof.
  destruct fuel as [| fuel].
  - intros (e & w' & H). discriminate H.
  - apply refreshToken_with_never_throws.
Qed.

(** *** validateAndSetUser throws only what its last refreshToken threw *)

Lemma validateAndSetUser_catch_run refresh err w :
  validateAndSetUser_catch refresh err w =
  match refresh w with
  | Some (Throw e, w') => Some (Throw e, settle_cleared w')
  | other => other
  end.
Proof.
  unfold validateAndSetUser_catch. rewrite try_catch_run.
  destruct (refresh w) as [[[[] | e] w'] |]; reflexivity.
Qed.

Lemma validateAndSetUser_with_throw_inv refresh captured tok w e w' :
  validateAndSetUser_with env refresh captured tok w = Some (Throw e, w') ->
  exists w1 w2, refresh w1 = Some (Throw e, w2) /\ w' = settle_cleared w2.
Proof.
  unfold validateAndSetUser_with. rewrite try_catch_run.
  destruct (validateAndSetUser_try env refresh captured tok w) as [[[a | e0] w0] |];
    [discriminate | | discriminate].
  rewrite validateAndSetUser_catch_run.
  destruct (refresh w0) as [[[a | e1] w1] |] eqn:R; intros H; inversion H; subst.
  eauto.
Qed.

Lemma validateAndSetUser_never_throws fuel captured tok w :
  ~ throws (validateAndSetUser env clientId fuel captured tok) w.
Proof.
  intros (e & w' & H). unfold validateAndSetUser in H.
  apply validateAndSetUser_with_throw_inv in H as (w1 & w2 & R & _).
  apply (refreshToken_never_throws fuel captured w1). exists e, w2. exact R.
Qed.

(** *** Nothing escapes initialize *)

Lemma initialize_with_run validate exchange refresh w :
  initialize_with env validate exchange refresh w =
  match initialize_try env validate exchange refresh w with
  | Some (Ok a, w') => Some (Ok a, w')
  | Some (Throw _, w') => Some (Ok tt, settle_unauth w')
  | None => None
  end.
Proof. reflexivity. Qed.

Lemma initialize_with_never_throws validate exchange refresh w :
  ~ throws (initialize_with env validate exchange refresh) w.
Proof.
  intros (e & w' & H). rewrite initialize_with_run in H.
  destruct (initialize_try env validate exchange refresh w) as [[[a | e0] w0] |];
    discriminate H.
Qed.

Lemma initialize_never_throws fuel captured w :
  ~ throws (initialize env clientId fuel captured) w.
Proof. apply initialize_with_never_throws. Qed.

Lemma initialization_effect_run fuel w :
  isInitializing w = false ->
  initialization_effect env clientId fuel w =
  match initialize env clientId fuel (isLoggedIn (view w)) (start_loading w) with
  | Some (r, w') => Some (r, stop_loading w')
  | None => None
  end.
Proof.
  intros H. unfold initialization_effect. rewrite H. reflexivity.
Qed.

Lemma initialization_effect_never_throws fuel w :
  ~ throws (initialization_effect env clientId fuel) w.
Proof.
  intros (e & w' & H).
  destruct (isInitializing w) eqn:L.
  - unfold initialization_effect in H. rewrite L in H. discriminate H.
  - rewrite (initialization_effect_run fuel w L) in H.
    destruct (initialize env clientId fuel (isLoggedIn (view w)) (start_loading w))
      as [[[a | e0] w1] |] eqn:I; try discriminate H.
    apply (initialize_never_throws fuel (isLoggedIn (view w)) (start_loading w)).
    exists e0, w1. exact I.
Qed.

Lemma mount_run fuel w :
  mount env clientId fuel w =
  match initialize env clientId fuel false
          (start_loading (with_isInitializing false (with_view initial_view w))) with
  | Some (r, w') => Some (r, stop_loading w')
  | None => None
  end.
Proof. unfold mount. rewrite initialization_effect_run; reflexivity. Qed.

Lemma mount_never_throws fuel w : ~ throws (mount env clientId fuel) w.
Proof.
  intros (e & w' & H). unfold mount in H.
  eapply initialization_effect_never_throws. exists e, w'. exact H.
Qed.

(** *** The two remote calls *)

Lemma fetch_run req w :
  fetch env req w =
  match respond env (List.length (requests w)) req with
  | Rejected => Some (Throw FetchFailed, sent req w)
  | Resolved r => Some (Ok r, sent req w)
  end.
Proof. unfold fetch. destruct (respond env _ req); reflexivity. Qed.

(** A remote call settles, and leaves exactly one more request behind. *)
Lemma exchangeToken_sent params w :
  exists r, exchangeToken env params w = Some (r, sent (PostToken params) w).
Proof.
  unfold exchangeToken, bind. rewrite fetch_run.
  destruct (respond env _ _) as [| r]; [eauto|].
  destruct (negb (resp_ok r)); [unfold throw; eauto|].
  destruct (resp_json r) as [| | t | u]; unfold throw, ret; eauto.
  destruct (_ && _); eauto.
Qed.

Lemma validateToken_sent key w :
  exists r, validateToken env key w = Some (r, sent (PostIntrospect key) w).
Proof.
  unfold validateToken, bind. rewrite fetch_run.
  destruct (respond env _ _) as [| r]; [eauto|].
  destruct (negb (resp_ok r)); [unfold throw; eauto|].
  destruct (resp_json r) as [| | t | u]; unfold throw, ret; eauto.
Qed.

Lemma exchangeToken_not_ok params w r :
  respond env (List.length (requests w)) (PostToken params) = Resolved r ->
  resp_ok r = false ->
  exchangeToken env params w
  = Some (Throw (HttpError (js "Token operation failed") (resp_status r) (resp_text r)),
          sent (PostToken params) w).
Proof.
  intros Hr Hok. unfold exchangeToken, bind. rewrite fetch_run, Hr, Hok. reflexivity.
Qed.

Lemma exchangeToken_tokens params w r tokens :
  respond env (List.length (requests w)) (PostToken params) = Resolved r ->
  resp_ok r = true ->
  resp_json r = BodyTokens tokens ->
  tok_truthy (access_token tokens) || opt_truthy (status tokens) = true ->
  exchangeToken env params w = Some (Ok tokens, sent (PostToken params) w).
Proof.
  intros Hr Hok Hj Ht. unfold exchangeToken, bind. rewrite fetch_run, Hr, Hok, Hj.
  cbn [negb].
  destruct (tok_truthy (access_token tokens)), (opt_truthy (status tokens));
    try discriminate Ht; reflexivity.
Qed.

Lemma exchangeToken_null params w r :
  respond env (List.length (requests w)) (PostToken params) = Resolved r ->
  resp_ok r = true ->
  resp_json r = BodyNull ->
  exchangeToken env params w = Some (Throw TypeError, sent (PostToken params) w).
Proof.
  intros Hr Hok Hj. unfold exchangeToken, bind. rewrite fetch_run, Hr, Hok, Hj.
  reflexivity.
Qed.

Lemma validateToken_user key w r u :
  respond env (List.length (requests w)) (PostIntrospect key) = Resolved r ->
  resp_ok r = true ->
  resp_json r = BodyUser u ->
  validateToken env key w = Some (Ok (BodyUser u), sent (PostIntrospect key) w).
Proof.
  intros Hr Hok Hj. unfold validateToken, bind. rewrite fetch_run, Hr, Hok, Hj.
  reflexivity.
Qed.

Lemma validateToken_not_ok key w r :
  respond env (List.length (requests w)) (PostIntrospect key) = Resolved r ->
  resp_ok r = false ->
  validateToken env key w
  = Some (Throw (HttpError (js "Token validation failed") (resp_status r) (resp_text r)),
          sent (PostIntrospect key) w).
Proof.
  intros Hr Hok. unfold validateToken, bind. rewrite fetch_run, Hr, Hok. reflexivity.
Qed.

(** *** refreshToken, step by step *)

Lemma refreshToken_try_run validate w :
  refreshToken_try env clientId validate w =
  match exchangeToken env (refresh_params clientId) w with
  | Some (Ok tokens, w1) =>
      if bool_decide (status tokens = Some (js "auth_required")) then
        Some (Ok tt, settle_unauth w1)
      else
        validate (access_token tokens)
          (stored env (access_token tokens)
                  (expires_or_default (expires_in tokens)) w1)
  | Some (Throw e, w1) => Some (Throw e, w1)
  | None => None
  end.
Proof.
  unfold refreshToken_try, bind. fold (refresh_params clientId).
  destruct (exchangeToken env (refresh_params clientId) w) as [[[tokens | e] w1] |];
    try reflexivity.
  destruct (bool_decide _); reflexivity.
Qed.

Lemma refreshToken_auth_required validate w r tokens :
  respond env (List.length (requests w)) (PostToken (refresh_params clientId)) = Resolved r ->
  resp_ok r = true ->
  resp_json r = BodyTokens tokens ->
  status tokens = Some (js "auth_required") ->
  refreshToken_with env clientId validate w
  = Some (Ok tt, settle_unauth (sent (PostToken (refresh_params clientId)) w)).
Proof.
  intros Hr Hok Hj Hs.
  rewrite refreshToken_with_run, refreshToken_try_run.
  rewrite (exchangeToken_tokens _ w r tokens Hr Hok Hj).
  - rewrite bool_decide_eq_true_2 by exact Hs. reflexivity.
  - rewrite Hs. apply orb_true_r.
Qed.

Lemma refreshToken_call_throws validate w e w1 :
  exchangeToken env (refresh_params clientId) w = Some (Throw e, w1) ->
  refreshToken_with env clientId validate w = Some (Ok tt, settle_cleared w1).
Proof.
  intros H. rewrite refreshToken_with_run, refreshToken_try_run, H. reflexivity.
Qed.

Lemma refreshToken_stores_and_validates validate w tokens w1 :
  exchangeToken env (refresh_params clientId) w = Some (Ok tokens, w1) ->
  status tokens <> Some (js "auth_required") ->
  refreshToken_with env clientId validate w =
  match validate (access_token tokens)
          (stored env (access_token tokens)
                  (expires_or_default (expires_in tokens)) w1) with
  | Some (Ok a, w2) => Some (Ok a, w2)
  | Some (Throw _, w2) => Some (Ok tt, settle_cleared w2)
  | None => None
  end.
Proof.
  intros H Hs. rewrite refreshToken_with_run, refreshToken_try_run, H.
  rewrite bool_decide_eq_false_2 by exact Hs. reflexivity.
Qed.

(** *** validateAndSetUser, step by step *)

Lemma validateAndSetUser_try_short_circuit refresh tok w :
  tok_strict_eqb (accessToken (memoryTokens w)) tok = true ->
  validateAndSetUser_try env refresh true tok w = Some (Ok tt, w).
Proof.
  intros H. unfold validateAndSetUser_try, bind, getAccessToken.
  rewrite H. reflexivity.
Qed.

Lemma introspect_run refresh key w :
  introspect env refresh key w =
  match validateToken env key w with
  | Some (Ok data, w1) =>
      match active_user data with
      | Some u => Some (Ok tt, settle_auth u w1)
      | None => refresh w1
      end
  | Some (Throw e, w1) => Some (Throw e, w1)
  | None => None
  end.
Proof.
  unfold introspect, bind.
  destruct (validateToken env key w) as [[[data | e] w1] |]; try reflexivity.
  destruct (active_user data); reflexivity.
Qed.

Lemma validateAndSetUser_try_run refresh captured tok w :
  captured && tok_strict_eqb (accessToken (memoryTokens w)) tok = false ->
  validateAndSetUser_try env refresh captured tok w
  = introspect env refresh (introspection_key tok) w.
Proof.
  intros H. unfold validateAndSetUser_try, bind, getAccessToken, lift, introspection_key.
  rewrite H.
  destruct (ExtractJwtIdFacts.extractJwtId_returns tok) as [r ->].
  destruct r; reflexivity.
Qed.

Lemma validateAndSetUser_with_run refresh captured tok w :
  validateAndSetUser_with env refresh captured tok w =
  match validateAndSetUser_try env refresh captured tok w with
  | Some (Ok a, w1) => Some (Ok a, w1)
  | Some (Throw _, w1) =>
      match refresh w1 with
      | Some (Throw e, w2) => Some (Throw e, settle_cleared w2)
      | other => other
      end
  | None => None
  end.
Proof.
  unfold validateAndSetUser_with. rewrite try_catch_run.
  destruct (validateAndSetUser_try env refresh captured tok w) as [[[a | e] w1] |];
    [reflexivity | apply validateAndSetUser_catch_run | reflexivity].
Qed.

Lemma tok_strict_eqb_refl tok : tok_strict_eqb tok tok = true.
Proof.
  destruct tok; try reflexivity. cbn. unfold jsstring_eqb.
  apply bool_decide_eq_true_2. reflexivity.
Qed.

Lemma validateAndSetUser_with_short_circuit refresh tok w :
  accessToken (memoryTokens w) = tok ->
  validateAndSetUser_with env refresh true tok w = Some (Ok tt, w).
Proof.
  intros H. rewrite validateAndSetUser_with_run.
  rewrite validateAndSetUser_try_short_circuit; [reflexivity|].
  rewrite H. apply tok_strict_eqb_refl.
Qed.

(** *** exchangeCodeForToken, step by step *)

Lemma exchangeCodeForToken_with_missing validate code w :
  localStorage w !! STORAGE_KEYS_CODE_VERIFIER = None ->
  exchangeCodeForToken_with env clientId validate code w
  = Some (Throw (Error (js "Missing code verifier")), w).
Proof.
  intros H. unfold exchangeCodeForToken_with, bind, storage_get. rewrite H. reflexivity.
Qed.

Lemma exchangeCodeForToken_with_run validate code w verifier :
  localStorage w !! STORAGE_KEYS_CODE_VERIFIER = Some verifier ->
  str_truthy verifier = true ->
  exchangeCodeForToken_with env clientId validate code w =
  match exchangeToken env (code_params clientId code verifier) w with
  | Some (Ok tokens, w1) =>
      match validate (access_token tokens)
              (stored env (access_token tokens)
                      (expires_or_default (expires_in tokens)) w1) with
      | Some (Ok a, w2) => Some (Ok a, w2)
      | Some (Throw _, w2) => Some (Ok tt, w2)
      | None => None
      end
  | Some (Throw _, w1) => Some (Ok tt, w1)
  | None => None
  end.
Proof.
  intros H Hv. unfold exchangeCodeForToken_with, storage_get.
  unfold bind at 1. rewrite H, Hv. cbn [negb]. rewrite try_catch_run.
  unfold bind. fold (code_params clientId code verifier).
  destruct (exchangeToken env _ w) as [[[tokens | e] w1] |]; reflexivity.
Qed.

(** *** initialize, branch by branch *)

Lemma initialize_try_valid_token validate exchange refresh w :
  tok_truthy (accessToken (memoryTokens w))
  && expiry_in_future env (expiry (memoryTokens w)) w = true ->
  initialize_try env validate exchange refresh w
  = validate (accessToken (memoryTokens w)) w.
Proof.
  intros H. unfold initialize_try, bind, getAccessToken, getTokenExpiry.
  rewrite H. reflexivity.
Qed.

Lemma initialize_try_code validate exchange refresh w code :
  tok_truthy (accessToken (memoryTokens w))
  && expiry_in_future env (expiry (memoryTokens w)) w = false ->
  searchParams_get (js "code") (search (location w)) = Some code ->
  str_truthy code = true ->
  initialize_try env validate exchange refresh w =
  match exchange code w with
  | Some (Ok _, w1) =>
      Some (Ok tt, with_location
                     {| pathname := pathname (location w1); search := []; fragment := [] |} w1)
  | Some (Throw e, w1) => Some (Throw e, w1)
  | None => None
  end.
Proof.
  intros H Hc Ht. unfold initialize_try, bind, getAccessToken, getTokenExpiry.
  rewrite H, Hc. destruct code as [| c code]; [discriminate Ht|].
  destruct (exchange (c :: code) w) as [[[[] | e] w1] |]; reflexivity.
Qed.

Lemma initialize_try_refresh validate exchange refresh w :
  tok_truthy (accessToken (memoryTokens w))
  && expiry_in_future env (expiry (memoryTokens w)) w = false ->
  searchParams_get (js "code") (search (location w)) = None
  \/ searchParams_get (js "code") (search (location w)) = Some [] ->
  initialize_try env validate exchange refresh w =
  match refresh w with
  | Some (Throw _, w1) => Some (Ok tt, settle_unauth w1)
  | other => other
  end.
Proof.
  intros H Hc. unfold initialize_try, bind, getAccessToken, getTokenExpiry.
  rewrite H.
  destruct Hc as [Hc | Hc]; rewrite Hc; rewrite try_catch_run;
    destruct (refresh w) as [[[[] | e] w1] |]; reflexivity.
Qed.

(** *** The scenarios of initialize *)

Lemma mount_refresh_rejected fuel w r :
  tok_truthy (accessToken (memoryTokens w))
  && expiry_in_future env (expiry (memoryTokens w)) w = false ->
  searchParams_get (js "code") (search (location w)) = None ->
  respond env (List.length (requests w)) (PostToken (refresh_params clientId)) = Resolved r ->
  resp_ok r = false ->
  mount env clientId (S fuel) w
  = Some (Ok tt,
          stop_loading (settle_cleared (sent (PostToken (refresh_params clientId))
            (start_loading (with_isInitializing false (with_view initial_view w)))))).
Proof.
  intros Htok Hcode Hr Hok. rewrite mount_run.
  set (w0 := start_loading _).
  unfold initialize. rewrite initialize_with_run.
  rewrite initialize_try_refresh; [| exact Htok | left; exact Hcode].
  cbn [refreshToken].
  rewrite (refreshToken_call_throws _ w0 _ _ (exchangeToken_not_ok _ w0 r Hr Hok)).
  reflexivity.
Qed.

Lemma mount_code_exchange fuel w r1 tokens r2 user :
  tok_truthy (accessToken (memoryTokens w))
  && expiry_in_future env (expiry (memoryTokens w)) w = false ->
  searchParams_get (js "code") (search (location w)) = Some (js "abc123") ->
  localStorage w !! STORAGE_KEYS_CODE_VERIFIER = Some (js "xyz") ->
  respond env (List.length (requests w))
    (PostToken (code_params clientId (js "abc123") (js "xyz"))) = Resolved r1 ->
  resp_ok r1 = true ->
  resp_json r1 = BodyTokens tokens ->
  access_token tokens = TokStr (js "tok1") ->
  respond env (S (List.length (requests w)))
    (PostIntrospect (KeyToken (TokStr (js "tok1")))) = Resolved r2 ->
  resp_ok r2 = true ->
  resp_json r2 = BodyUser user ->
  active user = true ->
  exists w',
    mount env clientId fuel w = Some (Ok tt, w')
    /\ view w' = {| isLoggedIn := true; userDetails := Some user; authLoading := false |}
    /\ location w' = {| pathname := pathname (location w); search := []; fragment := [] |}
    /\ history_length w' = history_length w
    /\ memoryTokens w' =
         {| accessToken := TokStr (js "tok1");
            expiry := Some (clock env (S (List.length (requests w)))
                            + expires_or_default (expires_in tokens) * 1000)%Z |}
    /\ requests w' =
         (requests w ++ [PostToken (code_params clientId (js "abc123") (js "xyz"));
                         PostIntrospect (KeyToken (TokStr (js "tok1")))])%list.
Proof.
  intros Htok Hcode Hver Hr1 Hok1 Hj1 Hat Hr2 Hok2 Hj2 Hact.
  rewrite mount_run. set (w0 := start_loading _).
  unfold initialize. rewrite initialize_with_run.
  rewrite (initialize_try_code _ _ _ w0 (js "abc123") Htok Hcode eq_refl).
  unfold exchangeCodeForToken.
  rewrite (exchangeCodeForToken_with_run _ _ w0 (js "xyz") Hver eq_refl).
  rewrite (exchangeToken_tokens _ w0 r1 tokens Hr1 Hok1 Hj1)
    by (rewrite Hat; reflexivity).
  rewrite Hat.
  set (w1 := stored env _ _ _).
  unfold validateAndSetUser. rewrite validateAndSetUser_with_run.
  rewrite validateAndSetUser_try_run by reflexivity.
  change (introspection_key (TokStr (js "tok1"))) with (KeyToken (TokStr (js "tok1"))).
  rewrite introspect_run.
  assert (Hlen : List.length (requests w1) = S (List.length (requests w))).
  { subst w1 w0. cbn [stored sent with_memoryTokens with_requests requests
                      start_loading with_view with_isInitializing].
    rewrite length_app. cbn. lia. }
  rewrite (validateToken_user _ w1 r2 user) by (rewrite ?Hlen; assumption).
  cbn [active_user]. rewrite Hact.
  eexists. split; [reflexivity|].
  subst w1 w0. cbn. unfold now. cbn.
  rewrite length_app. cbn. rewrite Nat.add_1_r, <- app_assoc. repeat split.
Qed.

End Facts.

(** *** The claims about the state machine *)

(** C1.  [initialize()] never propagates an exception, and neither does the
    effect that calls it; an exception that reaches its handler settles the
    session as Unauthenticated.  With no valid token in memory, no [code]
    query parameter and a refresh call answered by HTTP 401, the state after
    the effect is [{isLoggedIn:false, userDetails:null, authLoading:false}]. *)
Theorem initialize_settles_unauthenticated (env : Env) (clientId : jsstring) :
  (forall fuel captured w, ~ throws (initialize env clientId fuel captured) w)
  /\ (forall fuel w, ~ throws (mount env clientId fuel) w)
  /\ (forall validate exchange refresh w e w1,
        initialize_try env validate exchange refresh w = Some (Throw e, w1) ->
        initialize_with env validate exchange refresh w = Some (Ok tt, settle_unauth w1)
        /\ unauthenticated (settle_unauth w1))
  /\ (forall fuel w r,
        tok_truthy (accessToken (memoryTokens w))
        && expiry_in_future env (expiry (memoryTokens w)) w = false ->
        searchParams_get (js "code") (search (location w)) = None ->
        respond env (List.length (requests w)) (PostToken (refresh_params clientId))
          = Resolved r ->
        resp_status r = 401%Z ->
        exists w',
          mount env clientId (S fuel) w = Some (Ok tt, w')
          /\ view w' = {| isLoggedIn := false; userDetails := None; authLoading := false |}).
Proof.
  split; [apply initialize_never_throws|].
  split; [apply mount_never_throws|].
  split.
  - intros validate exchange refresh w e w1 H.
    rewrite initialize_with_run, H. split; [reflexivity | apply settle_unauth_unauthenticated].
  - intros fuel w r Htok Hcode Hr Hs.
    eexists. split.
    + apply (mount_refresh_rejected env clientId fuel w r Htok Hcode Hr).
      unfold resp_ok. rewrite Hs. reflexivity.
    + reflexivity.
Qed.

Lemma initialize_settles_unauthenticated_witness :
  (exists w',
     mount Scenario.env_401 Scenario.client 1 Scenario.fresh_page = Some (Ok tt, w')
     /\ view w' = {| isLoggedIn := false; userDetails := None; authLoading := false |})
  /\ initialize Scenario.env_login Scenario.client 0 false Scenario.page_with_code_no_verifier
     = Some (Ok tt, settle_unauth Scenario.page_with_code_no_verifier).
Proof.
  destruct (initialize_settles_unauthenticated Scenario.env_401 Scenario.client)
    as (_ & _ & _ & HA).
  destruct (initialize_settles_unauthenticated Scenario.env_login Scenario.client)
    as (_ & _ & HE & _).
  split.
  - apply (HA 0%nat Scenario.fresh_page
              {| resp_status := 401; resp_text := []; resp_json := BodyInvalid |});
      reflexivity.
  - apply (HE _ _ _ Scenario.page_with_code_no_verifier
              (Error (js "Missing code verifier")) Scenario.page_with_code_no_verifier).
    vm_compute. reflexivity.
Defined.

(** C2.  With no valid token in memory, [?code=abc123] in the URL, the
    verifier [xyz] stored, a token endpoint that answers with access token
    [tok1] and an introspection endpoint that reports it active for the user
    [a@b.com], the hook ends signed in as that user, and the query string is
    gone from the current history entry: no entry is added, and the page (with
    the token in its memory) is still there. *)
Theorem initialize_code_exchange_signs_in (env : Env) (clientId : jsstring)
    (fuel : nat) (w : World) (r1 r2 : Response) (tokens : TokenResponse) :
  tok_truthy (accessToken (memoryTokens w))
  && expiry_in_future env (expiry (memoryTokens w)) w = false ->
  searchParams_get (js "code") (search (location w)) = Some (js "abc123") ->
  localStorage w !! STORAGE_KEYS_CODE_VERIFIER = Some (js "xyz") ->
  respond env (List.length (requests w))
    (PostToken (code_params clientId (js "abc123") (js "xyz"))) = Resolved r1 ->
  resp_ok r1 = true ->
  resp_json r1 = BodyTokens tokens ->
  access_token tokens = TokStr (js "tok1") ->
  expires_in tokens = Some 3600%Z ->
  respond env (S (List.length (requests w)))
    (PostIntrospect (KeyToken (TokStr (js "tok1")))) = Resolved r2 ->
  resp_ok r2 = true ->
  resp_json r2 = BodyUser {| active := true; client_id := js "c1";
                             sub := js "u1"; email := js "a@b.com" |} ->
  exists w',
    mount env clientId fuel w = Some (Ok tt, w')
    /\ isLoggedIn (view w') = true
    /\ email <$> userDetails (view w') = Some (js "a@b.com")
    /\ searchParams_get (js "code") (search (location w')) = None
    /\ pathname (location w') = pathname (location w)
    /\ history_length w' = history_length w
    /\ accessToken (memoryTokens w') = TokStr (js "tok1")
    /\ expiry (memoryTokens w')
       = Some (clock env (S (List.length (requests w))) + 3600 * 1000)%Z.
Proof.
  intros Htok Hcode Hver Hr1 Hok1 Hj1 Hat Hexp Hr2 Hok2 Hj2.
  destruct (mount_code_exchange env clientId fuel w r1 tokens r2 _
              Htok Hcode Hver Hr1 Hok1 Hj1 Hat Hr2 Hok2 Hj2 eq_refl)
    as (w' & Hrun & Hview & Hloc & Hhist & Hmem & _).
  exists w'. rewrite Hview, Hloc, Hmem, Hexp. repeat split; assumption.
Qed.

Lemma initialize_code_exchange_signs_in_witness :
  exists w',
    mount Scenario.env_login Scenario.client 0 Scenario.page_with_code = Some (Ok tt, w')
    /\ isLoggedIn (view w') = true
    /\ email <$> userDetails (view w') = Some (js "a@b.com")
    /\ searchParams_get (js "code") (search (location w')) = None
    /\ pathname (location w') = js "/"
    /\ history_length w' = 1%nat
    /\ accessToken (memoryTokens w') = TokStr (js "tok1")
    /\ expiry (memoryTokens w') = Some 1700003600000%Z.
Proof.
  apply (initialize_code_exchange_signs_in Scenario.env_login Scenario.client 0
           Scenario.page_with_code
           {| resp_status := 200; resp_text := []; resp_json := BodyTokens Scenario.tokens_tok1 |}
           {| resp_status := 200; resp_text := []; resp_json := BodyUser Scenario.user_ab |}
           Scenario.tokens_tok1);
    vm_compute; reflexivity.
Defined.

(** C3.  [refreshToken()], over whatever [validateAndSetUser] does:
    a response with status [auth_required] settles Unauthenticated, without
    an error and without touching the token record; a [null] response body,
    a call that throws, and a [validateAndSetUser] that throws all end in the
    handler, which clears the token record and settles Unauthenticated;
    otherwise the new access token is stored with its expiry and
    [validateAndSetUser] is invoked on it. *)
Theorem refreshToken_cases (env : Env) (clientId : jsstring)
    (validate : jstoken -> M unit) (w : World) :
  let request := PostToken (refresh_params clientId) in
  (forall fuel captured,
      refreshToken env clientId (S fuel) captured
      = refreshToken_with env clientId (validateAndSetUser env clientId fuel captured))
  /\ (forall r tokens,
        respond env (List.length (requests w)) request = Resolved r ->
        resp_ok r = true ->
        resp_json r = BodyTokens tokens ->
        status tokens = Some (js "auth_required") ->
        refreshToken_with env clientId validate w = Some (Ok tt, settle_unauth (sent request w))
        /\ unauthenticated (settle_unauth (sent request w))
        /\ memoryTokens (settle_unauth (sent request w)) = memoryTokens w)
  /\ (forall r,
        respond env (List.length (requests w)) request = Resolved r ->
        resp_ok r = true ->
        resp_json r = BodyNull ->
        refreshToken_with env clientId validate w = Some (Ok tt, settle_cleared (sent request w))
        /\ unauthenticated (settle_cleared (sent request w)))
  /\ (forall e w1,
        exchangeToken env (refresh_params clientId) w = Some (Throw e, w1) ->
        refreshToken_with env clientId validate w = Some (Ok tt, settle_cleared w1)
        /\ unauthenticated (settle_cleared w1)
        /\ memoryTokens (settle_cleared w1) = initial_memoryTokens)
  /\ (forall tokens w1,
        exchangeToken env (refresh_params clientId) w = Some (Ok tokens, w1) ->
        status tokens <> Some (js "auth_required") ->
        let token := access_token tokens in
        let w2 := stored env token (expires_or_default (expires_in tokens)) w1 in
        memoryTokens w2 =
          {| accessToken := token;
             expiry := Some (now env w1 + expires_or_default (expires_in tokens) * 1000)%Z |}
        /\ refreshToken_with env clientId validate w =
           match validate token w2 with
           | Some (Ok a, w3) => Some (Ok a, w3)
           | Some (Throw _, w3) => Some (Ok tt, settle_cleared w3)
           | None => None
           end).
Proof.
  intros request.
  split; [reflexivity|].
  split.
  { intros r tokens Hr Hok Hj Hs. split; [|repeat split].
    apply (refreshToken_auth_required env clientId validate w r tokens Hr Hok Hj Hs). }
  split.
  { intros r Hr Hok Hj. split; [|split; reflexivity].
    apply (refreshToken_call_throws env clientId validate w TypeError).
    apply (exchangeToken_null env _ w r Hr Hok Hj). }
  split.
  { intros e w1 H. split; [|repeat split].
    apply (refreshToken_call_throws env clientId validate w e w1 H). }
  intros tokens w1 H Hs token w2. split; [reflexivity|].
  apply (refreshToken_stores_and_validates env clientId validate w tokens w1 H Hs).
Qed.

Lemma refreshToken_cases_witness :
  refreshToken Scenario.env_auth_required Scenario.client 1 true Scenario.signed_in_page
  = Some (Ok tt, settle_unauth (sent (PostToken (refresh_params Scenario.client))
                                     Scenario.signed_in_page))
  /\ refreshToken Scenario.env_401 Scenario.client 1 true Scenario.signed_in_page
     = Some (Ok tt, settle_cleared (sent (PostToken (refresh_params Scenario.client))
                                         Scenario.signed_in_page)).
Proof.
  split.
  - destruct (refreshToken_cases Scenario.env_auth_required Scenario.client
                (validateAndSetUser Scenario.env_auth_required Scenario.client 0 true)
                Scenario.signed_in_page) as (_ & H & _).
    apply (H {| resp_status := 200; resp_text := [];
                resp_json := BodyTokens Scenario.tokens_auth_required |}
             Scenario.tokens_auth_required); reflexivity.
  - destruct (refreshToken_cases Scenario.env_401 Scenario.client
                (validateAndSetUser Scenario.env_401 Scenario.client 0 true)
                Scenario.signed_in_page) as (_ & _ & _ & H & _).
    eapply H. vm_compute. reflexivity.
Defined.

(** C4.  [validateAndSetUser(accessToken)] past its short-circuit, over
    whatever [refreshToken] does.  If the introspection call throws,
    [refreshToken()] is called; if that call throws too, the token record is
    cleared, the session settles Unauthenticated and the error is rethrown.
    If introspection reports the token inactive, [refreshToken()] is called
    inside the [try] block: should it throw, the handler calls it once more,
    and clears, settles and rethrows if that call throws as well.  So with a
    [refreshToken] that throws whenever it is called, both cases end with the
    record cleared, the session Unauthenticated and the error rethrown. *)
Theorem validateAndSetUser_refresh_fallback (env : Env) (clientId : jsstring)
    (refresh : M unit) (captured : bool) (token : jstoken) (w : World) :
  captured && tok_strict_eqb (accessToken (memoryTokens w)) token = false ->
  let key := introspection_key token in
  (forall fuel,
      validateAndSetUser env clientId fuel captured token
      = validateAndSetUser_with env (refreshToken env clientId fuel captured) captured token)
  /\ (forall e w1,
        validateToken env key w = Some (Throw e, w1) ->
        validateAndSetUser_with env refresh captured token w =
        match refresh w1 with
        | Some (Throw e', w2) => Some (Throw e', settle_cleared w2)
        | other => other
        end)
  /\ (forall data w1,
        validateToken env key w = Some (Ok data, w1) ->
        active_user data = None ->
        validateAndSetUser_with env refresh captured token w =
        match refresh w1 with
        | Some (Throw _, w2) =>
            match refresh w2 with
            | Some (Throw e', w3) => Some (Throw e', settle_cleared w3)
            | other => other
            end
        | other => other
        end)
  /\ (forall r w1,
        validateToken env key w = Some (r, w1) ->
        match r with Throw _ => True | Ok data => active_user data = None end ->
        (forall w', throws refresh w') ->
        exists e w2,
          validateAndSetUser_with env refresh captured token w = Some (Throw e, settle_cleared w2)
          /\ unauthenticated (settle_cleared w2)
          /\ memoryTokens (settle_cleared w2) = initial_memoryTokens).
Proof.
  intros Hsc key.
  split; [reflexivity|].
  split; [|split].
  - intros e w1 H.
    rewrite validateAndSetUser_with_run, validateAndSetUser_try_run by exact Hsc.
    rewrite introspect_run. fold key. rewrite H. reflexivity.
  - intros data w1 H Hact.
    rewrite validateAndSetUser_with_run, validateAndSetUser_try_run by exact Hsc.
    rewrite introspect_run. fold key. rewrite H, Hact.
    destruct (refresh w1) as [[[[] | e1] w2] |]; reflexivity.
  - intros r w1 H Hr Hthrows.
    rewrite validateAndSetUser_with_run, validateAndSetUser_try_run by exact Hsc.
    rewrite introspect_run. fold key. rewrite H.
    destruct (Hthrows w1) as (e1 & w2 & R1).
    destruct r as [data | e0].
    + rewrite Hr, R1. destruct (Hthrows w2) as (e2 & w3 & R2). rewrite R2.
      exists e2, w3. split; [reflexivity | repeat split].
    + rewrite R1. exists e1, w2. split; [reflexivity | repeat split].
Qed.

Lemma validateAndSetUser_refresh_fallback_witness :
  let key := KeyToken (TokStr (js "tok1")) in
  validateAndSetUser_with Scenario.env_401 Scenario.failing_refresh false
    (TokStr (js "tok1")) Scenario.fresh_page
  = Some (Throw (Error (js "refresh failed")),
          settle_cleared (sent (PostIntrospect key) Scenario.fresh_page))
  /\ validateAndSetUser_with Scenario.env_auth_required Scenario.failing_refresh false
       (TokStr (js "tok1")) Scenario.fresh_page
     = Some (Throw (Error (js "refresh failed")),
             settle_cleared (sent (PostIntrospect key) Scenario.fresh_page)).
Proof.
  split.
  - destruct (validateAndSetUser_refresh_fallback Scenario.env_401 Scenario.client
                Scenario.failing_refresh false (TokStr (js "tok1")) Scenario.fresh_page
                eq_refl) as (_ & H & _).
    rewrite (H (HttpError (js "Token validation failed") 401 [])
               (sent (PostIntrospect (KeyToken (TokStr (js "tok1")))) Scenario.fresh_page));
      reflexivity.
  - destruct (validateAndSetUser_refresh_fallback Scenario.env_auth_required Scenario.client
                Scenario.failing_refresh false (TokStr (js "tok1")) Scenario.fresh_page
                eq_refl) as (_ & _ & H & _).
    rewrite (H (BodyUser Scenario.user_inactive)
               (sent (PostIntrospect (KeyToken (TokStr (js "tok1")))) Scenario.fresh_page));
      reflexivity.
Defined.

(** C5.  [exchangeCodeForToken(code)] with no code verifier in
    [localStorage] throws [Error("Missing code verifier")] and leaves the
    world as it was: no request has been sent. *)
Theorem exchangeCodeForToken_missing_verifier (env : Env) (clientId : jsstring)
    (fuel : nat) (captured : bool) (code : jsstring) (w : World) :
  localStorage w !! STORAGE_KEYS_CODE_VERIFIER = None ->
  exists w',
    exchangeCodeForToken env clientId fuel captured code w
    = Some (Throw (Error (js "Missing code verifier")), w')
    /\ requests w' = requests w
    /\ w' = w.
Proof.
  intros H. exists w. split; [|split; reflexivity].
  apply exchangeCodeForToken_with_missing, H.
Qed.

Lemma exchangeCodeForToken_missing_verifier_witness :
  exists w',
    exchangeCodeForToken Scenario.env_login Scenario.client 3 false (js "abc123")
      Scenario.page_with_code_no_verifier
    = Some (Throw (Error (js "Missing code verifier")), w')
    /\ requests w' = []
    /\ w' = Scenario.page_with_code_no_verifier.
Proof.
  apply (exchangeCodeForToken_missing_verifier Scenario.env_login Scenario.client 3 false
           (js "abc123") Scenario.page_with_code_no_verifier).
  reflexivity.
Defined.

(** The guard at work.  When the render that made the [auth] object saw
    [isLoggedIn = true] and the store's token is the argument,
    [validateAndSetUser] returns at once and leaves the world, and so the
    list of requests, as it was.  Hence a call through such an [auth]
    object that follows another one and finds the session authenticated
    with that token sends nothing: the two calls together end in the state
    in which the first one ended. *)
Theorem validateAndSetUser_short_circuit (env : Env) (clientId : jsstring)
    (fuel : nat) (token : jstoken) (w : World) :
  isLoggedIn (view w) = true ->
  accessToken (memoryTokens w) = token ->
  (exists w',
      validateAndSetUser env clientId fuel (isLoggedIn (view w)) token w = Some (Ok tt, w')
      /\ requests w' = requests w
      /\ w' = w)
  /\ (forall fuel0 captured0 w0 r,
        validateAndSetUser env clientId fuel0 captured0 token w0 = Some (r, w) ->
        (validateAndSetUser env clientId fuel0 captured0 token ;;
         validateAndSetUser env clientId fuel (isLoggedIn (view w)) token) w0
        = Some (Ok tt, w)).
Proof.
  intros Hin Htok. rewrite Hin.
  assert (H : validateAndSetUser env clientId fuel true token w = Some (Ok tt, w)).
  { apply validateAndSetUser_with_short_circuit, Htok. }
  split; [exists w; repeat split; exact H|].
  intros fuel0 captured0 w0 r E. unfold bind. rewrite E.
  destruct r as [[] | e]; [exact H|].
  exfalso. apply (validateAndSetUser_never_throws env clientId fuel0 captured0 token w0).
  exists e, w. exact E.
Qed.

Lemma validateAndSetUser_short_circuit_witness :
  (validateAndSetUser Scenario.env_login Scenario.client 0 false (TokStr (js "tok1")) ;;
   validateAndSetUser Scenario.env_login Scenario.client 0 true (TokStr (js "tok1")))
    (with_view initial_view Scenario.signed_in_page)
  = Some (Ok tt,
          settle_auth Scenario.user_ab
            (sent (PostIntrospect (KeyToken (TokStr (js "tok1"))))
                  (with_view initial_view Scenario.signed_in_page))).
Proof.
  refine (proj2 (validateAndSetUser_short_circuit Scenario.env_login Scenario.client 0
           (TokStr (js "tok1"))
           (settle_auth Scenario.user_ab
              (sent (PostIntrospect (KeyToken (TokStr (js "tok1"))))
                    (with_view initial_view Scenario.signed_in_page)))
           eq_refl eq_refl) 0%nat false _ (Ok tt) _).
  vm_compute. reflexivity.
Defined.


(** C10.  [refreshToken()] never throws, whatever the state and whatever the
    endpoints answer.  So the handler [clear_and_rethrow] of
    [validateAndSetUser], which runs exactly when the [refreshToken()] call
    of the [catch] block throws, is never entered, and
    [validateAndSetUser] never throws either: an exception of
    [validateAndSetUser] could only be one rethrown there. *)
Theorem refreshToken_never_throws_to_caller (env : Env) (clientId : jsstring) :
  (forall fuel captured w, ~ throws (refreshToken env clientId fuel captured) w)
  /\ (forall validate w, ~ throws (refreshToken_with env clientId validate) w)
  /\ (forall refresh captured token w e w',
        validateAndSetUser_with env refresh captured token w = Some (Throw e, w') ->
        exists w1, throws refresh w1)
  /\ (forall fuel captured token w,
        ~ throws (validateAndSetUser env clientId fuel captured token) w).
Proof.
  split; [apply refreshToken_never_throws|].
  split; [apply refreshToken_with_never_throws|].
  split; [|apply validateAndSetUser_never_throws].
  intros refresh captured token w e w' H.
  apply validateAndSetUser_with_throw_inv in H as (w1 & w2 & R & _).
  exists w1, e, w2. exact R.
Qed.

End UseAuthFacts.

(** ** The recursion budget *)

Module FuelFacts.
Import UseAuth UseAuthFacts.

Lemma extends_refl {A} (c : M A) : extends c c.
Proof. intros w r E. exact E. Qed.

Lemma extends_bind {A B} (c c' : M A) (k k' : A -> M B) :
  extends c c' -> (forall a, extends (k a) (k' a)) -> extends (bind c k) (bind c' k').
Proof.
  intros Hc Hk w r E. unfold bind in *.
  destruct (c w) as [[[a | e] w1] |] eqn:C; [| | discriminate E];
    rewrite (Hc _ _ C); [apply Hk, E | exact E].
Qed.

Lemma extends_try_catch {A} (c c' : M A) (h h' : exn -> M A) :
  extends c c' -> (forall e, extends (h e) (h' e)) ->
  extends (try_catch c h) (try_catch c' h').
Proof.
  intros Hc Hh w r E. unfold try_catch in *.
  destruct (c w) as [[[a | e] w1] |] eqn:C; [| | discriminate E];
    rewrite (Hc _ _ C); [exact E | apply Hh, E].
Qed.

Lemma extends_finally {A} (c c' : M A) (f : M unit) :
  extends c c' -> extends (finally c f) (finally c' f).
Proof.
  intros Hc w r E. unfold finally in *.
  destruct (c w) as [[r1 w1] |] eqn:C; [| discriminate E].
  rewrite (Hc _ _ C). exact E.
Qed.

Section Budget.

Variable env : Env.
Variable clientId : jsstring.

Lemma validateAndSetUser_with_extends refresh refresh' captured token :
  extends refresh refresh' ->
  extends (validateAndSetUser_with env refresh captured token)
          (validateAndSetUser_with env refresh' captured token).
Proof.
  intros H. unfold validateAndSetUser_with. apply extends_try_catch.
  - unfold validateAndSetUser_try.
    apply extends_bind; [apply extends_refl|]. intros stored.
    destruct (captured && _); [apply extends_refl|].
    apply extends_bind; [apply extends_refl|].
    intros [jti |]; unfold introspect;
      (apply extends_bind; [apply extends_refl|]); intros data;
      (destruct (active_user data); [apply extends_refl | exact H]).
  - intros e. unfold validateAndSetUser_catch.
    apply extends_try_catch; [exact H | intros; apply extends_refl].
Qed.

Lemma refreshToken_with_extends validate validate' :
  (forall token, extends (validate token) (validate' token)) ->
  extends (refreshToken_with env clientId validate)
          (refreshToken_with env clientId validate').
Proof.
  intros H. unfold refreshToken_with.
  apply extends_try_catch; [|intros; apply extends_refl].
  unfold refreshToken_try.
  apply extends_bind; [apply extends_refl|]. intros tokens.
  destruct (bool_decide _); [apply extends_refl|].
  apply extends_bind; [apply extends_refl | intros; apply H].
Qed.

(** A larger budget does not change a run that settled. *)
Lemma refreshToken_fuel_S fuel captured :
  extends (refreshToken env clientId fuel captured) (refreshToken env clientId (S fuel) captured).
Proof.
  induction fuel as [| fuel IH]; [intros w r E; discriminate E|].
  cbn [refreshToken]. apply refreshToken_with_extends.
  intros token. apply validateAndSetUser_with_extends, IH.
Qed.

Lemma refreshToken_fuel_le fuel fuel' captured :
  (fuel <= fuel')%nat ->
  extends (refreshToken env clientId fuel captured) (refreshToken env clientId fuel' captured).
Proof.
  induction 1 as [| fuel' _ IH]; [apply extends_refl|].
  intros w r E. apply refreshToken_fuel_S, IH, E.
Qed.

Lemma validateAndSetUser_fuel_le fuel fuel' captured token :
  (fuel <= fuel')%nat ->
  extends (validateAndSetUser env clientId fuel captured token)
          (validateAndSetUser env clientId fuel' captured token).
Proof.
  intros H. apply validateAndSetUser_with_extends, refreshToken_fuel_le, H.
Qed.

Lemma exchangeCodeForToken_fuel_le fuel fuel' captured code :
  (fuel <= fuel')%nat ->
  extends (exchangeCodeForToken env clientId fuel captured code)
          (exchangeCodeForToken env clientId fuel' captured code).
Proof.
  intros H. unfold exchangeCodeForToken, exchangeCodeForToken_with.
  apply extends_bind; [apply extends_refl|]. intros [verifier |]; [|apply extends_refl].
  destruct (negb _); [apply extends_refl|].
  apply extends_try_catch; [|intros; apply extends_refl].
  apply extends_bind; [apply extends_refl|]. intros tokens.
  apply extends_bind; [apply extends_refl|]. intros _.
  apply validateAndSetUser_fuel_le, H.
Qed.

Lemma initialize_fuel_le fuel fuel' captured :
  (fuel <= fuel')%nat ->
  extends (initialize env clientId fuel captured) (initialize env clientId fuel' captured).
Proof.
  intros H. unfold initialize, initialize_with.
  apply extends_try_catch; [|intros; apply extends_refl].
  unfold initialize_try.
  apply extends_bind; [apply extends_refl|]. intros token.
  apply extends_bind; [apply extends_refl|]. intros tokenExpiry.
  intros w r E.
  destruct (tok_truthy token && expiry_in_future env tokenExpiry w).
  - revert E. apply validateAndSetUser_fuel_le, H.
  - destruct (searchParams_get (js "code") (search (location w))) as [[| c code] |];
      revert E.
    + apply extends_try_catch; [apply refreshToken_fuel_le, H | intros; apply extends_refl].
    + apply extends_bind; [apply exchangeCodeForToken_fuel_le, H | intros; apply extends_refl].
    + apply extends_try_catch; [apply refreshToken_fuel_le, H | intros; apply extends_refl].
Qed.

Lemma mount_fuel_le fuel fuel' :
  (fuel <= fuel')%nat ->
  extends (mount env clientId fuel) (mount env clientId fuel').
Proof.
  intros H w r E. rewrite mount_run in *.
  destruct (initialize env clientId fuel false _) as [[r1 w1] |] eqn:I; [| discriminate E].
  rewrite (initialize_fuel_le fuel fuel' false H _ _ I). exact E.
Qed.

End Budget.

(** The third scenario of the specification: a stored, unexpired token that
    introspection reports inactive, and a refresh answered by
    [auth_required].  The hook settles Unauthenticated after two requests. *)
Example mount_inactive_token_auth_required :
  exists w',
    mount Scenario.env_auth_required Scenario.client 1 Scenario.page_with_token
    = Some (Ok tt, w')
    /\ view w' = {| isLoggedIn := false; userDetails := None; authLoading := false |}
    /\ requests w' = [PostIntrospect (KeyToken (TokStr (js "tok0")));
                      PostToken (refresh_params Scenario.client)].
Proof. eexists. split; [vm_compute; reflexivity | split; reflexivity]. Qed.

(** A token endpoint that keeps issuing tokens which introspection keeps
    reporting inactive never lets the [refreshToken] of the first render
    settle: no budget is enough. *)
Lemma refreshToken_may_not_settle fuel w :
  refreshToken Scenario.env_churn Scenario.client fuel false w = None.
Proof.
  revert w. induction fuel as [| fuel IH]; intros w; [reflexivity|].
  cbn [refreshToken].
  rewrite refreshToken_with_run, refreshToken_try_run.
  rewrite (exchangeToken_tokens Scenario.env_churn _ w
             {| resp_status := 200; resp_text := [];
                resp_json := BodyTokens Scenario.tokens_tok1 |} Scenario.tokens_tok1)
    by reflexivity.
  rewrite bool_decide_eq_false_2 by discriminate.
  cbn [Scenario.tokens_tok1 access_token expires_in].
  set (w1 := stored _ _ _ _).
  rewrite validateAndSetUser_with_run.
  rewrite validateAndSetUser_try_run by reflexivity.
  change (introspection_key (TokStr (js "tok1"))) with (KeyToken (TokStr (js "tok1"))).
  rewrite introspect_run.
  rewrite (validateToken_user Scenario.env_churn _ w1
             {| resp_status := 200; resp_text := [];
                resp_json := BodyUser Scenario.user_inactive |} Scenario.user_inactive)
    by reflexivity.
  cbn [active_user Scenario.user_inactive active].
  rewrite IH. reflexivity.
Qed.

End FuelFacts.
(** ** The token record *)

Module TokenStoreFacts.
Import UseAuth UseAuthFacts.

(** *** Writes and what they keep *)

Lemma writes_weaken (P Q : jstoken -> Prop) m m' :
  (forall t, P t -> Q t) -> rtc (store_write_of P) m m' -> rtc (store_write_of Q) m m'.
Proof.
  intros HPQ Hw. induction Hw as [| x y z Hxy _ IH]; [apply rtc_refl|].
  eapply rtc_l; [|exact IH].
  destruct Hxy as [m0 token instant Ht | m0]; [apply write_both, HPQ, Ht | apply clear_both].
Qed.

Lemma write_has_expiry P m m' : store_write_of P m m' -> token_has_expiry m'.
Proof.
  intros [m0 token instant _ | m0]; unfold token_has_expiry; cbn; [discriminate | reflexivity].
Qed.

Lemma writes_keep_expiry P m m' :
  token_has_expiry m -> rtc (store_write_of P) m m' -> token_has_expiry m'.
Proof.
  intros Hm Hw. induction Hw as [| x y z Hxy _ IH]; [exact Hm|].
  apply IH. eapply write_has_expiry, Hxy.
Qed.

Lemma string_write_sets_both m m' :
  store_write_of is_string m m' -> both_null_or_both_set m'.
Proof.
  intros [m0 token instant Ht | m0]; [right | left]; cbn; [|auto].
  split; [exact Ht | discriminate].
Qed.

Lemma string_writes_keep_both m m' :
  both_null_or_both_set m -> rtc (store_write_of is_string) m m' ->
  both_null_or_both_set m'.
Proof.
  intros Hm Hw. induction Hw as [| x y z Hxy _ IH]; [exact Hm|].
  apply IH. eapply string_write_sets_both, Hxy.
Qed.

Lemma both_null_or_both_set_paired m : both_null_or_both_set m -> paired m.
Proof.
  unfold paired. intros [[Ht He] | [[s Ht] He]]; rewrite Ht.
  - rewrite He. split; intros H; congruence.
  - split; intros _; [exact He | discriminate].
Qed.

Lemma initial_memoryTokens_has_expiry : token_has_expiry initial_memoryTokens.
Proof. intros _. reflexivity. Qed.

Lemma initial_memoryTokens_both_null : both_null_or_both_set initial_memoryTokens.
Proof. left. split; reflexivity. Qed.

(** *** The combinators *)

Section Combinators.

Variable P : jstoken -> Prop.

Lemma wp_same {A} (c : M A) :
  (forall w r w', c w = Some (r, w') -> memoryTokens w' = memoryTokens w) ->
  writes_by P c.
Proof. intros H w r w' E. rewrite (H w r w' E). apply rtc_refl. Qed.

Lemma wp_ret {A} (a : A) : writes_by P (ret a).
Proof. apply wp_same. intros w r w' E. inversion E. reflexivity. Qed.

Lemma wp_throw {A} e : writes_by P (@throw A e).
Proof. apply wp_same. intros w r w' E. inversion E. reflexivity. Qed.

Lemma wp_lift {A} (x : result A) : writes_by P (lift x).
Proof. apply wp_same. intros w r w' E. inversion E. reflexivity. Qed.

Lemma wp_out_of_fuel {A} : writes_by P (@out_of_fuel A).
Proof. intros w r w' E. discriminate E. Qed.

(** The continuation matters only at the values that [c] returns. *)
Lemma wp_bind_run {A B} (c : M A) (k : A -> M B) :
  writes_by P c ->
  (forall a, (exists w w1, c w = Some (Ok a, w1)) -> writes_by P (k a)) ->
  writes_by P (bind c k).
Proof.
  intros Hc Hk w r w' E. unfold bind in E.
  destruct (c w) as [[[a | e] w1] |] eqn:C; [| | discriminate E].
  - eapply rtc_trans; [eapply Hc, C | eapply (Hk a); [eauto | exact E]].
  - inversion E; subst. eapply Hc, C.
Qed.

Lemma wp_bind {A B} (c : M A) (k : A -> M B) :
  writes_by P c -> (forall a, writes_by P (k a)) -> writes_by P (bind c k).
Proof. intros Hc Hk. apply wp_bind_run; [exact Hc | intros a _; apply Hk]. Qed.

Lemma wp_try_catch {A} (c : M A) handler :
  writes_by P c -> (forall e, writes_by P (handler e)) ->
  writes_by P (try_catch c handler).
Proof.
  intros Hc Hh w r w' E. unfold try_catch in E.
  destruct (c w) as [[[a | e] w1] |] eqn:C; [| | discriminate E].
  - inversion E; subst. eapply Hc, C.
  - eapply rtc_trans; [eapply Hc, C | eapply Hh, E].
Qed.

Lemma wp_finally {A} (c : M A) f :
  writes_by P c -> writes_by P f -> writes_by P (finally c f).
Proof.
  intros Hc Hf w r w' E. unfold finally in E.
  destruct (c w) as [[r1 w1] |] eqn:C; [| discriminate E].
  destruct (f w1) as [[[a | e] w2] |] eqn:F; [| | discriminate E];
    inversion E; subst;
    (eapply rtc_trans; [eapply Hc, C | eapply Hf, F]).
Qed.

Lemma wp_modify f :
  (forall w, memoryTokens (f w) = memoryTokens w) -> writes_by P (modify f).
Proof.
  intros H. apply wp_same. intros w r w' E. inversion E. apply H.
Qed.

End Combinators.

(** *** The two writers, and the operations that do not write *)

Section Writers.

Variable env : Env.
Variable clientId : jsstring.
Variable P : jstoken -> Prop.

#[local] Set Default Proof Using "All".

(** What is known of the tokens that get stored. *)
Hypothesis P_refresh :
  forall w tokens w1,
    exchangeToken env (refresh_params clientId) w = Some (Ok tokens, w1) ->
    status tokens <> Some (js "auth_required") ->
    P (access_token tokens).
Hypothesis P_code :
  forall code verifier w tokens w1,
    exchangeToken env (code_params clientId code verifier) w = Some (Ok tokens, w1) ->
    P (access_token tokens).
Hypothesis P_string : forall s, P (TokStr s).

Lemma wp_setAccessToken token expiresIn :
  P token -> writes_by P (setAccessToken env token expiresIn).
Proof.
  intros Ht w r w' E. inversion E; subst. cbn.
  apply rtc_once, write_both, Ht.
Qed.

Lemma wp_clearAuth : writes_by P clearAuth.
Proof.
  intros w r w' E. inversion E; subst. cbn. apply rtc_once, clear_both.
Qed.

Lemma wp_setIsLoggedIn b : writes_by P (setIsLoggedIn b).
Proof. apply wp_modify. reflexivity. Qed.

Lemma wp_setUserDetails u : writes_by P (setUserDetails u).
Proof. apply wp_modify. reflexivity. Qed.

Lemma wp_setAuthLoading b : writes_by P (setAuthLoading b).
Proof. apply wp_modify. reflexivity. Qed.

Lemma wp_storage_get key : writes_by P (storage_get key).
Proof. apply wp_same. intros w r w' E. inversion E. reflexivity. Qed.

Lemma wp_storage_set key value : writes_by P (storage_set key value).
Proof. apply wp_modify. reflexivity. Qed.

Lemma wp_storage_remove key : writes_by P (storage_remove key).
Proof. apply wp_modify. reflexivity. Qed.

Lemma wp_getAccessToken : writes_by P getAccessToken.
Proof. apply wp_same. intros w r w' E. inversion E. reflexivity. Qed.

Lemma wp_getTokenExpiry : writes_by P getTokenExpiry.
Proof. apply wp_same. intros w r w' E. inversion E. reflexivity. Qed.

Lemma wp_replaceState : writes_by P replaceState_pathname.
Proof. apply wp_modify. reflexivity. Qed.

Lemma wp_fetch req : writes_by P (fetch env req).
Proof.
  apply wp_same. intros w r w' E. rewrite fetch_run in E.
  destruct (respond env _ req); inversion E; reflexivity.
Qed.

Lemma wp_exchangeToken params : writes_by P (exchangeToken env params).
Proof.
  apply wp_same. intros w r w' E.
  destruct (exchangeToken_sent env params w) as [r0 H].
  rewrite H in E. inversion E. reflexivity.
Qed.

Lemma wp_validateToken key : writes_by P (validateToken env key).
Proof.
  apply wp_same. intros w r w' E.
  destruct (validateToken_sent env key w) as [r0 H].
  rewrite H in E. inversion E. reflexivity.
Qed.

(** *** The state machine *)

Lemma wp_settle_unauth : writes_by P (setIsLoggedIn false ;; setUserDetails None).
Proof. apply wp_bind; intros; [apply wp_setIsLoggedIn | apply wp_setUserDetails]. Qed.

Lemma wp_settle_cleared :
  writes_by P (clearAuth ;; setIsLoggedIn false ;; setUserDetails None).
Proof. apply wp_bind; intros; [apply wp_clearAuth | apply wp_settle_unauth]. Qed.

Lemma wp_clear_and_rethrow e : writes_by P (clear_and_rethrow e).
Proof.
  unfold clear_and_rethrow.
  repeat (apply wp_bind; intros);
    auto using wp_clearAuth, wp_setIsLoggedIn, wp_setUserDetails, wp_throw.
Qed.

Lemma wp_introspect refresh key :
  writes_by P refresh -> writes_by P (introspect env refresh key).
Proof.
  intros Hr. unfold introspect.
  apply wp_bind; [apply wp_validateToken|]. intros data.
  destruct (active_user data); [|exact Hr].
  apply wp_bind; intros; [apply wp_setUserDetails | apply wp_setIsLoggedIn].
Qed.

Lemma wp_validateAndSetUser_with refresh captured token :
  writes_by P refresh -> writes_by P (validateAndSetUser_with env refresh captured token).
Proof.
  intros Hr. unfold validateAndSetUser_with. apply wp_try_catch.
  - unfold validateAndSetUser_try.
    apply wp_bind; [apply wp_getAccessToken|]. intros stored.
    destruct (captured && _); [apply wp_ret|].
    apply wp_bind; [apply wp_lift|]. intros [jti |]; apply wp_introspect, Hr.
  - intros e. unfold validateAndSetUser_catch.
    apply wp_try_catch; [exact Hr | apply wp_clear_and_rethrow].
Qed.

Lemma wp_refreshToken_with validate :
  (forall token, writes_by P (validate token)) ->
  writes_by P (refreshToken_with env clientId validate).
Proof.
  intros Hv. unfold refreshToken_with. apply wp_try_catch.
  - unfold refreshToken_try.
    apply wp_bind_run; [apply wp_exchangeToken|]. intros tokens (w0 & w1 & Hex).
    destruct (bool_decide _) eqn:Hb; [apply wp_settle_unauth|].
    apply bool_decide_eq_false_1 in Hb.
    apply wp_bind; [|intros; apply Hv].
    apply wp_setAccessToken. exact (P_refresh w0 tokens w1 Hex Hb).
  - intros e. apply wp_settle_cleared.
Qed.

Lemma wp_refreshToken fuel captured : writes_by P (refreshToken env clientId fuel captured).
Proof.
  induction fuel as [| fuel IH]; [apply wp_out_of_fuel|].
  cbn [refreshToken]. apply wp_refreshToken_with.
  intros token. apply wp_validateAndSetUser_with, IH.
Qed.

Lemma wp_validateAndSetUser fuel captured token :
  writes_by P (validateAndSetUser env clientId fuel captured token).
Proof. apply wp_validateAndSetUser_with, wp_refreshToken. Qed.

Lemma wp_exchangeCodeForToken_with validate code :
  (forall token, writes_by P (validate token)) ->
  writes_by P (exchangeCodeForToken_with env clientId validate code).
Proof.
  intros Hv. unfold exchangeCodeForToken_with.
  apply wp_bind; [apply wp_storage_get|]. intros [verifier |]; [|apply wp_throw].
  destruct (negb _); [apply wp_throw|].
  apply wp_try_catch; [|intros; apply wp_ret].
  apply wp_bind_run; [apply wp_exchangeToken|]. intros tokens (w0 & w1 & Hex).
  apply wp_bind; [|intros; apply Hv].
  apply wp_setAccessToken. exact (P_code code verifier w0 tokens w1 Hex).
Qed.

Lemma wp_exchangeCodeForToken fuel captured code :
  writes_by P (exchangeCodeForToken env clientId fuel captured code).
Proof. apply wp_exchangeCodeForToken_with. intros. apply wp_validateAndSetUser. Qed.

Lemma wp_initialize_with validate exchange refresh :
  (forall token, writes_by P (validate token)) ->
  (forall code, writes_by P (exchange code)) ->
  writes_by P refresh ->
  writes_by P (initialize_with env validate exchange refresh).
Proof.
  intros Hv He Hr. unfold initialize_with.
  apply wp_try_catch; [|intros; apply wp_settle_unauth].
  unfold initialize_try.
  apply wp_bind; [apply wp_getAccessToken|]. intros token.
  apply wp_bind; [apply wp_getTokenExpiry|]. intros tokenExpiry.
  intros w r w' E.
  destruct (tok_truthy token && expiry_in_future env tokenExpiry w); [eapply Hv, E|].
  destruct (searchParams_get (js "code") (search (location w))) as [[| c code] |].
  - revert E. apply wp_try_catch; [exact Hr | intros; apply wp_settle_unauth].
  - revert E. apply wp_bind; [apply He | intros; apply wp_replaceState].
  - revert E. apply wp_try_catch; [exact Hr | intros; apply wp_settle_unauth].
Qed.

Lemma wp_initialize fuel captured : writes_by P (initialize env clientId fuel captured).
Proof.
  apply wp_initialize_with; intros;
    auto using wp_validateAndSetUser, wp_exchangeCodeForToken, wp_refreshToken.
Qed.

Lemma wp_logout : writes_by P (logout env).
Proof.
  unfold logout. apply wp_finally; [|apply wp_settle_cleared].
  apply wp_try_catch; [|intros; apply wp_ret].
  apply wp_bind; [apply wp_fetch | intros; apply wp_ret].
Qed.

Lemma wp_initialization_effect fuel : writes_by P (initialization_effect env clientId fuel).
Proof.
  intros w r w' E. unfold initialization_effect in E.
  destruct (isInitializing w); [inversion E; apply rtc_refl|].
  revert E.
  apply wp_bind; [apply wp_modify; reflexivity|]. intros _.
  apply wp_bind; [apply wp_setAuthLoading|]. intros _.
  apply wp_finally; [apply wp_initialize|].
  apply wp_bind; [apply wp_setAuthLoading | intros; apply wp_modify; reflexivity].
Qed.

Lemma wp_mount fuel : writes_by P (mount env clientId fuel).
Proof.
  intros w r w' E. unfold mount in E.
  apply wp_initialization_effect in E. exact E.
Qed.

Lemma wp_run_op op : writes_by P (run_op env clientId op).
Proof.
  destruct op; cbn [run_op].
  - apply wp_setAccessToken, P_string.
  - apply wp_clearAuth.
  - apply wp_storage_set.
  - apply wp_storage_remove.
  - apply wp_validateAndSetUser.
  - apply wp_exchangeCodeForToken.
  - apply wp_refreshToken.
  - apply wp_initialize.
  - apply wp_logout.
  - apply wp_mount.
Qed.

End Writers.

(** Every operation writes the two members together, whatever the endpoints
    answer. *)
Lemma run_op_writes_together env clientId op w r w' :
  run_op env clientId op w = Some (r, w') ->
  rtc store_write (memoryTokens w) (memoryTokens w').
Proof.
  intros E.
  exact (wp_run_op env clientId (fun _ => True)
           (fun _ _ _ _ _ => I) (fun _ _ _ _ _ _ => I) (fun _ => I) op w r w' E).
Qed.

Lemma reachable_has_expiry env clientId w :
  reachable env clientId w -> token_has_expiry (memoryTokens w).
Proof.
  induction 1 as [w H | w op r w' _ IH E].
  - rewrite H. apply initial_memoryTokens_has_expiry.
  - eapply writes_keep_expiry; [exact IH | eapply run_op_writes_together, E].
Qed.

(** With string tokens only, the writes assign a string and an expiry. *)
Lemma run_op_writes_strings env clientId op w r w' :
  stores_strings env clientId ->
  run_op env clientId op w = Some (r, w') ->
  rtc (store_write_of is_string) (memoryTokens w) (memoryTokens w').
Proof.
  intros [Hrefresh Hcode] E.
  exact (wp_run_op env clientId is_string Hrefresh Hcode
           (fun s => ex_intro _ s eq_refl) op w r w' E).
Qed.

Lemma reachable_both_null_or_both_set env clientId w :
  stores_strings env clientId ->
  reachable env clientId w -> both_null_or_both_set (memoryTokens w).
Proof.
  intros Hs. induction 1 as [w H | w op r w' _ IH E].
  - rewrite H. apply initial_memoryTokens_both_null.
  - eapply string_writes_keep_both; [exact IH | eapply run_op_writes_strings; eauto].
Qed.

(** C7, as the code has it.  Every operation of the auth core changes the
    record only through writes that assign both members or clear both, so
    that in every reachable state a null expiry goes with a null token.
    What [storage.setAccessToken] assigns as the token is the
    [access_token] member of the response, as it came.  When every
    response that is stored carries a string there, token and expiry are
    both null or both set in every reachable state, and the token is
    non-null exactly when the expiry is. *)
Theorem token_and_expiry_written_together (env : Env) (clientId : jsstring) (w : World) :
  reachable env clientId w ->
  token_has_expiry (memoryTokens w)
  /\ (forall op r w',
        run_op env clientId op w = Some (r, w') ->
        rtc store_write (memoryTokens w) (memoryTokens w')
        /\ token_has_expiry (memoryTokens w'))
  /\ (stores_strings env clientId ->
      both_null_or_both_set (memoryTokens w)
      /\ paired (memoryTokens w)
      /\ forall op r w',
           run_op env clientId op w = Some (r, w') ->
           both_null_or_both_set (memoryTokens w') /\ paired (memoryTokens w')).
Proof.
  intros Hr. split; [apply (reachable_has_expiry env clientId w Hr)|]. split.
  - intros op r w' E. split; [eapply run_op_writes_together, E|].
    apply (reachable_has_expiry env clientId w').
    eapply reachable_step; [exact Hr | exact E].
  - intros Hs.
    pose proof (reachable_both_null_or_both_set env clientId w Hs Hr) as Hb.
    split; [exact Hb|]. split; [apply both_null_or_both_set_paired, Hb|].
    intros op r w' E.
    assert (Hb' : both_null_or_both_set (memoryTokens w')).
    { apply (reachable_both_null_or_both_set env clientId w' Hs).
      eapply reachable_step; [exact Hr | exact E]. }
    split; [exact Hb' | apply both_null_or_both_set_paired, Hb'].
Qed.

Lemma after_login_reachable :
  reachable Scenario.env_login Scenario.client Scenario.after_login.
Proof.
  apply (reachable_step _ _ Scenario.page_with_code (OpMount 0) (Ok tt)).
  - apply reachable_loaded. reflexivity.
  - vm_compute. reflexivity.
Qed.

(** [env_login] answers every token request with the string [tok1]. *)
Lemma env_login_stores_strings : stores_strings Scenario.env_login Scenario.client.
Proof.
  split; [intros w tokens w1 H _ | intros code verifier w tokens w1 H];
    rewrite (exchangeToken_tokens Scenario.env_login _ w
               {| resp_status := 200; resp_text := [];
                  resp_json := BodyTokens Scenario.tokens_tok1 |}
               Scenario.tokens_tok1 eq_refl eq_refl eq_refl eq_refl) in H;
    inversion H; subst; exists (js "tok1"); reflexivity.
Qed.

Lemma token_and_expiry_written_together_witness :
  token_has_expiry (memoryTokens Scenario.after_login)
  /\ (forall op r w',
        run_op Scenario.env_login Scenario.client op Scenario.after_login = Some (r, w') ->
        rtc store_write (memoryTokens Scenario.after_login) (memoryTokens w')
        /\ token_has_expiry (memoryTokens w'))
  /\ both_null_or_both_set (memoryTokens Scenario.after_login)
  /\ paired (memoryTokens Scenario.after_login)
  /\ (forall op r w',
        run_op Scenario.env_login Scenario.client op Scenario.after_login = Some (r, w') ->
        both_null_or_both_set (memoryTokens w') /\ paired (memoryTokens w')).
Proof.
  destruct (token_and_expiry_written_together Scenario.env_login Scenario.client
              Scenario.after_login after_login_reachable) as (H1 & H2 & H3).
  split; [exact H1|]. split; [exact H2|].
  exact (H3 env_login_stores_strings).
Defined.

(** C7 as stated fails.  A token response with a status and a [null]
    [access_token] passes the check of [api.exchangeToken], and
    [refreshToken] stores it: the state that it leaves is reachable and has
    a null token with a non-null expiry. *)
Lemma null_token_stored_with_expiry :
  exists w,
    refreshToken Scenario.env_null_token Scenario.client 1 false Scenario.fresh_page
    = Some (Ok tt, w)
    /\ reachable Scenario.env_null_token Scenario.client w
    /\ accessToken (memoryTokens w) = TokNull
    /\ expiry (memoryTokens w) = Some 1700003600000%Z
    /\ ~ paired (memoryTokens w).
Proof.
  eexists. split; [vm_compute; reflexivity|]. split; [|split; [|split]].
  - apply (reachable_step _ _ Scenario.fresh_page (OpRefreshToken 1 false) (Ok tt)).
    + apply reachable_loaded. reflexivity.
    + vm_compute. reflexivity.
  - reflexivity.
  - reflexivity.
  - unfold paired. cbn. intros [_ H]. apply H; [discriminate | reflexivity].
Qed.

(** A response without the member leaves [undefined] there.  A code
    exchange answered by [{status: "auth_required"}] has no [access_token]:
    the record then holds [undefined] and an expiry. *)
Remark response_without_token_stores_undefined :
  exists w',
    exchangeCodeForToken Scenario.env_auth_required Scenario.client 1 false (js "abc123")
      Scenario.page_with_code = Some (Ok tt, w')
    /\ memoryTokens w' = {| accessToken := TokUndefined; expiry := Some 1700003600000%Z |}
    /\ ~ both_null_or_both_set (memoryTokens w').
Proof.
  eexists. split; [vm_compute; reflexivity|]. split; [reflexivity|].
  cbn. intros [[H _] | [[s H] _]]; discriminate H.
Qed.

End TokenStoreFacts.

(** ** createCodeChallenge *)

Module PkceFacts.
Import CryptoUtils Pkce.

(** *** Lists, three elements at a time *)

Lemma list_ind3 {A} (P : list A -> Prop) :
  P [] -> (forall a, P [a]) -> (forall a b, P [a; b]) ->
  (forall a b c r, P r -> P (a :: b :: c :: r)) ->
  forall l, P l.
Proof.
  intros H0 H1 H2 H3 l.
  assert (H : P l /\ (forall a, P (a :: l)) /\ (forall a b, P (a :: b :: l))).
  { induction l as [| x l (IH0 & IH1 & IH2)]; [auto|].
    split; [apply IH1|]. split; [intros a; apply IH2|]. intros a b. apply H3, IH0. }
  apply H.
Qed.

(** *** Facts about the 64 sextets, by enumeration *)

Lemma below_64_enumerated v : (v < 64)%N -> In v (map N.of_nat (seq 0 64)).
Proof.
  intros H. apply in_map_iff. exists (N.to_nat v). split; [apply N2Nat.id|].
  apply in_seq. lia.
Qed.

Lemma forall_below_64 (P : N -> bool) :
  forallb P (map N.of_nat (seq 0 64)) = true ->
  forall v, (v < 64)%N -> P v = true.
Proof.
  intros H v Hv. rewrite forallb_forall in H. apply H, below_64_enumerated, Hv.
Qed.

Lemma b64_value_char v : (v < 64)%N -> b64_value (b64_char v) = Some v.
Proof.
  intros Hv.
  apply (forall_below_64 (fun v => bool_decide (b64_value (b64_char v) = Some v)))
    in Hv; [|vm_compute; reflexivity].
  apply bool_decide_eq_true_1 in Hv. exact Hv.
Qed.

Lemma b64_char_not_whitespace v : (v < 64)%N -> is_ascii_whitespace (b64_char v) = false.
Proof.
  intros Hv.
  apply (forall_below_64 (fun v => negb (is_ascii_whitespace (b64_char v)))) in Hv;
    [|vm_compute; reflexivity].
  apply negb_true_iff, Hv.
Qed.

Lemma b64_char_not_equals v : (v < 64)%N -> b64_char v <> 61%N.
Proof.
  intros Hv.
  apply (forall_below_64 (fun v => negb (b64_char v =? 61)%N)) in Hv;
    [|vm_compute; reflexivity].
  apply negb_true_iff, N.eqb_neq in Hv. exact Hv.
Qed.

(** *** Sextets of bytes *)

Ltac div_lia := zify; Z.to_euclidean_division_equations; lia.

Lemma b64_sextets_below bs : Forall byte bs -> Forall (fun v => (v < 64)%N) (b64_sextets bs).
Proof.
  unfold byte. induction bs as [| a | a b | a b c r IH] using list_ind3; intros H.
  - constructor.
  - inversion H; subst. cbn [b64_sextets].
    repeat (apply List.Forall_cons; [div_lia|]). apply List.Forall_nil.
  - inversion H as [| ? ? Ha H']; subst. inversion H'; subst.
    cbn [b64_sextets]. repeat (apply List.Forall_cons; [div_lia|]). apply List.Forall_nil.
  - inversion H as [| ? ? Ha H']; subst. inversion H' as [| ? ? Hb H'']; subst.
    inversion H'' as [| ? ? Hc Hr]; subst.
    cbn [b64_sextets]. do 4 (apply List.Forall_cons; [div_lia|]). apply IH, Hr.
Qed.

Lemma b64_decode_sextets bs : Forall byte bs -> b64_decode (b64_sextets bs) = bs.
Proof.
  unfold byte. induction bs as [| a | a b | a b c r IH] using list_ind3; intros H.
  - reflexivity.
  - inversion H; subst. cbn [b64_sextets b64_decode]. f_equal. div_lia.
  - inversion H as [| ? ? Ha H']; subst. inversion H'; subst.
    cbn [b64_sextets b64_decode]. f_equal; [div_lia|]. f_equal. div_lia.
  - inversion H as [| ? ? Ha H']; subst. inversion H' as [| ? ? Hb H'']; subst.
    inversion H'' as [| ? ? Hc Hr]; subst.
    cbn [b64_sextets b64_decode]. rewrite (IH Hr).
    f_equal; [div_lia|]. f_equal; [div_lia|]. f_equal. div_lia.
Qed.

Lemma b64_values_chars sx :
  Forall (fun v => (v < 64)%N) sx -> b64_values (map b64_char sx) = Some sx.
Proof.
  induction 1 as [| v sx Hv _ IH]; [reflexivity|].
  cbn [map b64_values]. rewrite (b64_value_char v Hv), IH. reflexivity.
Qed.

Lemma b64_sextets_length bs :
  List.length (b64_sextets bs) = ((4 * List.length bs + 2) / 3)%nat.
Proof.
  induction bs as [| a | a b | a b c r IH] using list_ind3; try reflexivity.
  cbn [b64_sextets List.length]. rewrite IH.
  replace (4 * S (S (S (List.length r))) + 2)%nat
    with (4 * List.length r + 2 + 4 * 3)%nat by lia.
  rewrite Nat.div_add by lia. lia.
Qed.

Lemma three_cases n : exists k, (n = 3 * k \/ n = 3 * k + 1 \/ n = 3 * k + 2)%nat.
Proof.
  exists (n / 3)%nat.
  pose proof (Nat.div_mod_eq n 3). pose proof (Nat.mod_upper_bound n 3). lia.
Qed.

(** The text of [btoa] is a whole number of groups of four characters. *)
Lemma b64_padding_length n :
  exists k j,
    ((4 * n + 2) / 3 = 4 * k + j)%nat
    /\ ((j = 0 /\ b64_padding n = 0) \/ (j = 2 /\ b64_padding n = 2)
        \/ (j = 3 /\ b64_padding n = 1))%nat.
Proof.
  destruct (three_cases n) as [k [-> | [-> | ->]]]; exists k; unfold b64_padding.
  - exists 0%nat. split.
    + replace (4 * (3 * k) + 2)%nat with (2 + 4 * k * 3)%nat by lia.
      rewrite Nat.div_add by lia. cbn [Nat.div Nat.divmod fst]. lia.
    + left. replace (3 * k)%nat with (0 + k * 3)%nat by lia.
      rewrite Nat.Div0.mod_add. auto.
  - exists 2%nat. split.
    + replace (4 * (3 * k + 1) + 2)%nat with (0 + (4 * k + 2) * 3)%nat by lia.
      rewrite Nat.div_add by lia. cbn [Nat.div Nat.divmod fst]. lia.
    + right; left. replace (3 * k + 1)%nat with (1 + k * 3)%nat by lia.
      rewrite Nat.Div0.mod_add. auto.
  - exists 3%nat. split.
    + replace (4 * (3 * k + 2) + 2)%nat with (1 + (4 * k + 3) * 3)%nat by lia.
      rewrite Nat.div_add by lia. cbn [Nat.div Nat.divmod fst]. lia.
    + right; right. replace (3 * k + 2)%nat with (2 + k * 3)%nat by lia.
      rewrite Nat.Div0.mod_add. auto.
Qed.

Lemma four_groups_mod k j : (j < 4 -> (4 * k + j) mod 4 = j)%nat.
Proof.
  intros H. replace (4 * k + j)%nat with (j + k * 4)%nat by lia.
  rewrite Nat.Div0.mod_add. apply Nat.mod_small, H.
Qed.

(** *** Padding *)

(** Case analysis on a code unit against the literal 61, the equals sign. *)
Ltac split_on_61 c :=
  let p := fresh "p" in
  destruct c as [| p]; [try reflexivity |];
  do 6 (try (destruct p as [p | p |]; try reflexivity)).

Lemma strip_padding_cases d :
  strip_padding d =
  match rev d with
  | c1 :: r1 =>
      if (c1 =? 61)%N then
        match r1 with
        | c2 :: r2 => if (c2 =? 61)%N then rev r2 else rev r1
        | [] => rev r1
        end
      else d
  | [] => d
  end.
Proof.
  unfold strip_padding. destruct (rev d) as [| c1 r1]; [reflexivity|].
  split_on_61 c1.
  destruct r1 as [| c2 r2]; [reflexivity|].
  split_on_61 c2.
Qed.

Lemma drop_equals_cases l :
  drop_equals l =
  match l with
  | c :: r => if (c =? 61)%N then drop_equals r else l
  | [] => []
  end.
Proof.
  destruct l as [| c r]; [reflexivity|]. cbn [drop_equals]. split_on_61 c.
Qed.

Lemma strip_padding_tail text n :
  Forall not_equals_sign text -> (n <= 2)%nat ->
  strip_padding (text ++ repeat 61%N n) = text.
Proof.
  intros Hf Hn. rewrite strip_padding_cases.
  assert (Hr : Forall not_equals_sign (rev text)) by (apply List.Forall_rev, Hf).
  assert (Hhead : match rev text with
                  | c :: _ => (c =? 61)%N = false
                  | [] => True
                  end).
  { destruct (rev text) as [| c r]; [exact I|].
    inversion Hr; subst. apply N.eqb_neq. assumption. }
  destruct n as [| [| [| n]]]; [| | | lia]; cbn [repeat].
  - rewrite app_nil_r. destruct (rev text) as [| c r]; [reflexivity|].
    rewrite Hhead. reflexivity.
  - rewrite rev_app_distr. cbn [rev app]. cbn [N.eqb Pos.eqb].
    destruct (rev text) as [| c r] eqn:E.
    + rewrite <- (rev_involutive text), E. reflexivity.
    + rewrite Hhead, <- E. apply rev_involutive.
  - rewrite rev_app_distr. cbn [rev app]. cbn [N.eqb Pos.eqb].
    apply rev_involutive.
Qed.

Lemma filter_keeps_all {A} (f : A -> bool) l :
  Forall (fun x => f x = true) l -> List.filter f l = l.
Proof.
  induction 1 as [| x l Hx _ IH]; [reflexivity|].
  cbn [List.filter]. rewrite Hx, IH. reflexivity.
Qed.

Lemma b64_text_clean bs :
  Forall byte bs ->
  Forall (fun c => negb (is_ascii_whitespace c) = true) (map b64_char (b64_sextets bs))
  /\ Forall not_equals_sign (map b64_char (b64_sextets bs)).
Proof.
  intros H. apply b64_sextets_below in H. split.
  - apply List.Forall_map. eapply List.Forall_impl; [|exact H].
    intros v Hv. cbn beta. rewrite (b64_char_not_whitespace v Hv). reflexivity.
  - apply List.Forall_map. eapply List.Forall_impl; [|exact H].
    intros v Hv. apply b64_char_not_equals, Hv.
Qed.

(** [atob] reads back the bytes from their base64 text, padded as [btoa]
    pads it or not padded at all. *)
Lemma atob_base64 bs n :
  Forall byte bs ->
  n = 0%nat \/ n = b64_padding (List.length bs) ->
  atob (map b64_char (b64_sextets bs) ++ repeat 61%N n) = Some bs.
Proof.
  intros Hb Hn.
  destruct (b64_text_clean bs Hb) as [Hws Heq].
  set (text := map b64_char (b64_sextets bs)) in *.
  assert (Hlen : List.length text = ((4 * List.length bs + 2) / 3)%nat).
  { subst text. rewrite length_map. apply b64_sextets_length. }
  destruct (b64_padding_length (List.length bs)) as (k & j & Hkj & Hj).
  rewrite Hkj in Hlen.
  assert (Hdecode : (if (List.length text mod 4 =? 1)%nat then None
                     else match b64_values text with
                          | Some vs => Some (b64_decode vs)
                          | None => None
                          end) = Some bs).
  { rewrite Hlen, four_groups_mod by lia.
    replace (j =? 1)%nat with false by (symmetry; apply Nat.eqb_neq; lia).
    subst text. rewrite (b64_values_chars _ (b64_sextets_below bs Hb)).
    rewrite (b64_decode_sextets bs Hb). reflexivity. }
  assert (Hpad : (n <= 2)%nat) by lia.
  unfold atob. rewrite filter_keeps_all.
  2:{ apply Forall_app. split; [exact Hws|].
      apply Forall_forall. intros c Hc. apply list_elem_of_In, repeat_spec in Hc.
      subst c. reflexivity. }
  rewrite length_app, repeat_length, Hlen.
  destruct (((4 * k + j + n) mod 4 =? 0)%nat) eqn:E.
  - rewrite (strip_padding_tail text n Heq Hpad). exact Hdecode.
  - (* not a multiple of four: there is no padding at all *)
    assert (n = 0%nat).
    { destruct Hn as [-> | ->]; [reflexivity|]. exfalso.
      apply Nat.eqb_neq in E. apply E.
      destruct Hj as [[-> ->] | [[-> ->] | [-> ->]]].
      - replace (4 * k + 0 + 0)%nat with (4 * k + 0)%nat by lia.
        apply four_groups_mod. lia.
      - replace (4 * k + 2 + 2)%nat with (4 * (k + 1) + 0)%nat by lia.
        apply four_groups_mod. lia.
      - replace (4 * k + 3 + 1)%nat with (4 * (k + 1) + 0)%nat by lia.
        apply four_groups_mod. lia. }
    subst n. cbn [repeat]. rewrite app_nil_r. exact Hdecode.
Qed.

Lemma btoa_bytes bs :
  Forall byte bs ->
  btoa bs = Some (map b64_char (b64_sextets bs)
                  ++ repeat 61%N (b64_padding (List.length bs)))%list.
Proof.
  intros H. unfold btoa.
  replace (forallb (fun c => (c <? 256)%N) bs) with true; [reflexivity|].
  symmetry. apply forallb_forall. intros c Hc.
  rewrite List.Forall_forall in H. apply N.ltb_lt, H, Hc.
Qed.

Lemma btoa_rejects s : ~ Forall byte s -> btoa s = None.
Proof.
  intros H. unfold btoa.
  destruct (forallb (fun c => (c <? 256)%N) s) eqn:E; [|reflexivity].
  exfalso. apply H. rewrite forallb_forall in E.
  apply List.Forall_forall. intros c Hc. apply N.ltb_lt, E, Hc.
Qed.

(** [atob] undoes [btoa], which accepts exactly the strings of bytes. *)
Theorem atob_btoa (s : jsstring) :
  (Forall byte s -> exists text, btoa s = Some text /\ atob text = Some s)
  /\ (~ Forall byte s -> btoa s = None).
Proof.
  split; [|apply btoa_rejects].
  intros H. eexists. split; [apply btoa_bytes, H|].
  apply atob_base64; [exact H | right; reflexivity].
Qed.

(** *** The digest *)

Lemma sha256_digest msg : List.length (sha256 msg) = 32%nat /\ Forall byte (sha256 msg).
Proof.
  unfold sha256, digest_bytes, be_bytes.
  set (st := fold_left compress _ _).
  cbn [seq rev app map]. split; [reflexivity|].
  unfold byte. repeat (apply List.Forall_cons; [apply N.mod_lt; discriminate|]).
  apply List.Forall_nil.
Qed.

(** The digests of [abc] (FIPS 180-4, one block) and of seventy [a] (two blocks). *)
Example sha256_abc :
  sha256 (utf8_encode (js "abc"))
  = [186; 120; 22; 191; 143; 1; 207; 234; 65; 65; 64; 222; 93; 174; 34; 35; 176; 3; 97; 163; 150; 23; 122; 156; 180; 16; 255; 97; 242; 0; 21; 173]%N
  /\ sha256 (repeat 97%N 70)
    = [107; 213; 229; 3; 72; 85; 161; 18; 65; 240; 222; 232; 252; 114; 133; 15; 253; 153; 85; 178; 131; 71; 168; 100; 40; 181; 250; 25; 17; 159; 106; 208]%N.
Proof. split; vm_compute; reflexivity. Qed.

(** *** The challenge *)

Lemma url_char_facts v :
  (v < 64)%N ->
  is_base64url (url_char v) = true
  /\ not_equals_sign (url_char v)
  /\ (fun c => if (c =? 95)%N then 47%N else c)
       ((fun c => if (c =? 45)%N then 43%N else c) (url_char v)) = b64_char v.
Proof.
  intros Hv.
  apply (forall_below_64
           (fun v => is_base64url (url_char v)
                     && negb (url_char v =? 61)%N
                     && ((fun c => if (c =? 95)%N then 47%N else c)
                           ((fun c => if (c =? 45)%N then 43%N else c) (url_char v))
                         =? b64_char v)%N)) in Hv; [|vm_compute; reflexivity].
  apply andb_true_iff in Hv as [Hv H3]. apply andb_true_iff in Hv as [H1 H2].
  split; [exact H1|]. split.
  - apply negb_true_iff, N.eqb_neq in H2. exact H2.
  - apply N.eqb_eq, H3.
Qed.

Lemma replace_all_app x y a b :
  replace_all x y (a ++ b) = (replace_all x y a ++ replace_all x y b)%list.
Proof. apply map_app. Qed.

Lemma url_text sx :
  replace_all 47 95 (replace_all 43 45 (map b64_char sx)) = map url_char sx.
Proof. unfold replace_all. rewrite !map_map. reflexivity. Qed.

Lemma strip_trailing_equals_tail text n :
  Forall not_equals_sign text ->
  strip_trailing_equals (text ++ repeat 61%N n) = text.
Proof.
  intros Hf. unfold strip_trailing_equals. rewrite rev_app_distr, rev_repeat.
  assert (Hr : Forall not_equals_sign (rev text)) by (apply List.Forall_rev, Hf).
  induction n as [| n IH]; cbn [repeat app].
  - rewrite drop_equals_cases.
    destruct (rev text) as [| c r] eqn:E.
    + rewrite <- (rev_involutive text), E. reflexivity.
    + inversion Hr as [| ? ? Hc _]; subst.
      apply N.eqb_neq in Hc. rewrite Hc, <- E. apply rev_involutive.
  - cbn [drop_equals]. exact IH.
Qed.

Lemma createCodeChallenge_run codeVerifier :
  createCodeChallenge true codeVerifier
  = Ok (map url_char (b64_sextets (sha256 (utf8_encode codeVerifier)))).
Proof.
  unfold createCodeChallenge. cbn [negb].
  destruct (sha256_digest (utf8_encode codeVerifier)) as [Hlen Hbytes].
  rewrite (btoa_bytes _ Hbytes), Hlen.
  change (b64_padding 32) with 1%nat.
  rewrite !replace_all_app, url_text.
  change (replace_all 47 95 (replace_all 43 45 (repeat 61%N 1))) with (repeat 61%N 1).
  rewrite strip_trailing_equals_tail; [reflexivity|].
  apply List.Forall_map. eapply List.Forall_impl; [|apply b64_sextets_below, Hbytes].
  intros v Hv. apply url_char_facts, Hv.
Qed.

Lemma challenge_length codeVerifier :
  List.length (map url_char (b64_sextets (sha256 (utf8_encode codeVerifier)))) = 43%nat.
Proof.
  rewrite length_map, b64_sextets_length.
  destruct (sha256_digest (utf8_encode codeVerifier)) as [-> _]. reflexivity.
Qed.

(** X1.  For every verifier, whatever its characters, [createCodeChallenge]
    returns 43 characters of the base64url alphabet: letters, digits, [-]
    and [_], so no [+], [/] or [=].  Without [crypto.subtle] it throws a
    [TypeError]. *)
Theorem createCodeChallenge_format (codeVerifier : jsstring) :
  (exists challenge,
      createCodeChallenge true codeVerifier = Ok challenge
      /\ List.length challenge = 43%nat
      /\ Forall (fun c => is_base64url c = true) challenge
      /\ Forall (fun c => c <> 43%N /\ c <> 47%N /\ c <> 61%N) challenge)
  /\ createCodeChallenge false codeVerifier = Throw TypeError.
Proof.
  split; [|reflexivity].
  eexists. split; [apply createCodeChallenge_run|].
  split; [apply challenge_length|].
  assert (H : Forall (fun c => is_base64url c = true)
                (map url_char (b64_sextets (sha256 (utf8_encode codeVerifier))))).
  { apply List.Forall_map.
    eapply List.Forall_impl; [|apply b64_sextets_below, sha256_digest].
    intros v Hv. apply url_char_facts, Hv. }
  split; [exact H|].
  eapply List.Forall_impl; [|exact H].
  intros c Hc. repeat split; intros ->; discriminate Hc.
Qed.

Lemma from_base64url_text sx :
  Forall (fun v => (v < 64)%N) sx ->
  from_base64url (map url_char sx) = map b64_char sx.
Proof.
  intros H. unfold from_base64url, replace_all. rewrite !map_map.
  apply map_ext_in. intros v Hv.
  rewrite List.Forall_forall in H. apply (url_char_facts v (H v Hv)).
Qed.

(** X2.  The challenge is a faithful encoding of the digest: read as base64
    (with [-] and [_] turned back into [+] and [/]), [atob] decodes it to the
    32 bytes of the SHA-256 hash of the UTF-8 verifier.  So two verifiers
    have the same challenge exactly when they have the same hash. *)
Theorem createCodeChallenge_decodes (codeVerifier challenge : jsstring) :
  createCodeChallenge true codeVerifier = Ok challenge ->
  atob (from_base64url challenge) = Some (sha256 (utf8_encode codeVerifier))
  /\ List.length (sha256 (utf8_encode codeVerifier)) = 32%nat
  /\ (forall codeVerifier',
        createCodeChallenge true codeVerifier' = Ok challenge <->
        sha256 (utf8_encode codeVerifier') = sha256 (utf8_encode codeVerifier)).
Proof.
  intros H.
  assert (Hc : map url_char (b64_sextets (sha256 (utf8_encode codeVerifier))) = challenge)
    by (rewrite createCodeChallenge_run in H; congruence).
  clear H.
  destruct (sha256_digest (utf8_encode codeVerifier)) as [Hlen Hbytes].
  assert (Hd : atob (from_base64url challenge) = Some (sha256 (utf8_encode codeVerifier))).
  { rewrite <- Hc. rewrite from_base64url_text by apply b64_sextets_below, Hbytes.
    rewrite <- (app_nil_r (map b64_char _)).
    apply (atob_base64 _ 0 Hbytes). left; reflexivity. }
  split; [exact Hd|]. split; [exact Hlen|].
  intros v'. rewrite createCodeChallenge_run. split.
  - intros H'.
    assert (Hc' : map url_char (b64_sextets (sha256 (utf8_encode v'))) = challenge)
      by congruence.
    destruct (sha256_digest (utf8_encode v')) as [_ Hbytes'].
    assert (Hd' : atob (from_base64url challenge) = Some (sha256 (utf8_encode v'))).
    { rewrite <- Hc'. rewrite from_base64url_text by apply b64_sextets_below, Hbytes'.
      rewrite <- (app_nil_r (map b64_char _)).
      apply (atob_base64 _ 0 Hbytes'). left; reflexivity. }
    rewrite Hd in Hd'. congruence.
  - intros ->. rewrite Hc. reflexivity.
Qed.

Lemma createCodeChallenge_decodes_witness :
  atob (from_base64url (js "E9Melhoa2OwvFrEMTJguCHaoeK1t8URWbuGJSstw-cM"))
  = Some (sha256 (utf8_encode (js "dBjftJeZ4CVP-mB92K27uhbUJU1p1r_wW1gFWFOEjXk"))).
Proof.
  apply (createCodeChallenge_decodes
           (js "dBjftJeZ4CVP-mB92K27uhbUJU1p1r_wW1gFWFOEjXk")
           (js "E9Melhoa2OwvFrEMTJguCHaoeK1t8URWbuGJSstw-cM")).
  vm_compute. reflexivity.
Defined.

End PkceFacts.

(** ** login *)

Module LoginFacts.
Import UseAuth UseAuthFacts Login.

(** The five parameters that [login] appends. *)
Lemma login_subtle b clientId loginRedirectUrl w :
  subtle b = true ->
  let verifier := CryptoUtils.generateRandomString (random b) 43 in
  let challenge := map Pkce.url_char
                     (Pkce.b64_sextets (Pkce.sha256 (Pkce.utf8_encode verifier))) in
  let w' := with_localStorage (<[STORAGE_KEYS_CODE_VERIFIER := verifier]> (localStorage w)) w in
  login b clientId loginRedirectUrl w =
  match loginRedirectUrl with
  | Some authUrl =>
      Some (Ok (Some {| url_base := url_base authUrl;
                        url_params :=
                          (url_params authUrl
                           ++ [(js "client_id", clientId);
                               (js "code_challenge", challenge);
                               (js "code_challenge_method", js "S256");
                               (js "redirect_uri", href b);
                               (js "appName", appName b)])%list |}), w')
  | None => Some (Ok None, w')
  end.
Proof.
  intros Hs verifier challenge w'.
  unfold login, login_try. rewrite try_catch_run. unfold bind at 1.
  unfold bind at 1. unfold lift. rewrite Hs.
  fold verifier. rewrite (PkceFacts.createCodeChallenge_run verifier). fold challenge.
  unfold bind, storage_set, modify. fold w'.
  destruct loginRedirectUrl as [authUrl |]; [|reflexivity].
  unfold ret, searchParams_append. cbn [url_base url_params].
  rewrite <- !app_assoc. reflexivity.
Qed.

Lemma login_no_subtle b clientId loginRedirectUrl w :
  subtle b = false ->
  login b clientId loginRedirectUrl w = Some (Ok None, w).
Proof.
  intros Hs. unfold login, login_try. rewrite try_catch_run.
  unfold bind, lift, Pkce.createCodeChallenge. rewrite Hs. reflexivity.
Qed.

(** X3.  [login()], with [crypto.subtle] at hand and a redirect URL that
    parses: the verifier that it puts in [localStorage] has 43 characters,
    all lowercase letters or digits, and replaces any earlier one; the
    browser is sent to the redirect URL with [client_id], [code_challenge],
    [code_challenge_method=S256], [redirect_uri] and [appName] appended in
    that order, the challenge being the one of the stored verifier; no
    request is sent and neither the token record nor the session changes. *)
Theorem login_redirects (b : Browser) (clientId : jsstring) (authUrl : Url) (w : World) :
  subtle b = true ->
  (forall k, CryptoUtils.valid_double01 (random b k)) ->
  exists verifier challenge target w',
    login b clientId (Some authUrl) w = Some (Ok (Some target), w')
    /\ localStorage w' !! STORAGE_KEYS_CODE_VERIFIER = Some verifier
    /\ List.length verifier = 43%nat
    /\ Forall CryptoUtils.lowercase_or_digit verifier
    /\ Pkce.createCodeChallenge true verifier = Ok challenge
    /\ url_base target = url_base authUrl
    /\ url_params target =
         (url_params authUrl
          ++ [(js "client_id", clientId);
              (js "code_challenge", challenge);
              (js "code_challenge_method", js "S256");
              (js "redirect_uri", href b);
              (js "appName", if str_truthy (title b) then title b
                             else js "Solar Client App")])%list
    /\ memoryTokens w' = memoryTokens w
    /\ view w' = view w
    /\ requests w' = requests w.
Proof.
  intros Hs Hv.
  destruct (CryptoUtilsFacts.generateRandomString_from (random b) 0 43 Hv) as [Hlen Hall].
  eexists _, _, _, _. split; [apply (login_subtle b clientId (Some authUrl) w Hs)|].
  cbn [localStorage with_localStorage url_base url_params memoryTokens view requests].
  rewrite lookup_insert_eq.
  repeat split; try reflexivity.
  - exact Hlen.
  - eapply List.Forall_impl; [|exact Hall]. intros c [_ Hc]. exact Hc.
  - apply PkceFacts.createCodeChallenge_run.
Qed.

Lemma login_redirects_witness :
  exists verifier challenge target w',
    login sample_browser Scenario.client (Some sample_redirect) Scenario.fresh_page
    = Some (Ok (Some target), w')
    /\ localStorage w' !! STORAGE_KEYS_CODE_VERIFIER = Some verifier
    /\ List.length verifier = 43%nat
    /\ Forall CryptoUtils.lowercase_or_digit verifier
    /\ Pkce.createCodeChallenge true verifier = Ok challenge
    /\ url_base target = js "http://localhost:4000/external-login"
    /\ url_params target =
         [(js "client_id", Scenario.client);
          (js "code_challenge", challenge);
          (js "code_challenge_method", js "S256");
          (js "redirect_uri", js "https://app.example/");
          (js "appName", js "Solar Client App")]
    /\ memoryTokens w' = initial_memoryTokens
    /\ view w' = initial_view
    /\ requests w' = [].
Proof.
  apply (login_redirects sample_browser Scenario.client sample_redirect Scenario.fresh_page).
  - reflexivity.
  - exact CryptoUtilsFacts.sample_random_valid.
Defined.

(** X4.  [login()] never throws and never sends a request.  Without
    [crypto.subtle] it does nothing at all.  With a redirect URL that does
    not parse it does not navigate, but the new verifier is already in
    [localStorage], in place of any earlier one. *)
Theorem login_failures (b : Browser) (clientId : jsstring) (loginRedirectUrl : option Url)
    (w : World) :
  ~ throws (login b clientId loginRedirectUrl) w
  /\ (exists target w',
        login b clientId loginRedirectUrl w = Some (Ok target, w')
        /\ requests w' = requests w
        /\ memoryTokens w' = memoryTokens w
        /\ view w' = view w)
  /\ (subtle b = false -> login b clientId loginRedirectUrl w = Some (Ok None, w))
  /\ (subtle b = true ->
      exists w',
        login b clientId None w = Some (Ok None, w')
        /\ localStorage w' !! STORAGE_KEYS_CODE_VERIFIER
           = Some (CryptoUtils.generateRandomString (random b) 43)).
Proof.
  destruct (subtle b) eqn:Hs.
  - pose proof (login_subtle b clientId loginRedirectUrl w Hs) as H. cbv zeta in H.
    split; [|split; [|split]].
    + intros (e & w' & E). rewrite H in E. destruct loginRedirectUrl; discriminate E.
    + destruct loginRedirectUrl; eexists _, _; (split; [exact H | repeat split]).
    + discriminate.
    + intros _. pose proof (login_subtle b clientId None w Hs) as H'. cbv zeta in H'.
      eexists. split; [exact H'|].
      cbn [localStorage with_localStorage]. apply lookup_insert_eq.
  - pose proof (login_no_subtle b clientId loginRedirectUrl w Hs) as H.
    split; [|split; [|split]].
    + intros (e & w' & E). rewrite H in E. discriminate E.
    + eexists _, _. split; [exact H | repeat split].
    + intros _. exact H.
    + discriminate.
Qed.

(** X5.  The verifier that [login()] stored is the one that the page sends
    when it is loaded again with a [code]: the token request of
    [exchangeCodeForToken] carries, as [code_verifier], the verifier whose
    challenge was in the redirect. *)
Theorem login_then_exchange (env : Env) (b : Browser) (clientId : jsstring)
    (authUrl : Url) (w : World) (loc : Location) (entries : nat) (code : jsstring)
    (fuel : nat) (captured : bool) :
  subtle b = true ->
  (forall k, CryptoUtils.valid_double01 (random b k)) ->
  exists verifier challenge target w1,
    login b clientId (Some authUrl) w = Some (Ok (Some target), w1)
    /\ In (js "code_challenge", challenge) (url_params target)
    /\ Pkce.createCodeChallenge true verifier = Ok challenge
    /\ let page := reloaded loc entries w1 in
       let request := PostToken (code_params clientId code verifier) in
       (exists r, exchangeToken env (code_params clientId code verifier) page
                  = Some (r, sent request page))
       /\ exchangeCodeForToken env clientId fuel captured code page =
          match exchangeToken env (code_params clientId code verifier) page with
          | Some (Ok tokens, w2) =>
              match validateAndSetUser env clientId fuel captured
                      (access_token tokens)
                      (stored env (access_token tokens)
                              (expires_or_default (expires_in tokens)) w2) with
              | Some (Ok a, w3) => Some (Ok a, w3)
              | Some (Throw _, w3) => Some (Ok tt, w3)
              | None => None
              end
          | Some (Throw _, w2) => Some (Ok tt, w2)
          | None => None
          end.
Proof.
  intros Hs Hv.
  assert (Hlen : List.length (CryptoUtils.generateRandomString (random b) 43) = 43%nat)
    by apply (CryptoUtilsFacts.generateRandomString_from (random b) 0 43 Hv).
  eexists _, _, _, _. split; [apply (login_subtle b clientId (Some authUrl) w Hs)|].
  split.
  { cbn [url_params]. apply in_or_app. right. right. left. reflexivity. }
  split; [apply PkceFacts.createCodeChallenge_run|].
  intros page request. split; [apply exchangeToken_sent|].
  unfold exchangeCodeForToken.
  apply exchangeCodeForToken_with_run.
  - unfold page, reloaded. cbn [localStorage with_localStorage]. apply lookup_insert_eq.
  - destruct (CryptoUtils.generateRandomString (random b) 43);
      [discriminate Hlen | reflexivity].
Qed.

Lemma login_then_exchange_witness :
  exists verifier challenge target w1,
    login sample_browser Scenario.client (Some sample_redirect) Scenario.fresh_page
    = Some (Ok (Some target), w1)
    /\ In (js "code_challenge", challenge) (url_params target)
    /\ Pkce.createCodeChallenge true verifier = Ok challenge
    /\ (exists r, exchangeToken Scenario.env_login
                    (code_params Scenario.client (js "abc123") verifier)
                    (reloaded sample_return 3 w1)
                  = Some (r, sent (PostToken (code_params Scenario.client (js "abc123") verifier))
                                  (reloaded sample_return 3 w1))).
Proof.
  destruct (login_then_exchange Scenario.env_login sample_browser Scenario.client
              sample_redirect Scenario.fresh_page sample_return 3 (js "abc123") 0 false
              eq_refl CryptoUtilsFacts.sample_random_valid)
    as (verifier & challenge & target & w1 & H1 & H2 & H3 & H4 & _).
  exists verifier, challenge, target, w1. auto.
Defined.

End LoginFacts.
(** ** What the operations keep *)

Module InvariantFacts.
Import UseAuth UseAuthFacts.

Lemma preserves_ret {A} Inv (a : A) : preserves Inv (ret a).
Proof. intros w r w' H E. inversion E; subst. exact H. Qed.

Lemma preserves_throw {A} Inv e : preserves Inv (@throw A e).
Proof. intros w r w' H E. inversion E; subst. exact H. Qed.

Lemma preserves_lift {A} Inv (x : result A) : preserves Inv (lift x).
Proof. intros w r w' H E. inversion E; subst. exact H. Qed.

Lemma preserves_out_of_fuel {A} Inv : preserves Inv (@out_of_fuel A).
Proof. intros w r w' _ E. discriminate E. Qed.

Lemma preserves_modify (Inv : World -> Prop) f :
  (forall w, Inv w -> Inv (f w)) -> preserves Inv (modify f).
Proof. intros Hf w r w' H E. inversion E; subst. apply Hf, H. Qed.

Lemma preserves_bind {A B} Inv (c : M A) (k : A -> M B) :
  preserves Inv c -> (forall a, preserves Inv (k a)) -> preserves Inv (bind c k).
Proof.
  intros Hc Hk w r w' H E. unfold bind in E.
  destruct (c w) as [[[a | e] w1] |] eqn:C; [| | discriminate E].
  - eapply Hk; [eapply Hc; [exact H | exact C] | exact E].
  - inversion E; subst. eapply Hc; [exact H | exact C].
Qed.

Lemma preserves_try_catch {A} Inv (c : M A) handler :
  preserves Inv c -> (forall e, preserves Inv (handler e)) ->
  preserves Inv (try_catch c handler).
Proof.
  intros Hc Hh w r w' H E. unfold try_catch in E.
  destruct (c w) as [[[a | e] w1] |] eqn:C; [| | discriminate E].
  - inversion E; subst. eapply Hc; [exact H | exact C].
  - eapply Hh; [eapply Hc; [exact H | exact C] | exact E].
Qed.

Lemma preserves_finally {A} Inv (c : M A) f :
  preserves Inv c -> preserves Inv f -> preserves Inv (finally c f).
Proof.
  intros Hc Hf w r w' H E. unfold finally in E.
  destruct (c w) as [[r1 w1] |] eqn:C; [| discriminate E].
  destruct (f w1) as [[[a | e] w2] |] eqn:F; [| | discriminate E];
    inversion E; subst;
    (eapply Hf; [eapply Hc; [exact H | exact C] | exact F]).
Qed.

(** *** The operations, over what the state changes keep *)

Section Core.

Variable env : Env.
Variable clientId : jsstring.
Variable Inv : World -> Prop.

#[local] Set Default Proof Using "All".

Hypothesis Inv_sent : forall req w, Inv w -> Inv (sent req w).
Hypothesis Inv_memoryTokens : forall m w, Inv w -> Inv (with_memoryTokens m w).
Hypothesis Inv_settle_unauth : forall w, Inv w -> Inv (settle_unauth w).
Hypothesis Inv_settle_auth : forall u w, active u = true -> Inv w -> Inv (settle_auth u w).
Hypothesis Inv_replaced : forall w, Inv w -> Inv (replaced w).

Lemma preserves_fetch req : preserves Inv (fetch env req).
Proof.
  intros w r w' H E. rewrite fetch_run in E.
  destruct (respond env _ req); inversion E; subst; apply Inv_sent, H.
Qed.

Lemma preserves_exchangeToken params : preserves Inv (exchangeToken env params).
Proof.
  intros w r w' H E. destruct (exchangeToken_sent env params w) as [r0 H0].
  rewrite H0 in E. inversion E; subst. apply Inv_sent, H.
Qed.

Lemma preserves_validateToken key : preserves Inv (validateToken env key).
Proof.
  intros w r w' H E. destruct (validateToken_sent env key w) as [r0 H0].
  rewrite H0 in E. inversion E; subst. apply Inv_sent, H.
Qed.

Lemma preserves_setAccessToken token expiresIn :
  preserves Inv (setAccessToken env token expiresIn).
Proof. apply preserves_modify. intros w. apply Inv_memoryTokens. Qed.

Lemma preserves_clearAuth : preserves Inv clearAuth.
Proof. apply preserves_modify. intros w. apply Inv_memoryTokens. Qed.

Lemma preserves_settle_unauth : preserves Inv (setIsLoggedIn false ;; setUserDetails None).
Proof.
  intros w r w' H E. rewrite settle_unauth_run in E. inversion E; subst.
  apply Inv_settle_unauth, H.
Qed.

Lemma preserves_settle_cleared :
  preserves Inv (clearAuth ;; setIsLoggedIn false ;; setUserDetails None).
Proof. apply preserves_bind; intros; [apply preserves_clearAuth | apply preserves_settle_unauth]. Qed.

Lemma preserves_settle_auth u :
  active u = true -> preserves Inv (setUserDetails (Some u) ;; setIsLoggedIn true).
Proof.
  intros Hu w r w' H E. inversion E; subst.
  apply (Inv_settle_auth u w Hu H).
Qed.

Lemma active_user_active data u : active_user data = Some u -> active u = true.
Proof.
  destruct data as [| | t | v]; try discriminate. cbn.
  destruct (active v) eqn:Hv; [|discriminate]. congruence.
Qed.

Lemma preserves_clear_and_rethrow e : preserves Inv (clear_and_rethrow e).
Proof.
  unfold clear_and_rethrow.
  apply preserves_bind; [apply preserves_clearAuth|]. intros _.
  intros w r w' H E.
  change ((setIsLoggedIn false ;; setUserDetails None ;; throw e) w = Some (r, w')) in E.
  unfold bind, setIsLoggedIn, setUserDetails, modify, throw in E.
  inversion E; subst. apply (Inv_settle_unauth w H).
Qed.

Lemma preserves_introspect refresh key :
  preserves Inv refresh -> preserves Inv (introspect env refresh key).
Proof.
  intros Hr. unfold introspect.
  apply preserves_bind; [apply preserves_validateToken|]. intros data.
  destruct (active_user data) as [u |] eqn:Hu; [|exact Hr].
  apply preserves_settle_auth. eapply active_user_active, Hu.
Qed.

Lemma preserves_validateAndSetUser_with refresh captured token :
  preserves Inv refresh -> preserves Inv (validateAndSetUser_with env refresh captured token).
Proof.
  intros Hr. unfold validateAndSetUser_with. apply preserves_try_catch.
  - unfold validateAndSetUser_try.
    apply preserves_bind; [intros w r w' H E; inversion E; subst; exact H|]. intros stored.
    destruct (captured && _); [apply preserves_ret|].
    apply preserves_bind; [apply preserves_lift|].
    intros [jti |]; apply preserves_introspect, Hr.
  - intros e. unfold validateAndSetUser_catch.
    apply preserves_try_catch; [exact Hr | apply preserves_clear_and_rethrow].
Qed.

Lemma preserves_refreshToken_with validate :
  (forall token, preserves Inv (validate token)) ->
  preserves Inv (refreshToken_with env clientId validate).
Proof.
  intros Hv. unfold refreshToken_with. apply preserves_try_catch.
  - unfold refreshToken_try.
    apply preserves_bind; [apply preserves_exchangeToken|]. intros tokens.
    destruct (bool_decide _); [apply preserves_settle_unauth|].
    apply preserves_bind; [apply preserves_setAccessToken | intros; apply Hv].
  - intros e. apply preserves_settle_cleared.
Qed.

Lemma preserves_refreshToken fuel captured :
  preserves Inv (refreshToken env clientId fuel captured).
Proof.
  induction fuel as [| fuel IH]; [apply preserves_out_of_fuel|].
  cbn [refreshToken]. apply preserves_refreshToken_with.
  intros token. apply preserves_validateAndSetUser_with, IH.
Qed.

Lemma preserves_validateAndSetUser fuel captured token :
  preserves Inv (validateAndSetUser env clientId fuel captured token).
Proof. apply preserves_validateAndSetUser_with, preserves_refreshToken. Qed.

Lemma preserves_exchangeCodeForToken fuel captured code :
  preserves Inv (exchangeCodeForToken env clientId fuel captured code).
Proof.
  unfold exchangeCodeForToken, exchangeCodeForToken_with.
  apply preserves_bind; [intros w r w' H E; inversion E; subst; exact H|].
  intros [verifier |]; [|apply preserves_throw].
  destruct (negb _); [apply preserves_throw|].
  apply preserves_try_catch; [|intros; apply preserves_ret].
  apply preserves_bind; [apply preserves_exchangeToken|]. intros tokens.
  apply preserves_bind; [apply preserves_setAccessToken|].
  intros; apply preserves_validateAndSetUser.
Qed.

Lemma preserves_initialize fuel captured :
  preserves Inv (initialize env clientId fuel captured).
Proof.
  unfold initialize, initialize_with.
  apply preserves_try_catch; [|intros; apply preserves_settle_unauth].
  unfold initialize_try.
  apply preserves_bind; [intros w r w' H E; inversion E; subst; exact H|]. intros token.
  apply preserves_bind; [intros w r w' H E; inversion E; subst; exact H|]. intros tokenExpiry.
  intros w r w' H E.
  destruct (tok_truthy token && expiry_in_future env tokenExpiry w);
    [eapply preserves_validateAndSetUser; [exact H | exact E]|].
  destruct (searchParams_get (js "code") (search (location w))) as [[| c code] |].
  - revert w r w' H E.
    apply preserves_try_catch; [apply preserves_refreshToken | intros; apply preserves_settle_unauth].
  - revert w r w' H E.
    apply preserves_bind; [apply preserves_exchangeCodeForToken|].
    intros _. apply preserves_modify. exact Inv_replaced.
  - revert w r w' H E.
    apply preserves_try_catch; [apply preserves_refreshToken | intros; apply preserves_settle_unauth].
Qed.

Lemma preserves_logout : preserves Inv (logout env).
Proof.
  unfold logout. apply preserves_finally; [|apply preserves_settle_cleared].
  apply preserves_try_catch; [|intros; apply preserves_ret].
  apply preserves_bind; [apply preserves_fetch | intros; apply preserves_ret].
Qed.

End Core.

(** The initialisation effect, over what the loading flag and the latch keep. *)
Section Effect.

Variable env : Env.
Variable clientId : jsstring.
Variable Inv : World -> Prop.

#[local] Set Default Proof Using "All".

Hypothesis Inv_sent : forall req w, Inv w -> Inv (sent req w).
Hypothesis Inv_memoryTokens : forall m w, Inv w -> Inv (with_memoryTokens m w).
Hypothesis Inv_settle_unauth : forall w, Inv w -> Inv (settle_unauth w).
Hypothesis Inv_settle_auth : forall u w, active u = true -> Inv w -> Inv (settle_auth u w).
Hypothesis Inv_replaced : forall w, Inv w -> Inv (replaced w).
Hypothesis Inv_start_loading : forall w, Inv w -> Inv (start_loading w).
Hypothesis Inv_stop_loading : forall w, Inv w -> Inv (stop_loading w).
Hypothesis Inv_remount :
  forall w, Inv w -> Inv (with_isInitializing false (with_view initial_view w)).

Lemma preserves_initialization_effect fuel :
  preserves Inv (initialization_effect env clientId fuel).
Proof.
  intros w r w' H E.
  destruct (isInitializing w) eqn:L.
  - unfold initialization_effect in E. rewrite L in E. inversion E; subst. exact H.
  - rewrite (initialization_effect_run env clientId fuel w L) in E.
    destruct (initialize env clientId fuel (isLoggedIn (view w)) (start_loading w))
      as [[r1 w1] |] eqn:I; [|discriminate E].
    inversion E; subst. apply Inv_stop_loading.
    eapply (preserves_initialize env clientId Inv Inv_sent Inv_memoryTokens
              Inv_settle_unauth Inv_settle_auth Inv_replaced);
      [apply Inv_start_loading, H | exact I].
Qed.

Lemma preserves_mount fuel : preserves Inv (mount env clientId fuel).
Proof.
  intros w r w' H E. unfold mount in E.
  eapply preserves_initialization_effect; [|exact E].
  apply Inv_remount, H.
Qed.

End Effect.

(** *** The view stays consistent *)

Lemma initial_view_consistent w : view w = initial_view -> consistent w.
Proof. intros H. unfold consistent. rewrite H. reflexivity. Qed.

Lemma consistent_view w w' : view w' = view w -> consistent w -> consistent w'.
Proof. intros H. unfold consistent. rewrite H. tauto. Qed.

Lemma consistent_settle_auth u w : active u = true -> consistent (settle_auth u w).
Proof. intros H. unfold consistent. cbn. auto. Qed.

Lemma consistent_run_op env clientId op : preserves consistent (run_op env clientId op).
Proof.
  assert (Hview : forall f : World -> World,
             (forall w, view (f w) = view w) -> forall w, consistent w -> consistent (f w)).
  { intros f Hf w. apply consistent_view, Hf. }
  assert (Hsent : forall req w, consistent w -> consistent (sent req w)).
  { intros req. apply Hview. reflexivity. }
  assert (Hmem : forall m w, consistent w -> consistent (with_memoryTokens m w)).
  { intros m. apply Hview. reflexivity. }
  assert (Hunauth : forall w, consistent w -> consistent (settle_unauth w)).
  { intros w _. reflexivity. }
  assert (Hauth : forall u w, active u = true -> consistent w -> consistent (settle_auth u w)).
  { intros u w Hu _. apply consistent_settle_auth, Hu. }
  assert (Hrepl : forall w, consistent w -> consistent (replaced w)).
  { apply Hview. reflexivity. }
  destruct op; cbn [run_op].
  - apply preserves_modify. apply Hview. reflexivity.
  - apply preserves_modify. apply Hview. reflexivity.
  - apply preserves_modify. apply Hview. reflexivity.
  - apply preserves_modify. apply Hview. reflexivity.
  - apply preserves_validateAndSetUser; assumption.
  - apply preserves_exchangeCodeForToken; assumption.
  - apply preserves_refreshToken; assumption.
  - apply preserves_initialize; assumption.
  - apply preserves_logout; assumption.
  - apply preserves_mount; try assumption; intros w0; unfold consistent; cbn; tauto.
Qed.

(** X6.  Whenever an operation of the hook has settled, the view it leaves
    is consistent if the view it started from was: [isLoggedIn] is true
    exactly when [userDetails] is not null, and the details are those of a
    user that introspection reported active. *)
Theorem view_stays_consistent (env : Env) (clientId : jsstring) (op : Op)
    (w : World) (r : result unit) (w' : World) :
  consistent w ->
  run_op env clientId op w = Some (r, w') ->
  (isLoggedIn (view w') = true <-> userDetails (view w') <> None)
  /\ (forall u, userDetails (view w') = Some u -> active u = true).
Proof.
  intros H E.
  assert (C : consistent w') by (eapply consistent_run_op; eauto).
  unfold consistent in C. destruct (userDetails (view w')) as [u |].
  - destruct C as [C1 C2]. split.
    + split; [discriminate | intros _; exact C1].
    + intros u' Hu. congruence.
  - split.
    + split; [rewrite C; discriminate | intros Hn; contradiction].
    + discriminate.
Qed.

Lemma view_stays_consistent_witness :
  (isLoggedIn (view Scenario.after_login) = true
   <-> userDetails (view Scenario.after_login) <> None)
  /\ (forall u, userDetails (view Scenario.after_login) = Some u -> active u = true).
Proof.
  apply (view_stays_consistent Scenario.env_login Scenario.client (OpMount 0)
           Scenario.page_with_code (Ok tt) Scenario.after_login).
  - reflexivity.
  - vm_compute. reflexivity.
Defined.

(** *** What the operations leave alone *)

(** The part of the page that only [login] and [storage.set] / [storage.remove] write. *)
Lemma frame_run_op env clientId op ls p n :
  storage_op op = false ->
  preserves (fun w => localStorage w = ls /\ pathname (location w) = p
                      /\ history_length w = n)
            (run_op env clientId op).
Proof.
  intros Hop.
  set (Inv := fun w => localStorage w = ls /\ pathname (location w) = p
                       /\ history_length w = n).
  assert (Hf : forall f : World -> World,
             (forall w, localStorage (f w) = localStorage w) ->
             (forall w, pathname (location (f w)) = pathname (location w)) ->
             (forall w, history_length (f w) = history_length w) ->
             forall w, Inv w -> Inv (f w)).
  { intros f H1 H2 H3 w. unfold Inv. rewrite H1, H2, H3. tauto. }
  assert (Hsent : forall req w, Inv w -> Inv (sent req w)).
  { intros req. apply Hf; reflexivity. }
  assert (Hmem : forall m w, Inv w -> Inv (with_memoryTokens m w)).
  { intros m. apply Hf; reflexivity. }
  assert (Hunauth : forall w, Inv w -> Inv (settle_unauth w)).
  { apply Hf; reflexivity. }
  assert (Hauth : forall u w, active u = true -> Inv w -> Inv (settle_auth u w)).
  { intros u w _. revert w. apply Hf; reflexivity. }
  assert (Hrepl : forall w, Inv w -> Inv (replaced w)).
  { apply Hf; reflexivity. }
  destruct op; cbn [run_op]; try discriminate Hop.
  - apply preserves_modify. apply Hf; reflexivity.
  - apply preserves_modify. apply Hf; reflexivity.
  - apply preserves_validateAndSetUser; assumption.
  - apply preserves_exchangeCodeForToken; assumption.
  - apply preserves_refreshToken; assumption.
  - apply preserves_initialize; assumption.
  - apply preserves_logout; assumption.
  - apply preserves_mount; try assumption; apply Hf; reflexivity.
Qed.

(** X7.  Apart from [storage.set] and [storage.remove], no operation of the
    hook writes [localStorage], moves to another path or adds a history
    entry.  In particular the code verifier is still stored when the code
    has been exchanged. *)
Theorem operations_keep_storage_and_path (env : Env) (clientId : jsstring) (op : Op)
    (w : World) (r : result unit) (w' : World) :
  storage_op op = false ->
  run_op env clientId op w = Some (r, w') ->
  localStorage w' = localStorage w
  /\ pathname (location w') = pathname (location w)
  /\ history_length w' = history_length w.
Proof.
  intros Hop E.
  eapply (frame_run_op env clientId op _ _ _ Hop w r w'); [|exact E]. auto.
Qed.

Lemma operations_keep_storage_and_path_witness :
  localStorage Scenario.after_login = localStorage Scenario.page_with_code
  /\ pathname (location Scenario.after_login) = pathname (location Scenario.page_with_code)
  /\ history_length Scenario.after_login = history_length Scenario.page_with_code.
Proof.
  apply (operations_keep_storage_and_path Scenario.env_login Scenario.client (OpMount 0)
           Scenario.page_with_code (Ok tt) Scenario.after_login).
  - reflexivity.
  - vm_compute. reflexivity.
Defined.

(** Only the initialisation effect writes [authLoading] and its latch. *)
Lemma loading_run_op env clientId op b l :
  mount_op op = false ->
  preserves (fun w => authLoading (view w) = b /\ isInitializing w = l)
            (run_op env clientId op).
Proof.
  intros Hop.
  set (Inv := fun w => authLoading (view w) = b /\ isInitializing w = l).
  assert (Hf : forall f : World -> World,
             (forall w, authLoading (view (f w)) = authLoading (view w)) ->
             (forall w, isInitializing (f w) = isInitializing w) ->
             forall w, Inv w -> Inv (f w)).
  { intros f H1 H2 w. unfold Inv. rewrite H1, H2. tauto. }
  assert (Hsent : forall req w, Inv w -> Inv (sent req w)).
  { intros req. apply Hf; reflexivity. }
  assert (Hmem : forall m w, Inv w -> Inv (with_memoryTokens m w)).
  { intros m. apply Hf; reflexivity. }
  assert (Hunauth : forall w, Inv w -> Inv (settle_unauth w)).
  { apply Hf; reflexivity. }
  assert (Hauth : forall u w, active u = true -> Inv w -> Inv (settle_auth u w)).
  { intros u w _. revert w. apply Hf; reflexivity. }
  assert (Hrepl : forall w, Inv w -> Inv (replaced w)).
  { apply Hf; reflexivity. }
  destruct op; cbn [run_op]; try discriminate Hop.
  - apply preserves_modify. apply Hf; reflexivity.
  - apply preserves_modify. apply Hf; reflexivity.
  - apply preserves_modify. apply Hf; reflexivity.
  - apply preserves_modify. apply Hf; reflexivity.
  - apply preserves_validateAndSetUser; assumption.
  - apply preserves_exchangeCodeForToken; assumption.
  - apply preserves_refreshToken; assumption.
  - apply preserves_initialize; assumption.
  - apply preserves_logout; assumption.
Qed.

(** X8.  [authLoading] is written by the initialisation effect only: every
    other operation leaves it, and the latch, as they were; and when the
    effect of a mount has settled, it has not thrown, [authLoading] is
    false and the latch is released. *)
Theorem authLoading_only_at_mount (env : Env) (clientId : jsstring) (op : Op)
    (w : World) (r : result unit) (w' : World) :
  run_op env clientId op w = Some (r, w') ->
  if mount_op op
  then r = Ok tt /\ authLoading (view w') = false /\ isInitializing w' = false
  else authLoading (view w') = authLoading (view w) /\ isInitializing w' = isInitializing w.
Proof.
  intros E. destruct (mount_op op) eqn:Hop.
  - destruct op; try discriminate Hop. cbn [run_op] in E.
    split.
    + destruct r as [[] | e]; [reflexivity|].
      exfalso. apply (mount_never_throws env clientId fuel w). exists e, w'. exact E.
    + rewrite mount_run in E.
      destruct (initialize env clientId fuel false _) as [[r1 w1] |]; [|discriminate E].
      inversion E; subst. split; reflexivity.
  - eapply (loading_run_op env clientId op _ _ Hop w r w'); [|exact E]. auto.
Qed.

Lemma authLoading_only_at_mount_witness :
  Ok tt = Ok tt
  /\ authLoading (view Scenario.after_login) = false
  /\ isInitializing Scenario.after_login = false.
Proof.
  apply (authLoading_only_at_mount Scenario.env_login Scenario.client (OpMount 0)
           Scenario.page_with_code (Ok tt) Scenario.after_login).
  vm_compute. reflexivity.
Defined.

End InvariantFacts.
(** ** The session, path by path *)

Module SessionFacts.
Import UseAuth UseAuthFacts.

Lemma str_truthy_false s : str_truthy s = false <-> s = [].
Proof. destruct s; split; intros H; try reflexivity; discriminate H. Qed.

Lemma url_code_some w code :
  url_code w = Some code ->
  searchParams_get (js "code") (search (location w)) = Some code /\ str_truthy code = true.
Proof.
  unfold url_code. destruct (searchParams_get _ _) as [[| c l] |]; try discriminate.
  intros H. inversion H; subst. split; reflexivity.
Qed.

Lemma url_code_none w :
  url_code w = None ->
  searchParams_get (js "code") (search (location w)) = None
  \/ searchParams_get (js "code") (search (location w)) = Some [].
Proof.
  unfold url_code. destruct (searchParams_get _ _) as [[| c l] |]; try discriminate; auto.
Qed.

Lemma logout_run env w :
  logout env w = Some (Ok tt, settle_cleared (sent PostLogout w)).
Proof.
  unfold logout, finally. rewrite try_catch_run. unfold bind at 1. rewrite fetch_run.
  destruct (respond env _ PostLogout); reflexivity.
Qed.

(** X9.  [logout()] always signs out locally, whatever the server does: it
    posts once to the logout endpoint, and whether that request is answered,
    refused or fails, it fulfils with the token record cleared and the view
    Unauthenticated.  [localStorage] (the code verifier) and [authLoading]
    are left as they were. *)
Theorem logout_always_signs_out (env : Env) (w : World) :
  exists w',
    logout env w = Some (Ok tt, w')
    /\ memoryTokens w' = initial_memoryTokens
    /\ unauthenticated w'
    /\ requests w' = (requests w ++ [PostLogout])%list
    /\ localStorage w' = localStorage w
    /\ authLoading (view w') = authLoading (view w).
Proof.
  eexists. split; [apply logout_run|]. repeat split.
Qed.

Lemma exchangeCodeForToken_no_verifier env clientId validate code w :
  localStorage w !! STORAGE_KEYS_CODE_VERIFIER = None
  \/ localStorage w !! STORAGE_KEYS_CODE_VERIFIER = Some [] ->
  exchangeCodeForToken_with env clientId validate code w
  = Some (Throw (Error (js "Missing code verifier")), w).
Proof.
  intros [H | H]; unfold exchangeCodeForToken_with, bind, storage_get; rewrite H; reflexivity.
Qed.

(** X10.  [exchangeCodeForToken] throws exactly when the stored code verifier
    is missing or empty.  With a verifier, nothing that happens afterwards
    (a refused exchange, a failed validation) reaches the caller. *)
Theorem exchangeCodeForToken_throws_iff (env : Env) (clientId : jsstring)
    (fuel : nat) (captured : bool) (code : jsstring) (w : World) :
  throws (exchangeCodeForToken env clientId fuel captured code) w
  <-> (localStorage w !! STORAGE_KEYS_CODE_VERIFIER = None
       \/ localStorage w !! STORAGE_KEYS_CODE_VERIFIER = Some []).
Proof.
  unfold exchangeCodeForToken. split.
  - intros (e & w' & H).
    destruct (localStorage w !! STORAGE_KEYS_CODE_VERIFIER) as [[| c v] |] eqn:L; auto.
    exfalso.
    rewrite (exchangeCodeForToken_with_run env clientId _ code w (c :: v) L eq_refl) in H.
    destruct (exchangeToken env _ w) as [[[tokens | e0] w1] |]; try discriminate H.
    destruct (validateAndSetUser env clientId fuel captured _ _) as [[[a | e0] w2] |];
      discriminate H.
  - intros H. exists (Error (js "Missing code verifier")), w.
    apply exchangeCodeForToken_no_verifier, H.
Qed.

(** X11.  When [initialize] finds a [code] in the URL but no code verifier in
    [localStorage] (and holds no valid token), it sends nothing, settles
    Unauthenticated, and leaves the URL as it is: the [code] is not removed. *)
Theorem initialize_code_without_verifier (env : Env) (clientId : jsstring)
    (fuel : nat) (captured : bool) (w : World) (code : jsstring) :
  holds_valid_token env w = false ->
  url_code w = Some code ->
  localStorage w !! STORAGE_KEYS_CODE_VERIFIER = None
  \/ localStorage w !! STORAGE_KEYS_CODE_VERIFIER = Some [] ->
  exists w',
    initialize env clientId fuel captured w = Some (Ok tt, w')
    /\ unauthenticated w'
    /\ requests w' = requests w
    /\ location w' = location w
    /\ memoryTokens w' = memoryTokens w.
Proof.
  intros Htok Hcode Hver.
  destruct (url_code_some w code Hcode) as [Hc Ht].
  exists (settle_unauth w). split; [|repeat split].
  unfold initialize. rewrite initialize_with_run.
  rewrite (initialize_try_code env _ _ _ w code Htok Hc Ht).
  unfold exchangeCodeForToken.
  rewrite (exchangeCodeForToken_no_verifier env clientId _ code w Hver). reflexivity.
Qed.

Lemma initialize_code_without_verifier_witness :
  exists w',
    initialize Scenario.env_login Scenario.client 1 false Scenario.page_with_code_no_verifier
    = Some (Ok tt, w')
    /\ unauthenticated w'
    /\ requests w' = []
    /\ location w' = location Scenario.page_with_code_no_verifier
    /\ memoryTokens w' = initial_memoryTokens.
Proof.
  apply (initialize_code_without_verifier Scenario.env_login Scenario.client 1 false
           Scenario.page_with_code_no_verifier (js "abc123")).
  - reflexivity.
  - reflexivity.
  - left. reflexivity.
Defined.

(** X12.  When the exchange of the [code] is refused or fails,
    [initialize] still removes the query from the URL, and does nothing
    else: one request has been sent, no refresh is tried, and token record
    and view are as they were. *)
Theorem initialize_code_exchange_fails (env : Env) (clientId : jsstring)
    (fuel : nat) (captured : bool) (w : World) (code verifier : jsstring)
    (e : exn) (w1 : World) :
  holds_valid_token env w = false ->
  url_code w = Some code ->
  localStorage w !! STORAGE_KEYS_CODE_VERIFIER = Some verifier ->
  str_truthy verifier = true ->
  exchangeToken env (code_params clientId code verifier) w = Some (Throw e, w1) ->
  exists w',
    initialize env clientId fuel captured w = Some (Ok tt, w')
    /\ requests w' = (requests w ++ [PostToken (code_params clientId code verifier)])%list
    /\ location w' = {| pathname := pathname (location w); search := []; fragment := [] |}
    /\ history_length w' = history_length w
    /\ memoryTokens w' = memoryTokens w
    /\ view w' = view w.
Proof.
  intros Htok Hcode Hver Hv He.
  destruct (url_code_some w code Hcode) as [Hc Ht].
  destruct (exchangeToken_sent env (code_params clientId code verifier) w) as [r Hs].
  assert (w1 = sent (PostToken (code_params clientId code verifier)) w) as ->
    by congruence.
  eexists. split.
  - unfold initialize. rewrite initialize_with_run.
    rewrite (initialize_try_code env _ _ _ w code Htok Hc Ht).
    unfold exchangeCodeForToken.
    rewrite (exchangeCodeForToken_with_run env clientId _ code w verifier Hver Hv).
    rewrite He. reflexivity.
  - repeat split.
Qed.

Lemma initialize_code_exchange_fails_witness :
  exists w',
    initialize Scenario.env_401 Scenario.client 1 false Scenario.page_with_code
    = Some (Ok tt, w')
    /\ requests w'
       = [PostToken (code_params Scenario.client (js "abc123") (js "xyz"))]
    /\ location w' = {| pathname := js "/"; search := []; fragment := [] |}
    /\ history_length w' = 1%nat
    /\ memoryTokens w' = initial_memoryTokens
    /\ view w' = initial_view.
Proof.
  apply (initialize_code_exchange_fails Scenario.env_401 Scenario.client 1 false
           Scenario.page_with_code (js "abc123") (js "xyz")
           (HttpError (js "Token operation failed") 401 [])
           (sent (PostToken (code_params Scenario.client (js "abc123") (js "xyz")))
                 Scenario.page_with_code)).
  - reflexivity.
  - reflexivity.
  - reflexivity.
  - reflexivity.
  - reflexivity.
Defined.

(** X13.  With a stored token that has not expired, [initialize] (of the
    first render, where [isLoggedIn] is false) validates that token and
    looks at nothing else: when introspection reports it active, the
    session is Authenticated after this one request, and a [code] in the
    URL is neither exchanged nor removed. *)
Theorem initialize_valid_token (env : Env) (clientId : jsstring) (fuel : nat)
    (w : World) (u : UserDetails) (w1 : World) :
  holds_valid_token env w = true ->
  validateToken env (introspection_key (accessToken (memoryTokens w))) w
  = Some (Ok (BodyUser u), w1) ->
  active u = true ->
  exists w',
    initialize env clientId fuel false w = Some (Ok tt, w')
    /\ view w' = {| isLoggedIn := true; userDetails := Some u;
                    authLoading := authLoading (view w) |}
    /\ requests w'
       = (requests w ++ [PostIntrospect (introspection_key (accessToken (memoryTokens w)))])%list
    /\ location w' = location w
    /\ memoryTokens w' = memoryTokens w.
Proof.
  intros Htok Hval Hact.
  destruct (validateToken_sent env (introspection_key (accessToken (memoryTokens w))) w)
    as [r Hs].
  assert (w1 = sent (PostIntrospect (introspection_key (accessToken (memoryTokens w)))) w)
    as -> by congruence.
  eexists. split.
  - unfold initialize. rewrite initialize_with_run.
    rewrite (initialize_try_valid_token env _ _ _ w Htok).
    unfold validateAndSetUser. rewrite validateAndSetUser_with_run.
    rewrite validateAndSetUser_try_run by reflexivity.
    rewrite introspect_run, Hval. cbn [active_user]. rewrite Hact. reflexivity.
  - repeat split.
Qed.

Lemma initialize_valid_token_witness :
  exists w',
    initialize Scenario.env_login Scenario.client 0 false
      (with_location {| pathname := js "/"; search := [(js "code", js "abc123")];
                        fragment := [] |} Scenario.page_with_token)
    = Some (Ok tt, w')
    /\ view w' = {| isLoggedIn := true; userDetails := Some Scenario.user_ab;
                    authLoading := true |}
    /\ requests w' = [PostIntrospect (KeyToken (TokStr (js "tok0")))]
    /\ location w' = {| pathname := js "/"; search := [(js "code", js "abc123")];
                        fragment := [] |}
    /\ memoryTokens w' = {| accessToken := TokStr (js "tok0");
                            expiry := Some 1700000001000%Z |}.
Proof.
  apply (initialize_valid_token Scenario.env_login Scenario.client 0
           (with_location {| pathname := js "/"; search := [(js "code", js "abc123")];
                             fragment := [] |} Scenario.page_with_token)
           Scenario.user_ab
           (sent (PostIntrospect (KeyToken (TokStr (js "tok0"))))
              (with_location {| pathname := js "/"; search := [(js "code", js "abc123")];
                                fragment := [] |} Scenario.page_with_token))).
  - reflexivity.
  - vm_compute. reflexivity.
  - reflexivity.
Defined.

(** X14.  A session is restored from the refresh cookie: with no valid
    token and no [code], when the token endpoint answers the refresh with an
    access token and introspection reports that token active, [initialize]
    leaves the session Authenticated with the new token and its expiry in
    the record, after exactly these two requests. *)
Theorem initialize_refresh_restores (env : Env) (clientId : jsstring) (fuel : nat)
    (w : World) (tokens : TokenResponse) (tok : jsstring) (u : UserDetails)
    (w1 w2 : World) :
  holds_valid_token env w = false ->
  url_code w = None ->
  exchangeToken env (refresh_params clientId) w = Some (Ok tokens, w1) ->
  access_token tokens = TokStr tok ->
  status tokens <> Some (js "auth_required") ->
  validateToken env (introspection_key (TokStr tok))
    (stored env (TokStr tok) (expires_or_default (expires_in tokens)) w1)
  = Some (Ok (BodyUser u), w2) ->
  active u = true ->
  exists w',
    initialize env clientId (S fuel) false w = Some (Ok tt, w')
    /\ view w' = {| isLoggedIn := true; userDetails := Some u;
                    authLoading := authLoading (view w) |}
    /\ memoryTokens w'
       = {| accessToken := TokStr tok;
            expiry := Some (clock env (S (List.length (requests w)))
                            + expires_or_default (expires_in tokens) * 1000)%Z |}
    /\ requests w'
       = (requests w ++ [PostToken (refresh_params clientId);
                         PostIntrospect (introspection_key (TokStr tok))])%list
    /\ location w' = location w.
Proof.
  intros Htok Hcode Hex Hat Hst Hval Hact.
  destruct (exchangeToken_sent env (refresh_params clientId) w) as [r Hs].
  assert (w1 = sent (PostToken (refresh_params clientId)) w) as -> by congruence.
  destruct (validateToken_sent env (introspection_key (TokStr tok))
              (stored env (TokStr tok) (expires_or_default (expires_in tokens))
                 (sent (PostToken (refresh_params clientId)) w))) as [r' Hs'].
  assert (w2 = sent (PostIntrospect (introspection_key (TokStr tok)))
                 (stored env (TokStr tok) (expires_or_default (expires_in tokens))
                    (sent (PostToken (refresh_params clientId)) w))) as -> by congruence.
  eexists. split.
  - unfold initialize. rewrite initialize_with_run.
    rewrite (initialize_try_refresh env _ _ _ w Htok (url_code_none w Hcode)).
    cbn [refreshToken].
    rewrite (refreshToken_stores_and_validates env clientId _ w tokens _ Hex Hst).
    rewrite Hat.
    rewrite validateAndSetUser_with_run.
    rewrite validateAndSetUser_try_run by reflexivity.
    rewrite introspect_run, Hval. cbn [active_user]. rewrite Hact. reflexivity.
  - cbn. unfold now. cbn. rewrite length_app, <- app_assoc. cbn.
    rewrite Nat.add_1_r. repeat split.
Qed.

Lemma initialize_refresh_restores_witness :
  exists w',
    initialize Scenario.env_login Scenario.client 1 false Scenario.fresh_page
    = Some (Ok tt, w')
    /\ view w' = {| isLoggedIn := true; userDetails := Some Scenario.user_ab;
                    authLoading := true |}
    /\ memoryTokens w'
       = {| accessToken := TokStr (js "tok1"); expiry := Some 1700003600000%Z |}
    /\ requests w'
       = [PostToken (refresh_params Scenario.client);
          PostIntrospect (KeyToken (TokStr (js "tok1")))]
    /\ location w' = {| pathname := js "/"; search := []; fragment := [] |}.
Proof.
  apply (initialize_refresh_restores Scenario.env_login Scenario.client 0
           Scenario.fresh_page Scenario.tokens_tok1 (js "tok1") Scenario.user_ab
           (sent (PostToken (refresh_params Scenario.client)) Scenario.fresh_page)
           (sent (PostIntrospect (KeyToken (TokStr (js "tok1"))))
              (stored Scenario.env_login (TokStr (js "tok1")) 3600
                 (sent (PostToken (refresh_params Scenario.client)) Scenario.fresh_page)))).
  - reflexivity.
  - reflexivity.
  - reflexivity.
  - reflexivity.
  - discriminate.
  - vm_compute. reflexivity.
  - reflexivity.
Defined.

(** X15.  A token that introspection reports inactive, followed by a refresh
    that answers [auth_required], leaves the session Unauthenticated but the
    token record untouched: the rejected token and its expiry stay in
    memory (and [token] of the hook still returns it). *)
Theorem rejected_token_is_kept (env : Env) (clientId : jsstring) (fuel : nat)
    (token : jstoken) (w : World) (data : Body) (w1 : World)
    (tokens : TokenResponse) (w2 : World) :
  validateToken env (introspection_key token) w = Some (Ok data, w1) ->
  active_user data = None ->
  exchangeToken env (refresh_params clientId) w1 = Some (Ok tokens, w2) ->
  status tokens = Some (js "auth_required") ->
  exists w',
    validateAndSetUser env clientId (S fuel) false token w = Some (Ok tt, w')
    /\ unauthenticated w'
    /\ memoryTokens w' = memoryTokens w
    /\ requests w'
       = (requests w ++ [PostIntrospect (introspection_key token);
                         PostToken (refresh_params clientId)])%list.
Proof.
  intros Hval Hdata Hex Hst.
  destruct (validateToken_sent env (introspection_key token) w) as [r Hs].
  assert (w1 = sent (PostIntrospect (introspection_key token)) w) as -> by congruence.
  destruct (exchangeToken_sent env (refresh_params clientId)
              (sent (PostIntrospect (introspection_key token)) w)) as [r' Hs'].
  assert (w2 = sent (PostToken (refresh_params clientId))
                 (sent (PostIntrospect (introspection_key token)) w)) as -> by congruence.
  eexists. split.
  - unfold validateAndSetUser. rewrite validateAndSetUser_with_run.
    rewrite validateAndSetUser_try_run by reflexivity.
    rewrite introspect_run, Hval, Hdata. cbn [refreshToken].
    rewrite refreshToken_with_run, refreshToken_try_run, Hex.
    rewrite bool_decide_eq_true_2 by exact Hst. reflexivity.
  - cbn. rewrite <- app_assoc. repeat split.
Qed.

Lemma rejected_token_is_kept_witness :
  exists w',
    validateAndSetUser Scenario.env_auth_required Scenario.client 1 false
      (TokStr (js "tok0")) Scenario.page_with_token = Some (Ok tt, w')
    /\ unauthenticated w'
    /\ memoryTokens w' = {| accessToken := TokStr (js "tok0");
                            expiry := Some 1700000001000%Z |}
    /\ requests w' = [PostIntrospect (KeyToken (TokStr (js "tok0")));
                      PostToken (refresh_params Scenario.client)].
Proof.
  apply (rejected_token_is_kept Scenario.env_auth_required Scenario.client 0
           (TokStr (js "tok0")) Scenario.page_with_token
           (BodyUser Scenario.user_inactive)
           (sent (PostIntrospect (KeyToken (TokStr (js "tok0")))) Scenario.page_with_token)
           Scenario.tokens_auth_required
           (sent (PostToken (refresh_params Scenario.client))
              (sent (PostIntrospect (KeyToken (TokStr (js "tok0"))))
                 Scenario.page_with_token))).
  - vm_compute. reflexivity.
  - reflexivity.
  - vm_compute. reflexivity.
  - reflexivity.
Defined.

(** *** When the token endpoint never renews *)

Lemma sends_at_most_trans a b w w1 w2 :
  sends_at_most a w w1 -> sends_at_most b w1 w2 -> sends_at_most (a + b) w w2.
Proof. unfold sends_at_most. lia. Qed.

Lemma sends_at_most_le a b w w' : (a <= b)%nat -> sends_at_most a w w' -> sends_at_most b w w'.
Proof. unfold sends_at_most. lia. Qed.

Lemma sends_at_most_same k w w' : requests w' = requests w -> sends_at_most k w w'.
Proof. unfold sends_at_most. intros ->. lia. Qed.

Lemma sends_at_most_sent req w : sends_at_most 1 w (sent req w).
Proof. unfold sends_at_most. cbn. rewrite length_app. cbn. lia. Qed.

Section Refused.

Variable env : Env.
Variable clientId : jsstring.

#[local] Set Default Proof Using "All".

Hypothesis Hrefused : refresh_refused env clientId.

Lemma refreshToken_refused fuel captured w :
  exists w',
    refreshToken env clientId (S fuel) captured w = Some (Ok tt, w')
    /\ unauthenticated w' /\ sends_at_most 1 w w'.
Proof.
  cbn [refreshToken].
  destruct (exchangeToken_sent env (refresh_params clientId) w) as [[tokens | e] H].
  - rewrite refreshToken_with_run, refreshToken_try_run, H.
    rewrite bool_decide_eq_true_2 by (eapply Hrefused, H).
    eexists. split; [reflexivity|]. split; [apply settle_unauth_unauthenticated|].
    apply (sends_at_most_sent _ w).
  - rewrite (refreshToken_call_throws env clientId _ w e _ H).
    eexists. split; [reflexivity|]. split; [apply settle_cleared_unauthenticated|].
    apply (sends_at_most_sent _ w).
Qed.

Lemma validateAndSetUser_refused fuel captured token w :
  exists w',
    validateAndSetUser env clientId (S fuel) captured token w = Some (Ok tt, w')
    /\ sends_at_most 2 w w'.
Proof.
  unfold validateAndSetUser. rewrite validateAndSetUser_with_run.
  destruct (captured && tok_strict_eqb (accessToken (memoryTokens w)) token) eqn:Hsc.
  - apply andb_true_iff in Hsc as [-> Heq].
    rewrite (validateAndSetUser_try_short_circuit env _ token w Heq).
    eexists. split; [reflexivity|]. apply sends_at_most_same. reflexivity.
  - rewrite (validateAndSetUser_try_run env _ captured token w Hsc), introspect_run.
    destruct (validateToken_sent env (introspection_key token) w) as [[data | e] H];
      rewrite H.
    + destruct (active_user data) as [u |].
      * eexists. split; [reflexivity|].
        eapply sends_at_most_le; [|apply (sends_at_most_sent _ w)]. lia.
      * destruct (refreshToken_refused fuel captured
                    (sent (PostIntrospect (introspection_key token)) w))
          as (w' & E & _ & B).
        rewrite E. eexists. split; [reflexivity|].
        apply (sends_at_most_trans 1 1 w _ w' (sends_at_most_sent _ w) B).
    + destruct (refreshToken_refused fuel captured
                  (sent (PostIntrospect (introspection_key token)) w))
        as (w' & E & _ & B).
      rewrite E. eexists. split; [reflexivity|].
      apply (sends_at_most_trans 1 1 w _ w' (sends_at_most_sent _ w) B).
Qed.

Lemma exchangeCodeForToken_refused fuel captured code w :
  exists r w',
    exchangeCodeForToken env clientId (S fuel) captured code w = Some (r, w')
    /\ sends_at_most 3 w w'.
Proof.
  unfold exchangeCodeForToken.
  destruct (localStorage w !! STORAGE_KEYS_CODE_VERIFIER) as [[| c v] |] eqn:L.
  - rewrite exchangeCodeForToken_no_verifier by auto.
    eexists _, _. split; [reflexivity|]. apply sends_at_most_same. reflexivity.
  - rewrite (exchangeCodeForToken_with_run env clientId _ code w (c :: v) L eq_refl).
    destruct (exchangeToken_sent env (code_params clientId code (c :: v)) w)
      as [[tokens | e] H]; rewrite H.
    + destruct (validateAndSetUser_refused fuel captured (access_token tokens)
                  (stored env (access_token tokens)
                     (expires_or_default (expires_in tokens))
                     (sent (PostToken (code_params clientId code (c :: v))) w)))
        as (w' & E & B).
      rewrite E. eexists _, _. split; [reflexivity|].
      apply (sends_at_most_trans 1 2 w
               (stored env (access_token tokens)
                  (expires_or_default (expires_in tokens))
                  (sent (PostToken (code_params clientId code (c :: v))) w)) w');
        [apply (sends_at_most_sent _ w) | exact B].
    + eexists _, _. split; [reflexivity|].
      eapply sends_at_most_le; [|apply (sends_at_most_sent _ w)]. lia.
  - rewrite exchangeCodeForToken_no_verifier by auto.
    eexists _, _. split; [reflexivity|]. apply sends_at_most_same. reflexivity.
Qed.

Lemma initialize_refused fuel captured w :
  exists w',
    initialize env clientId (S fuel) captured w = Some (Ok tt, w')
    /\ sends_at_most 3 w w'.
Proof.
  unfold initialize. rewrite initialize_with_run.
  destruct (holds_valid_token env w) eqn:Htok.
  - rewrite (initialize_try_valid_token env _ _ _ w Htok).
    destruct (validateAndSetUser_refused fuel captured (accessToken (memoryTokens w)) w)
      as (w' & E & B).
    rewrite E. eexists. split; [reflexivity|].
    eapply sends_at_most_le; [|exact B]. lia.
  - destruct (url_code w) as [code |] eqn:Hcode.
    + destruct (url_code_some w code Hcode) as [Hc Ht].
      rewrite (initialize_try_code env _ _ _ w code Htok Hc Ht).
      destruct (exchangeCodeForToken_refused fuel captured code w) as ([[] | e] & w' & E & B);
        rewrite E; (eexists; split; [reflexivity | exact B]).
    + rewrite (initialize_try_refresh env _ _ _ w Htok (url_code_none w Hcode)).
      destruct (refreshToken_refused fuel captured w) as (w' & E & _ & B).
      rewrite E. eexists. split; [reflexivity|].
      eapply sends_at_most_le; [|exact B]. lia.
Qed.

End Refused.

(** X16.  Provided that every request settles (it is answered or it fails:
    these are the behaviours of an [Env]; a request that stays pending
    keeps the effect waiting) and the token endpoint never renews a session
    (every refresh is refused, fails or answers [auth_required]), mounting
    the hook settles: the initialisation fulfils after at most three
    requests, with [authLoading] false, and a recursion budget of one is
    enough. *)
Theorem mount_settles_when_refresh_refused (env : Env) (clientId : jsstring)
    (fuel : nat) (w : World) :
  refresh_refused env clientId ->
  exists w',
    mount env clientId (S fuel) w = Some (Ok tt, w')
    /\ authLoading (view w') = false
    /\ isInitializing w' = false
    /\ sends_at_most 3 w w'.
Proof.
  intros Href. rewrite mount_run.
  set (w0 := start_loading _).
  destruct (initialize_refused env clientId Href fuel false w0) as (w' & E & B).
  rewrite E. eexists. split; [reflexivity|]. repeat split.
  exact B.
Qed.

Lemma env_401_refresh_refused : refresh_refused Scenario.env_401 Scenario.client.
Proof.
  intros w tokens w1 H.
  rewrite (exchangeToken_not_ok Scenario.env_401 _ w
             {| resp_status := 401; resp_text := []; resp_json := BodyInvalid |}
             eq_refl eq_refl) in H.
  discriminate H.
Defined.

Lemma mount_settles_when_refresh_refused_witness :
  exists w',
    mount Scenario.env_401 Scenario.client 1 Scenario.page_with_code = Some (Ok tt, w')
    /\ authLoading (view w') = false
    /\ isInitializing w' = false
    /\ sends_at_most 3 Scenario.page_with_code w'.
Proof.
  apply (mount_settles_when_refresh_refused Scenario.env_401 Scenario.client 0
           Scenario.page_with_code).
  exact env_401_refresh_refused.
Defined.

(** *** The order of the requests *)

(** The requests sent so far stay at the head of the list. *)
Lemma requests_prefix_kept env clientId (sofar : list Request) fuel captured :
  preserves (fun w => exists later, requests w = (sofar ++ later)%list)
            (refreshToken env clientId fuel captured)
  /\ (forall token,
        preserves (fun w => exists later, requests w = (sofar ++ later)%list)
                  (validateAndSetUser env clientId fuel captured token)).
Proof.
  set (Inv := fun w : World => exists later, requests w = (sofar ++ later)%list).
  assert (Hsame : forall f : World -> World,
             (forall w, requests (f w) = requests w) -> forall w, Inv w -> Inv (f w)).
  { intros f Hf w [later H]. exists later. rewrite Hf. exact H. }
  assert (Hsent : forall req w, Inv w -> Inv (sent req w)).
  { intros req w [later H]. exists (later ++ [req])%list. cbn. rewrite H, app_assoc.
    reflexivity. }
  assert (Hmem : forall m w, Inv w -> Inv (with_memoryTokens m w)).
  { intros m. apply Hsame. reflexivity. }
  assert (Hunauth : forall w, Inv w -> Inv (settle_unauth w)).
  { apply Hsame. reflexivity. }
  assert (Hauth : forall u w, active u = true -> Inv w -> Inv (settle_auth u w)).
  { intros u w _. revert w. apply Hsame. reflexivity. }
  assert (Hrepl : forall w, Inv w -> Inv (replaced w)).
  { apply Hsame. reflexivity. }
  split; [|intros token].
  - apply InvariantFacts.preserves_refreshToken; assumption.
  - apply InvariantFacts.preserves_validateAndSetUser; assumption.
Qed.

Lemma introspection_comes_first env clientId fuel captured token w r w' :
  captured && tok_strict_eqb (accessToken (memoryTokens w)) token = false ->
  validateAndSetUser env clientId fuel captured token w = Some (r, w') ->
  exists later,
    requests w'
    = (requests w ++ PostIntrospect (introspection_key token) :: later)%list.
Proof.
  intros Hsc E.
  set (req := PostIntrospect (introspection_key token)) in *.
  destruct (requests_prefix_kept env clientId (requests w ++ [req]) fuel captured)
    as [Hrefresh _].
  assert (Hstart : exists later,
             requests (sent req w) = ((requests w ++ [req]) ++ later)%list).
  { exists []. rewrite app_nil_r. reflexivity. }
  assert (Hgoal : (exists later, requests w' = ((requests w ++ [req]) ++ later)%list) ->
                  exists later, requests w' = (requests w ++ req :: later)%list).
  { intros [later H]. exists later. rewrite H, <- app_assoc. reflexivity. }
  apply Hgoal. clear Hgoal.
  unfold validateAndSetUser in E. rewrite validateAndSetUser_with_run in E.
  rewrite (validateAndSetUser_try_run env _ captured token w Hsc), introspect_run in E.
  destruct (validateToken_sent env (introspection_key token) w) as [[data | e] H];
    rewrite H in E; fold req in E.
  - destruct (active_user data) as [u |].
    + inversion E; subst. exact Hstart.
    + destruct (refreshToken env clientId fuel captured (sent req w))
        as [[[[] | e'] w2] |] eqn:R; cbv beta iota in E; [| |discriminate E].
      * inversion E; subst. exact (Hrefresh _ _ _ Hstart R).
      * pose proof (Hrefresh _ _ _ Hstart R) as H2.
        destruct (refreshToken env clientId fuel captured w2)
          as [[[[] | e''] w3] |] eqn:R'; inversion E; subst.
        -- exact (Hrefresh _ _ _ H2 R').
        -- destruct (Hrefresh _ _ _ H2 R') as [later Hl]. exists later. exact Hl.
  - destruct (refreshToken env clientId fuel captured (sent req w))
      as [[[[] | e'] w2] |] eqn:R; inversion E; subst.
    + exact (Hrefresh _ _ _ Hstart R).
    + destruct (Hrefresh _ _ _ Hstart R) as [later Hl]. exists later. exact Hl.
Qed.

(** X17.  Unless it returns at once (already signed in with this very
    token), [validateAndSetUser] introspects before anything else: whenever
    it settles, the first request it has sent is the introspection, with the
    [jti] of the token when [extractJwtId] finds one and with the whole
    token otherwise; a refresh comes only after it. *)
Theorem validateAndSetUser_introspects_first (env : Env) (clientId : jsstring)
    (fuel : nat) (captured : bool) (token : jstoken) (w : World)
    (r : result unit) (w' : World) :
  captured && tok_strict_eqb (accessToken (memoryTokens w)) token = false ->
  validateAndSetUser env clientId fuel captured token w = Some (r, w') ->
  (exists later,
     requests w'
     = (requests w ++ PostIntrospect (introspection_key token) :: later)%list)
  /\ (introspection_key token = KeyToken token
      \/ exists jti,
           extractJwtId token = Ok (Some jti) /\ introspection_key token = KeyJti jti).
Proof.
  intros Hsc E. split; [eapply introspection_comes_first; eassumption|].
  unfold introspection_key.
  destruct (extractJwtId token) as [[jti |] | e]; eauto.
Qed.

Lemma validateAndSetUser_introspects_first_witness :
  (exists later,
     requests (sent (PostToken (refresh_params Scenario.client))
                 (sent (PostIntrospect (KeyToken (TokStr (js "tok0"))))
                    Scenario.page_with_token))
     = (requests Scenario.page_with_token
        ++ PostIntrospect (introspection_key (TokStr (js "tok0"))) :: later)%list)
  /\ (introspection_key (TokStr (js "tok0")) = KeyToken (TokStr (js "tok0"))
      \/ exists jti,
           extractJwtId (TokStr (js "tok0")) = Ok (Some jti)
           /\ introspection_key (TokStr (js "tok0")) = KeyJti jti).
Proof.
  apply (validateAndSetUser_introspects_first Scenario.env_auth_required Scenario.client
           1 false (TokStr (js "tok0")) Scenario.page_with_token (Ok tt)
           (settle_unauth
              (sent (PostToken (refresh_params Scenario.client))
                 (sent (PostIntrospect (KeyToken (TokStr (js "tok0"))))
                    Scenario.page_with_token)))).
  - reflexivity.
  - vm_compute. reflexivity.
Defined.

(** X18.  [exchangeCodeForToken] does not look at [status]: when the token
    endpoint answers the code exchange without an [access_token] (with
    [auth_required], say), the answer is taken as a token all the same:
    the next request is an introspection of [undefined], and the call
    fulfils whatever follows. *)
Theorem exchangeCodeForToken_ignores_status (env : Env) (clientId : jsstring)
    (fuel : nat) (code verifier : jsstring) (w : World)
    (tokens : TokenResponse) (w1 : World) (r : result unit) (w' : World) :
  localStorage w !! STORAGE_KEYS_CODE_VERIFIER = Some verifier ->
  str_truthy verifier = true ->
  exchangeToken env (code_params clientId code verifier) w = Some (Ok tokens, w1) ->
  access_token tokens = TokUndefined ->
  exchangeCodeForToken env clientId fuel false code w = Some (r, w') ->
  r = Ok tt
  /\ exists later,
       requests w'
       = (requests w ++ PostToken (code_params clientId code verifier)
                     :: PostIntrospect (KeyToken TokUndefined) :: later)%list.
Proof.
  intros Hver Hv Hex Hat E.
  destruct (exchangeToken_sent env (code_params clientId code verifier) w) as [r0 Hs].
  assert (w1 = sent (PostToken (code_params clientId code verifier)) w) as ->
    by congruence.
  unfold exchangeCodeForToken in E.
  rewrite (exchangeCodeForToken_with_run env clientId _ code w verifier Hver Hv) in E.
  rewrite Hex, Hat in E.
  set (w2 := stored env TokUndefined _ _) in E.
  destruct (validateAndSetUser env clientId fuel false TokUndefined w2)
    as [[r2 w3] |] eqn:V; [|discriminate E].
  destruct (introspection_comes_first env clientId fuel false TokUndefined
              w2 r2 w3 eq_refl V) as [later Hl].
  assert (w' = w3 /\ r = Ok tt) as [-> ->].
  { destruct r2 as [[] | e]; inversion E; auto. }
  split; [reflexivity|]. exists later. rewrite Hl.
  subst w2. cbn. rewrite <- app_assoc. reflexivity.
Qed.

Lemma exchangeCodeForToken_ignores_status_witness :
  Ok tt = Ok tt
  /\ exists later,
       requests
         (settle_unauth
            (sent (PostToken (refresh_params Scenario.client))
               (sent (PostIntrospect (KeyToken TokUndefined))
                  (stored Scenario.env_auth_required TokUndefined 3600
                     (sent (PostToken (code_params Scenario.client (js "abc123") (js "xyz")))
                        Scenario.page_with_code)))))
       = (requests Scenario.page_with_code
          ++ PostToken (code_params Scenario.client (js "abc123") (js "xyz"))
          :: PostIntrospect (KeyToken TokUndefined) :: later)%list.
Proof.
  apply (exchangeCodeForToken_ignores_status Scenario.env_auth_required Scenario.client
           1 (js "abc123") (js "xyz") Scenario.page_with_code
           Scenario.tokens_auth_required
           (sent (PostToken (code_params Scenario.client (js "abc123") (js "xyz")))
              Scenario.page_with_code)).
  - reflexivity.
  - reflexivity.
  - vm_compute. reflexivity.
  - reflexivity.
  - vm_compute. reflexivity.
Defined.

End SessionFacts.
(** ** extractJwtId and the encoding of the payload *)

Module JwtPayloadFacts.
Import CryptoUtils Pkce.

Lemma split_segment sep h rest :
  Forall (fun c => c <> sep) h ->
  split sep (h ++ sep :: rest) = h :: split sep rest.
Proof.
  induction 1 as [| c h Hc _ IH]; cbn [app split].
  - rewrite N.eqb_refl. reflexivity.
  - apply N.eqb_neq in Hc. rewrite Hc, IH. reflexivity.
Qed.

Lemma second_segment header payload signature :
  Forall (fun c => c <> dot) header ->
  Forall (fun c => c <> dot) payload ->
  split dot (header ++ dot :: payload ++ dot :: signature) !! 1%nat = Some payload.
Proof.
  intros Hh Hp. rewrite (split_segment dot header _ Hh), (split_segment dot payload _ Hp).
  reflexivity.
Qed.

Lemma b64_char_not_dot v : (v < 64)%N -> b64_char v <> dot.
Proof.
  intros Hv E. pose proof (PkceFacts.b64_value_char v Hv) as H.
  rewrite E in H. discriminate H.
Qed.

Lemma b64_values_rejects c d : In c d -> b64_value c = None -> b64_values d = None.
Proof.
  intros Hin Hc. induction d as [| x d IH]; [destruct Hin|].
  cbn [b64_values]. destruct Hin as [-> | Hin].
  - rewrite Hc. reflexivity.
  - rewrite (IH Hin). destruct (b64_value x); reflexivity.
Qed.

Lemma strip_padding_keeps c d : In c d -> c <> 61%N -> In c (strip_padding d).
Proof.
  intros Hin Hc. rewrite PkceFacts.strip_padding_cases.
  assert (Hr : In c (rev d)) by (apply in_rev; rewrite rev_involutive; exact Hin).
  destruct (rev d) as [| c1 r1]; [exact Hin|].
  destruct (c1 =? 61)%N eqn:E1; [|exact Hin].
  apply N.eqb_eq in E1. subst c1.
  destruct Hr as [Hr | Hr]; [congruence|].
  destruct r1 as [| c2 r2]; [destruct Hr|].
  destruct (c2 =? 61)%N eqn:E2.
  - apply N.eqb_eq in E2. subst c2.
    destruct Hr as [Hr | Hr]; [congruence|]. apply in_rev in Hr. exact Hr.
  - apply in_rev in Hr. exact Hr.
Qed.

(** [atob] throws on any character that is neither of the base64 alphabet,
    nor white space, nor [=]. *)
Lemma atob_rejects c data :
  In c data -> b64_value c = None -> is_ascii_whitespace c = false -> c <> 61%N ->
  atob data = None.
Proof.
  intros Hin Hv Hw Hc. unfold atob.
  set (d := List.filter _ data).
  assert (Hd : In c d).
  { apply filter_In. split; [exact Hin | rewrite Hw; reflexivity]. }
  set (d' := if (List.length d mod 4 =? 0)%nat then strip_padding d else d).
  assert (Hd' : In c d').
  { unfold d'. destruct (_ =? 0)%nat; [apply strip_padding_keeps; assumption | exact Hd]. }
  destruct (_ =? 1)%nat; [reflexivity|].
  rewrite (b64_values_rejects c d' Hd' Hv). reflexivity.
Qed.

(** X19.  The payload is decoded with [atob], which knows the base64
    alphabet only: for a token whose second segment has a [-] or a [_], as
    the base64url text of a JWT may, [extractJwtId] returns [null], and
    [validateAndSetUser] introspects with the whole token. *)
Theorem extractJwtId_base64url_payload (s payloadBase64 : jsstring) (c : N) :
  split dot s !! 1%nat = Some payloadBase64 ->
  In c payloadBase64 ->
  c = 45%N \/ c = 95%N ->
  extractJwtId (TokStr s) = Ok None
  /\ introspection_key (TokStr s) = KeyToken (TokStr s).
Proof.
  intros Hseg Hin Hc.
  assert (H : extractJwtId (TokStr s) = Ok None).
  { apply (ExtractJwtIdFacts.extractJwtId_undecodable s payloadBase64 Hseg).
    right. left. apply (atob_rejects c); [exact Hin | | |];
      destruct Hc as [-> | ->]; first [reflexivity | discriminate]. }
  split; [exact H|]. unfold introspection_key. rewrite H. reflexivity.
Qed.

Lemma extractJwtId_base64url_payload_witness :
  extractJwtId (TokStr (js "eyJhbGciOiJub25lIn0.eyJqdGkiOiI-In0.sig")) = Ok None
  /\ introspection_key (TokStr (js "eyJhbGciOiJub25lIn0.eyJqdGkiOiI-In0.sig"))
     = KeyToken (TokStr (js "eyJhbGciOiJub25lIn0.eyJqdGkiOiI-In0.sig")).
Proof.
  apply (extractJwtId_base64url_payload
           (js "eyJhbGciOiJub25lIn0.eyJqdGkiOiI-In0.sig")
           (js "eyJqdGkiOiI-In0") 45%N).
  - reflexivity.
  - vm_compute. tauto.
  - left. reflexivity.
Defined.

(** X20.  From a token whose second segment is the base64 text, padded or
    not, of a JSON object with a truthy [jti], [extractJwtId] returns that
    [jti], whatever the other segments are. *)
Theorem extractJwtId_reads_encoded_jti (header signature text : jsstring)
    (padding : nat) (members : list (jsstring * json)) (jti : json) :
  Forall (fun c => c <> dot) header ->
  Forall byte text ->
  padding = 0%nat \/ padding = b64_padding (List.length text) ->
  JSON_parse text = Some (JObj members) ->
  lookup_member (js "jti") members = Some jti ->
  truthy jti = true ->
  extractJwtId
    (TokStr (header ++ dot :: (map b64_char (b64_sextets text) ++ repeat 61%N padding)
                    ++ dot :: signature))
  = Ok (Some jti).
Proof.
  intros Hh Hb Hpad Hparse Hl Ht.
  apply ExtractJwtIdFacts.extractJwtId_some.
  exists (map b64_char (b64_sextets text) ++ repeat 61%N padding)%list, text, members.
  split; [|split; [apply PkceFacts.atob_base64; assumption | auto]].
  apply second_segment; [exact Hh|].
  apply List.Forall_app. split.
  - apply List.Forall_map.
    eapply List.Forall_impl; [|apply PkceFacts.b64_sextets_below, Hb].
    intros v Hv. apply b64_char_not_dot, Hv.
  - apply List.Forall_forall. intros c Hc. apply repeat_spec in Hc. subst c. discriminate.
Qed.

Lemma extractJwtId_reads_encoded_jti_witness :
  extractJwtId
    (TokStr (js "h" ++ dot :: (map b64_char (b64_sextets jti_payload) ++ repeat 61%N 0)
                    ++ dot :: js "s"))
  = Ok (Some (JStr (js "abc"))).
Proof.
  apply (extractJwtId_reads_encoded_jti (js "h") (js "s") jti_payload 0
           [(js "jti", JStr (js "abc"))] (JStr (js "abc"))).
  - repeat (apply List.Forall_cons; [discriminate|]). apply List.Forall_nil.
  - repeat (apply List.Forall_cons; [reflexivity|]). apply List.Forall_nil.
  - left. reflexivity.
  - vm_compute. reflexivity.
  - reflexivity.
  - reflexivity.
Defined.

End JwtPayloadFacts.
(** ** AuthProvider, SignedIn and SignedOut *)

Module AuthProviderFacts.
Import AuthProvider.

Lemma commits_snoc renders a s : commits (renders ++ [a]) s = commit a (commits renders s).
Proof. unfold commits. rewrite fold_left_app. reflexivity. Qed.

Lemma commit_deps a s : last_deps (commit a s) = Some (as_isLoggedIn a, as_token a).
Proof.
  unfold commit. destruct (bool_decide _) eqn:E; [|reflexivity].
  apply bool_decide_eq_true_1 in E. exact E.
Qed.

Lemma mounted_synced : synced mounted.
Proof. intros token H. discriminate H. Qed.

Lemma commit_synced a s : synced s -> synced (commit a s).
Proof.
  intros Hs token Hd Ht. unfold commit in *.
  destruct (bool_decide _); [apply Hs; assumption|].
  cbn [last_deps authToken] in *. inversion Hd as [[Hl Htok]].
  rewrite Hl, Htok, Ht. reflexivity.
Qed.

Lemma commits_synced renders s : synced s -> synced (commits renders s).
Proof.
  revert s. induction renders as [| a renders IH]; intros s Hs; [exact Hs|].
  cbn [commits fold_left]. apply IH, commit_synced, Hs.
Qed.

Lemma committed_token renders a :
  as_isLoggedIn a = true -> tok_truthy (as_token a) = true ->
  authToken (commits (renders ++ [a]) mounted) = as_token a.
Proof.
  intros Hl Ht.
  apply (commits_synced (renders ++ [a]) mounted mounted_synced); [|exact Ht].
  rewrite commits_snoc, commit_deps, Hl. reflexivity.
Qed.

(** X21.  Once the provider's effect has run for a render, exactly one of
    three things is on screen, whatever was rendered before: the spinner of
    [SignedOut] while the client is not ready; the children of [SignedIn],
    with the hook's current token in the context, when the user is signed
    in; the children of [SignedOut] when not.  [SignedIn] and [SignedOut]
    never show their children together. *)
Theorem provider_shows_one_view (renders : list AuthState) (a : AuthState) :
  let c := context_value (commits (renders ++ [a]) mounted) a in
  (SignedIn c = Nothing /\ SignedOut c = Spinner /\ clientReady a = false)
  \/ (SignedIn c = Children /\ SignedOut c = Nothing
      /\ clientReady a = true /\ as_isLoggedIn a = true /\ ctx_token c = as_token a)
  \/ (SignedIn c = Nothing /\ SignedOut c = Children
      /\ clientReady a = true /\ as_isLoggedIn a = false).
Proof.
  intros c. unfold SignedIn, SignedOut. subst c.
  cbn [context_value ctx_clientReady ctx_isLoggedIn ctx_token].
  destruct (clientReady a) eqn:Hr; [|left; auto].
  right. destruct (as_isLoggedIn a) eqn:Hl; [left | right; auto].
  assert (Ht : tok_truthy (as_token a) = true).
  { unfold clientReady in Hr. rewrite Hl in Hr. apply andb_true_iff in Hr. apply Hr. }
  rewrite (committed_token renders a Hl Ht), Ht. auto.
Qed.

Lemma commit_keeps_token a s :
  as_isLoggedIn a && tok_truthy (as_token a) = false -> authToken (commit a s) = authToken s.
Proof.
  intros H. unfold commit. destruct (bool_decide _); [reflexivity|].
  cbn [authToken]. rewrite H. reflexivity.
Qed.

(** X22.  The provider never clears its [authToken]: through renders in
    which the user is signed out or the hook has no token (after [logout],
    or while a later login is in progress), the context keeps handing out
    the token of the last signed-in render. *)
Theorem authToken_is_never_cleared (renders : list AuthState) (s : ProviderState) :
  Forall (fun a => as_isLoggedIn a && tok_truthy (as_token a) = false) renders ->
  authToken (commits renders s) = authToken s.
Proof.
  intros H. revert s. induction H as [| a renders Ha _ IH]; intros s; [reflexivity|].
  cbn [commits fold_left]. fold (commits renders (commit a s)).
  rewrite IH. apply commit_keeps_token, Ha.
Qed.

Lemma authToken_is_never_cleared_witness :
  authToken (commits [signed_out_render] (commits [signed_in_render] mounted))
  = TokStr (js "tok1").
Proof.
  apply (authToken_is_never_cleared [signed_out_render]
           (commits [signed_in_render] mounted)).
  apply List.Forall_cons; [reflexivity | apply List.Forall_nil].
Defined.

End AuthProviderFacts.
